(** * Filter categories and filter lifecycle manager (AdGuard for Safari)

    A shallow embedding of
    [ElectronMainApp/src/main/app/filters/filters-categories.js] (the
    category selector) and of the filters manager that follows it in the
    same source file, together with the properties of their operations.

    JavaScript objects that are shared and mutated in place (filters, groups
    and tags of the subscription catalog) live in stores inside [World]; a
    reference to such an object is its position in the store. *)

From Stdlib Require Import ZArith String Ascii Bool Lia.
From stdpp Require Import base option list gmap strings.

Local Open Scope string_scope.
Local Open Scope list_scope.
Local Open Scope Z_scope.

(** ** JavaScript values *)

(** A boolean property that may be absent: [None] is [undefined]. *)
Abbreviation Flag := (option bool) (only parsing).

Definition truthy (v : Flag) : bool :=
  match v with Some true => true | _ => false end.

(** Truthiness of an optional string ([undefined] and [''] are falsy). *)
Definition truthyString (v : option string) : bool :=
  match v with
  | Some s => negb (String.eqb s "")
  | None => false
  end.

(** Truthiness of an optional number ([undefined] and [0] are falsy). *)
Definition truthyNumber (v : option Z) : bool :=
  match v with
  | Some n => negb (n =? 0)
  | None => false
  end.

(** [s.startsWith(prefix)] *)
Definition startsWith (s prefix : string) : bool := String.prefix prefix s.

(** [s.indexOf(sub)], [-1] when [sub] does not occur. *)
Definition indexOf (s sub : string) : Z :=
  match String.index 0 sub s with
  | Some n => Z.of_nat n
  | None => -1
  end.

(** [s.substring(start)]: a negative start counts as [0]. *)
Definition substringFrom (s : string) (start : Z) : string :=
  let n := Z.to_nat start in
  String.substring n (String.length s - n) s.

Definition toLowerAscii (c : ascii) : ascii :=
  let n := nat_of_ascii c in
  if ((65 <=? n) && (n <=? 90))%nat then ascii_of_nat (n + 32) else c.

Fixpoint toLower (s : string) : string :=
  match s with
  | EmptyString => EmptyString
  | String c s' => String (toLowerAscii c) (toLower s')
  end.

Fixpoint includesString (s sub : string) : bool :=
  String.prefix sub s ||
  match s with
  | EmptyString => false
  | String _ s' => includesString s' sub
  end.

(** [userAgent.match(/iPhone|iPad|iPod/i)], as a truth value. *)
Definition matchesMobileDevice (userAgent : string) : bool :=
  let ua := toLower userAgent in
  includesString ua "iphone" || includesString ua "ipad" || includesString ua "ipod".

(** ** Data model *)

Module Tag.
Record t := mk { tagId : Z; keyword : string }.
End Tag.

Module Filter.
(** [tagsDetails] holds references to the shared tag objects; a missing
    [languages] is the empty list.  The fields [version], [lastCheckTime]
    and [lastUpdateTime] are never read by the operations below and are
    left out. *)
Record t := mk {
  filterId : Z;
  groupId : Z;
  tags : list Z;
  languages : list string;
  customUrl : option string;
  enabled : Flag;
  installed : Flag;
  loaded : Flag;
  removed : Flag;
  tagsDetails : list nat
}.

Definition setEnabled (v : Flag) (f : t) : t :=
  mk (filterId f) (groupId f) (tags f) (languages f) (customUrl f)
     v (installed f) (loaded f) (removed f) (tagsDetails f).
Definition setInstalled (v : Flag) (f : t) : t :=
  mk (filterId f) (groupId f) (tags f) (languages f) (customUrl f)
     (enabled f) v (loaded f) (removed f) (tagsDetails f).
Definition setRemoved (v : Flag) (f : t) : t :=
  mk (filterId f) (groupId f) (tags f) (languages f) (customUrl f)
     (enabled f) (installed f) (loaded f) v (tagsDetails f).
Definition setTagsDetails (v : list nat) (f : t) : t :=
  mk (filterId f) (groupId f) (tags f) (languages f) (customUrl f)
     (enabled f) (installed f) (loaded f) (removed f) v.
End Filter.

Module Group.
(** [enabled] is three-valued; [filters] is the property that
    [getFiltersMetadata] attaches (references to filter objects). *)
Record t := mk {
  groupId : Z;
  enabled : Flag;
  filters : option (list nat)
}.

Definition setEnabled (v : Flag) (g : t) : t := mk (groupId g) v (filters g).
Definition setFilters (v : list nat) (g : t) : t :=
  mk (groupId g) (enabled g) (Some v).
End Group.

Module StateInfo.
Record t := mk { loaded : Flag; enabled : Flag; installed : Flag }.
End StateInfo.

Inductive Event :=
| FILTER_GROUP_ENABLE_DISABLE (group : Group.t)
| FILTER_ENABLE_DISABLE (filter : Filter.t)
| FILTER_ADD_REMOVE (filter : Filter.t).

(** A load handed to the external loader whose callback has not fired yet:
    the filter being loaded and the ids still queued behind it (the data
    captured by the callback closure of [addAndEnableFilters]). *)
Record Pending := mkPending {
  pendingFilter : nat;       (* the filter object held by onFilterLoaded *)
  pendingFilterId : Z;
  pendingQueue : list Z
}.

Record World := mkWorld {
  filters : list Filter.t;               (* subscriptions.getFilters() *)
  groups : list Group.t;                 (* subscriptions.getGroups() *)
  tags : list Tag.t;                     (* tagService.getTags() *)
  filtersState : gmap Z StateInfo.t;     (* filtersState.getFiltersState() *)
  groupsState : gmap Z Flag;             (* filtersState.getGroupState() *)
  notifications : list Event;            (* listeners.notifyListeners log *)
  loaderCalls : list Z;                  (* filtersUpdate.loadFilterRules log *)
  inflight : list Pending                (* loads without a fired callback *)
}.

Definition withFilters (v : list Filter.t) (w : World) : World :=
  mkWorld v (groups w) (tags w) (filtersState w) (groupsState w)
          (notifications w) (loaderCalls w) (inflight w).
Definition withGroups (v : list Group.t) (w : World) : World :=
  mkWorld (filters w) v (tags w) (filtersState w) (groupsState w)
          (notifications w) (loaderCalls w) (inflight w).
Definition withTags (v : list Tag.t) (w : World) : World :=
  mkWorld (filters w) (groups w) v (filtersState w) (groupsState w)
          (notifications w) (loaderCalls w) (inflight w).
Definition withFiltersState (v : gmap Z StateInfo.t) (w : World) : World :=
  mkWorld (filters w) (groups w) (tags w) v (groupsState w)
          (notifications w) (loaderCalls w) (inflight w).
Definition withGroupsState (v : gmap Z Flag) (w : World) : World :=
  mkWorld (filters w) (groups w) (tags w) (filtersState w) v
          (notifications w) (loaderCalls w) (inflight w).
Definition withNotifications (v : list Event) (w : World) : World :=
  mkWorld (filters w) (groups w) (tags w) (filtersState w) (groupsState w)
          v (loaderCalls w) (inflight w).
Definition withLoaderCalls (v : list Z) (w : World) : World :=
  mkWorld (filters w) (groups w) (tags w) (filtersState w) (groupsState w)
          (notifications w) v (inflight w).
Definition withInflight (v : list Pending) (w : World) : World :=
  mkWorld (filters w) (groups w) (tags w) (filtersState w) (groupsState w)
          (notifications w) (loaderCalls w) v.

(** Writes to the object behind a reference. *)
Definition putFilter (ref : nat) (f : Filter.t) (w : World) : World :=
  withFilters (<[ref := f]> (filters w)) w.
Definition putGroup (ref : nat) (g : Group.t) (w : World) : World :=
  withGroups (<[ref := g]> (groups w)) w.

Inductive Exn :=
| FilterNotFound (filterId : Z)   (* throw 'Filter with id ... not found' *)
| TypeError.                      (* property access on undefined *)

Inductive Result :=
| Ok (w : World)
| Throw (e : Exn) (w : World).

Definition bind (r : Result) (k : World -> Result) : Result :=
  match r with
  | Ok w => k w
  | Throw e w => Throw e w
  end.

Notation "r >>> k" := (bind r k) (at level 50, left associativity).

(** ** Subscription catalog lookups *)

(** [subscriptions.getFilter(filterId)]: the object of the catalog with that
    id (ids are unique; the first such object otherwise) and its
    reference. *)
Definition getFilterRef (filterId : Z) (w : World) : option (nat * Filter.t) :=
  list_find (λ f, Filter.filterId f = filterId) (filters w).

Definition getFilter (filterId : Z) (w : World) : option Filter.t :=
  snd <$> getFilterRef filterId w.

Definition getGroupRef (groupId : Z) (w : World) : option (nat * Group.t) :=
  list_find (λ g, Group.groupId g = groupId) (groups w).

Definition getGroup (groupId : Z) (w : World) : option Group.t :=
  snd <$> getGroupRef groupId w.

(** ** Category selector *)

(** The body of [f.tags.forEach(tagId => ...)] in [getFilters]: [acc] is the
    tag store together with the [tagsDetails] array built so far. *)
Definition annotateTag (acc : list Tag.t * list nat) (tagId : Z)
  : list Tag.t * list nat :=
  let '(tags, tagsDetails) := acc in
  match list_find (λ tag, Tag.tagId tag = tagId) tags with
  | None => acc
  | Some (ref, tagDetails) =>
      let keyword := Tag.keyword tagDetails in
      if startsWith keyword "reference:" then acc
      else
        let tags' :=
          if negb (startsWith keyword "lang:")
          then <[ref := Tag.mk (Tag.tagId tagDetails)
                               (substringFrom keyword (indexOf keyword ":" + 1))]> tags
          else tags in
        (tags', tagsDetails ++ [ref])
  end.

(** The body of [result.forEach(f => ...)] for the filter object [ref]. *)
Definition annotateFilter (w : World) (ref : nat) : World :=
  match filters w !! ref with
  | None => w
  | Some f =>
      let '(tags', tagsDetails) := foldl annotateTag (tags w, []) (Filter.tags f) in
      withTags tags' (putFilter ref (Filter.setTagsDetails tagsDetails f) w)
  end.

(** [subscriptions.getFilters().filter(f => !f.removed)], as references. *)
Definition visibleFilters (w : World) : list nat :=
  List.filter
    (λ ref, match filters w !! ref with
            | Some f => negb (truthy (Filter.removed f))
            | None => false
            end)
    (seq 0 (length (filters w))).

Definition getFilters (w : World) : World * list nat :=
  let result := visibleFilters w in
  (foldl annotateFilter w result, result).

Definition selectFiltersByGroupId (groupId : Z) (filterRefs : list nat) (w : World)
  : list nat :=
  List.filter
    (λ ref, match filters w !! ref with
            | Some f => Filter.groupId f =? groupId
            | None => false
            end)
    filterRefs.

Record Metadata := mkMetadata {
  metaFilters : list nat;       (* references to filter objects *)
  metaCategories : list nat     (* references to group objects *)
}.

(** The body of the [for] loop of [getFiltersMetadata] for group [i]. *)
Definition attachCategoryFilters (filterRefs : list nat) (w : World) (i : nat) : World :=
  match groups w !! i with
  | None => w
  | Some category =>
      putGroup i (Group.setFilters
                    (selectFiltersByGroupId (Group.groupId category) filterRefs w)
                    category) w
  end.

Definition getFiltersMetadata (w : World) : World * Metadata :=
  let '(w1, filterRefs) := getFilters w in
  let categories := seq 0 (length (groups w1)) in
  let w2 := foldl (attachCategoryFilters filterRefs) w1 categories in
  let '(w3, allFilters) := getFilters w2 in
  (w3, mkMetadata allFilters categories).

Section Environment.

(** The parts of the runtime that the two modules only consult. *)
Variable SAFARI_FILTER_ID : Z.
  (* config.get('AntiBannerFiltersId').SAFARI_FILTER_ID *)
Variable isRecommendedFilter : Filter.t -> bool.
  (* tagService.isRecommendedFilter *)
Variable isMobileFilter : Filter.t -> bool.
  (* tagService.isMobileFilter *)
Variable userAgent : option string.
  (* navigator.userAgent; None when there is no navigator *)
Variable getFilterIdsForLanguage : list Filter.t -> list Z.
  (* subscriptions.getFilterIdsForLanguage(app.getLocale()) *)

Definition checkMobile (filter : Filter.t) : bool :=
  if negb (isMobileFilter filter) then true
  else if truthyString userAgent
       then match userAgent with
            | Some ua => matchesMobileDevice ua
            | None => false
            end
       else false.

Definition isOfferedFilter (filter : Filter.t) (langSuitableFilters : list Z)
           (safariFilterId : Z) : bool :=
  if safariFilterId =? Filter.filterId filter then true
  else if negb (isRecommendedFilter filter) then false
  else if (0 <? length (Filter.languages filter))%nat
       then if bool_decide (Filter.filterId filter ∈ langSuitableFilters)
            then checkMobile filter
            else false
       else checkMobile filter.

(** The [forEach] over [category.filters] that fills [result]. *)
Definition offeredIds (w : World) (langSuitableFilters : list Z)
           (filterRefs : list nat) : list Z :=
  omap (λ ref, match filters w !! ref with
               | Some filter =>
                   if isOfferedFilter filter langSuitableFilters SAFARI_FILTER_ID
                   then Some (Filter.filterId filter)
                   else None
               | None => None
               end) filterRefs.

Definition getRecommendedFilterIdsByGroupId (groupId : Z) (w : World)
  : World * list Z :=
  let '(w', metadata) := getFiltersMetadata w in
  let langSuitableFilters := getFilterIdsForLanguage (filters w') in
  match list_find (λ i, Group.groupId <$> groups w' !! i = Some groupId)
                  (metaCategories metadata) with
  | Some (_, i) =>
      match groups w' !! i with
      | Some category =>
          (w', offeredIds w' langSuitableFilters
                          (default [] (Group.filters category)))
      | None => (w', [])
      end
  | None => (w', [])
  end.

(** ** Filters manager *)

(** Modelled from the spec: [collections.removeDuplicates], which is not in
    this file: duplicates removed, input order otherwise preserved (the
    first occurrence of every id is kept). *)
Fixpoint removeDuplicates (arr : list Z) : list Z :=
  match arr with
  | [] => []
  | x :: rest => x :: List.filter (λ y, negb (y =? x)) (removeDuplicates rest)
  end.

(** Modelled from the spec: the listener through which the filter state
    store persists the flags of the event's payload (the canonical write
    path is: mutate the in-memory flag, notify listeners, the store
    persists on the event).  The listener is registered outside this
    file. *)
Definition persistState (e : Event) (w : World) : World :=
  match e with
  | FILTER_GROUP_ENABLE_DISABLE group =>
      withGroupsState (<[Group.groupId group := Group.enabled group]> (groupsState w)) w
  | FILTER_ENABLE_DISABLE filter
  | FILTER_ADD_REMOVE filter =>
      withFiltersState
        (<[Filter.filterId filter :=
             StateInfo.mk (Filter.loaded filter) (Filter.enabled filter)
                          (Filter.installed filter)]> (filtersState w)) w
  end.

(** [listeners.notifyListeners(event, payload)]: delivery is synchronous;
    the payload is recorded as it is at the time of the call, and the
    listener of the state store runs. *)
Definition notifyListeners (e : Event) (w : World) : World :=
  persistState e (withNotifications (notifications w ++ [e]) w).

(** Modelled from the spec: [subscriptions.groupHasEnabledStatus], false
    when the group has never been toggled ([group.enabled === undefined]);
    an unknown group has no status either. *)
Definition groupHasEnabledStatus (groupId : Z) (w : World) : bool :=
  match getGroup groupId w with
  | Some group => bool_decide (Group.enabled group ≠ None)
  | None => false
  end.

Definition enableGroup (groupId : Z) (w : World) : World :=
  match getGroupRef groupId w with
  | None => w
  | Some (ref, group) =>
      if truthy (Group.enabled group) then w
      else
        let group' := Group.setEnabled (Some true) group in
        notifyListeners (FILTER_GROUP_ENABLE_DISABLE group')
                        (putGroup ref group' w)
  end.

Definition disableGroup (groupId : Z) (w : World) : World :=
  match getGroupRef groupId w with
  | None => w
  | Some (ref, group) =>
      if negb (truthy (Group.enabled group)) then w
      else
        let group' := Group.setEnabled (Some false) group in
        notifyListeners (FILTER_GROUP_ENABLE_DISABLE group')
                        (putGroup ref group' w)
  end.

Definition isGroupEnabled (groupId : Z) (w : World) : bool :=
  match getGroup groupId w with
  | Some group => truthy (Group.enabled group)
  | None => false
  end.

(** [filter && stateInfo && stateInfo.enabled], as a truth value. *)
Definition isFilterEnabled (filterId : Z) (w : World) : bool :=
  match getFilter filterId w, filtersState w !! filterId with
  | Some _, Some stateInfo => truthy (StateInfo.enabled stateInfo)
  | _, _ => false
  end.

Definition enableFilter (filterId : Z) (w : World) : Result :=
  if isFilterEnabled filterId w then Ok w
  else
    match getFilterRef filterId w with
    | None => Throw TypeError w      (* filter.enabled = true on undefined *)
    | Some (ref, filter) =>
        let filter' := Filter.setEnabled (Some true) filter in
        let w1 := putFilter ref filter' w in
        let groupId := Filter.groupId filter' in
        let w2 := if negb (groupHasEnabledStatus groupId w1)
                  then enableGroup groupId w1 else w1 in
        Ok (notifyListeners (FILTER_ENABLE_DISABLE filter') w2)
    end.

(** [filtersUpdate.loadFilterRules(filter, false, callback)], given the
    reference of the filter object. *)
Definition Loader : Type := nat -> (bool -> World -> Result) -> World -> Result.

(** The [if (success)] block of [onFilterLoaded]. *)
Definition markInstalled (ref : nat) (w : World) : World :=
  match filters w !! ref with
  | Some filter =>
      let filter' := Filter.setInstalled (Some true) filter in
      notifyListeners (FILTER_ADD_REMOVE filter') (putFilter ref filter' w)
  | None => w
  end.

(** The closure [onFilterLoaded] of [addAntiBannerFilter]; it captures the
    filter object [ref] and the caller's callback. *)
Definition onFilterLoaded (ref : nat) (callback : bool -> World -> Result)
           (success : bool) (w : World) : Result :=
  callback success (if success then markInstalled ref w else w).

Definition addAntiBannerFilter (loadFilterRules : Loader) (filterId : Z)
           (callback : bool -> World -> Result) (w : World) : Result :=
  match getFilterRef filterId w with
  | None => Throw (FilterNotFound filterId) w        (* getFilterById *)
  | Some (ref, filter) =>
      if truthy (Filter.installed filter) then callback true w
      else if truthy (Filter.loaded filter) then onFilterLoaded ref callback true w
      else loadFilterRules ref (onFilterLoaded ref callback) w
  end.

(** Modelled from the spec: [filtersUpdate.loadFilterRules], which is not in
    this file.  The loader is the only asynchronous boundary and reports
    success or failure through its callback: the call is logged and the
    callback closure is kept, as the data it captures, until the loader
    fires it (see [loaderCallback]). *)
Definition deferLoad (filterId : Z) (queue : list Z) : Loader :=
  λ ref _ w,
    Ok (withInflight (inflight w ++ [mkPending ref filterId queue])
                     (withLoaderCalls (loaderCalls w ++ [filterId]) w)).

(** The callback that [loadNextFilter] passes to [addAntiBannerFilter];
    [continue] is the recursive call [loadNextFilter()]. *)
Definition batchCallback (continue : World -> Result) (filterId : Z)
           (success : bool) (w : World) : Result :=
  (if success then enableFilter filterId w else Ok w) >>> continue.

(** [loadNextFilter] on the shared array [filterIds]; [shift] takes its
    head. *)
Fixpoint loadNextFilter (filterIds : list Z) (w : World) : Result :=
  match filterIds with
  | [] => Ok w
  | filterId :: rest =>
      addAntiBannerFilter (deferLoad filterId rest) filterId
                          (batchCallback (loadNextFilter rest) filterId) w
  end.

Definition addAndEnableFilters (filterIds : list Z) (w : World) : Result :=
  match filterIds with
  | [] => Ok w
  | _ => loadNextFilter (removeDuplicates filterIds) w
  end.

(** The external loader fires the callback of the [k]-th load in flight
    with its verdict, once: the load is no longer in flight when the
    callback runs. *)
Definition loaderCallback (k : nat) (success : bool) (w : World) : Result :=
  match inflight w !! k with
  | None => Ok w
  | Some p =>
      onFilterLoaded (pendingFilter p)
                     (batchCallback (loadNextFilter (pendingQueue p)) (pendingFilterId p))
                     success (withInflight (delete k (inflight w)) w)
  end.

(** Lets the loader answer every load of a batch, [outcome] giving its
    verdict per filter id. *)
Fixpoint settle (outcome : Z -> bool) (fuel : nat) (w : World) : Result :=
  match fuel with
  | O => Ok w
  | S fuel' =>
      match inflight w with
      | [] => Ok w
      | p :: _ =>
          loaderCallback 0 (outcome (pendingFilterId p)) w >>> settle outcome fuel'
      end
  end.


(** The body of the [for] loop of [disableFilters]. *)
Fixpoint disableLoop (filterIds : list Z) (w : World) : World :=
  match filterIds with
  | [] => w
  | filterId :: rest =>
      if negb (isFilterEnabled filterId w) then w
      else
        match getFilterRef filterId w with
        | None => w       (* not reached: isFilterEnabled found the filter *)
        | Some (ref, filter) =>
            let filter' := Filter.setEnabled (Some false) filter in
            disableLoop rest
              (notifyListeners (FILTER_ENABLE_DISABLE filter')
                               (putFilter ref filter' w))
        end
  end.

Definition disableFilters (filterIds : list Z) (w : World) : World :=
  disableLoop (removeDuplicates filterIds) w.

Definition removeFilter (filterId : Z) (w : World) : World :=
  match getFilterRef filterId w with
  | None => w
  | Some (ref, filter) =>
      if truthy (Filter.removed filter) then w
      else if negb (truthyString (Filter.customUrl filter)) then w
      else
        let filter' :=
          Filter.setRemoved (Some true)
            (Filter.setInstalled (Some false)
               (Filter.setEnabled (Some false) filter)) in
        notifyListeners (FILTER_ADD_REMOVE filter')
          (notifyListeners (FILTER_ENABLE_DISABLE filter')
             (putFilter ref filter' w))
  end.

Definition enableFiltersGroup (groupId : Z) (w : World) : Result :=
  (match getGroup groupId w with
   | Some group =>
       match Group.enabled group with
       | None =>                        (* typeof group.enabled === 'undefined' *)
           let '(w1, recommendedFiltersIds) :=
             getRecommendedFilterIdsByGroupId groupId w in
           addAndEnableFilters recommendedFiltersIds w1
       | Some _ => Ok w
       end
   | None => Ok w
   end) >>> (λ w', Ok (enableGroup groupId w')).

Definition disableFiltersGroup (groupId : Z) (w : World) : World :=
  disableGroup groupId w.

(** The callback that [loadCustomFilter] hands to
    [subscriptions.updateCustomFilter]; [filterId] is what the registration
    yields ([None] for [undefined]). *)
Definition customFilterRegistered (successCallback : Filter.t -> World -> World)
           (errorCallback : World -> World) (filterId : option Z) (w : World)
  : Result :=
  if truthyNumber filterId then
    match getFilterRef (default 0 filterId) w with
    | None => Throw TypeError w       (* delete filter.removed on undefined *)
    | Some (ref, filter) =>
        let filter' := Filter.setRemoved None filter in
        Ok (successCallback filter'
              (putFilter ref filter' w))
    end
  else Ok (errorCallback w).

(** [updateCustomFilter] is the catalog's registration, an external
    function; a missing [errorCallback] defaults to a function that does
    nothing. *)
Definition loadCustomFilter
           (updateCustomFilter : string -> (option Z -> World -> Result) -> World -> Result)
           (url : option string)
           (successCallback : Filter.t -> World -> World)
           (errorCallback : option (World -> World)) (w : World) : Result :=
  let errorCallback := default (λ w, w) errorCallback in
  if negb (truthyString url) then Ok (errorCallback w)
  else updateCustomFilter (default "" url)
                          (customFilterRegistered successCallback errorCallback) w.

End Environment.

(** ** Further operations of the filters manager *)

Module VersionInfo.
Record t := mk {
  version : option string;
  lastCheckTime : option Z;
  lastUpdateTime : option Z
}.
End VersionInfo.

(** The state that the manager's [getFilters] works on: the world, the
    properties [version], [lastCheckTime] and [lastUpdateTime] of every filter
    object (by reference; no entry when they are all undefined), and the
    version store. *)
Record Versioned := mkVersioned {
  world : World;
  filterVersions : gmap nat VersionInfo.t;
  filtersVersion : gmap Z VersionInfo.t     (* filtersState.getFiltersVersion() *)
}.

(** [filter.enabled = stateInfo.enabled; filter.installed = ...;
    filter.loaded = ...] *)
Definition withStateInfo (stateInfo : StateInfo.t) (f : Filter.t) : Filter.t :=
  Filter.mk (Filter.filterId f) (Filter.groupId f) (Filter.tags f)
            (Filter.languages f) (Filter.customUrl f)
            (StateInfo.enabled stateInfo) (StateInfo.installed stateInfo)
            (StateInfo.loaded stateInfo) (Filter.removed f) (Filter.tagsDetails f).

Module Manager.

(** The body of the [for] loop of the manager's [getFilters] for the filter
    object [i]. *)
Definition refreshFilter (v : Versioned) (i : nat) : Versioned :=
  match filters (world v) !! i with
  | None => v
  | Some filter =>
      let filterId := Filter.filterId filter in
      let versions :=
        match filtersVersion v !! filterId with
        | Some versionInfo => <[i := versionInfo]> (filterVersions v)
        | None => filterVersions v
        end in
      let w :=
        match filtersState (world v) !! filterId with
        | Some stateInfo => putFilter i (withStateInfo stateInfo filter) (world v)
        | None => world v
        end in
      mkVersioned w versions (filtersVersion v)
  end.

(** The manager's [getFilters]: the state after the loop and the returned
    array, as references. *)
Definition getFilters (v : Versioned) : Versioned * list nat :=
  let refs := seq 0 (length (filters (world v))) in
  (foldl refreshFilter v refs, refs).

(** The body of the [for] loop of [getGroups] for the group object [i]. *)
Definition refreshGroup (w : World) (i : nat) : World :=
  match groups w !! i with
  | None => w
  | Some group =>
      match groupsState w !! Group.groupId group with
      | Some enabled => putGroup i (Group.setEnabled enabled group) w
      | None => w
      end
  end.

Definition getGroups (w : World) : World :=
  foldl refreshGroup w (seq 0 (length (groups w))).

End Manager.

Section ByGroupId.

Variable SAFARI_FILTER_ID : Z.
Variable isRecommendedFilter : Filter.t -> bool.
Variable isMobileFilter : Filter.t -> bool.
Variable userAgent : option string.
Variable getFilterIdsForLanguage : list Filter.t -> list Z.

Definition addAndEnableFiltersByGroupId (groupId : Z) (w : World) : Result :=
  let '(w1, idsByTagId) :=
    getRecommendedFilterIdsByGroupId SAFARI_FILTER_ID isRecommendedFilter isMobileFilter
                                     userAgent getFilterIdsForLanguage groupId w in
  addAndEnableFilters idsByTagId w1.

Definition disableAntiBannerFiltersByGroupId (groupId : Z) (w : World) : World :=
  let '(w1, idsByTagId) :=
    getRecommendedFilterIdsByGroupId SAFARI_FILTER_ID isRecommendedFilter isMobileFilter
                                     userAgent getFilterIdsForLanguage groupId w in
  disableFilters idsByTagId w1.

End ByGroupId.

(** * Vocabulary of the properties *)

(** An event of kind [FILTER_ENABLE_DISABLE]. *)
Definition isEnableDisable (e : Event) : bool :=
  match e with FILTER_ENABLE_DISABLE _ => true | _ => false end.

(** An event of kind [FILTER_GROUP_ENABLE_DISABLE] about the group [groupId]. *)
Definition isGroupEventOf (groupId : Z) (e : Event) : bool :=
  match e with
  | FILTER_GROUP_ENABLE_DISABLE g => Group.groupId g =? groupId
  | _ => false
  end.

(** The number of emitted events that satisfy [p]. *)
Definition countEvents (p : Event → bool) (w : World) : nat :=
  length (List.filter p (notifications w)).

(** [Frame S w w']: no filter leaves the catalog, and outside the ids in [S]
    both the filter objects and their entries in the state store are the
    same in [w'] as in [w]. *)
Definition Frame (S : Z → Prop) (w w' : World) : Prop :=
  (∀ id, is_Some (getFilter id w) → is_Some (getFilter id w')) ∧
  (∀ id, ¬ S id →
         getFilterRef id w' = getFilterRef id w ∧
         filtersState w' !! id = filtersState w !! id).

(** The world in which [enableFilter] notifies about the filter. *)
Definition implicitGroupEnable (groupId : Z) (w : World) : World :=
  if negb (groupHasEnabledStatus groupId w) then enableGroup groupId w else w.

(** A catalog with one filter that the state store already reports as
    enabled. *)
Definition worldFilterEnabled : World :=
  mkWorld [Filter.mk 7 1 [] [] None (Some true) (Some true) None None []]
          [Group.mk 1 (Some true) None] []
          {[ 7 := StateInfo.mk None (Some true) (Some true) ]} ∅ [] [] [].

(** An event that reports a filter as disabled. *)
Definition disabledEventOf (filterId : Z) (e : Event) : Prop :=
  ∃ f, e = FILTER_ENABLE_DISABLE f ∧ Filter.filterId f = filterId ∧
       Filter.enabled f = Some false.

(** The filter needs [loadFilterRules]: it is neither installed nor loaded. *)
Definition needsLoad (w : World) (filterId : Z) : bool :=
  match getFilter filterId w with
  | Some f => negb (truthy (Filter.installed f)) && negb (truthy (Filter.loaded f))
  | None => false
  end.

(** The filter needs no load, or the loader's verdict for it is success. *)
Definition getsInstalled (outcome : Z → bool) (filterId : Z) (w : World) : bool :=
  match getFilter filterId w with
  | Some f => truthy (Filter.installed f) || truthy (Filter.loaded f) || outcome filterId
  | None => false
  end.

(** The world in which the loader has been handed the load of [filterId],
    with [queue] waiting behind it. *)
Definition loadStarted (ref : nat) (filterId : Z) (queue : list Z) (w : World) : World :=
  withInflight (inflight w ++ [mkPending ref filterId queue])
               (withLoaderCalls (loaderCalls w ++ [filterId]) w).

(** A step that the caller takes between the return of the batch's call and
    the loader's callbacks, and that leaves the filters, their state store
    and the loader alone. *)
Definition Neutral (h : World → World) : Prop :=
  ∀ w, filters (h w) = filters w ∧ filtersState (h w) = filtersState w ∧
       inflight (h w) = inflight w ∧ loaderCalls (h w) = loaderCalls w.

(** The caller's step [h], then the loader's answers. *)
Definition settleVia (h : World → World) (outcome : Z → bool) (fuel : nat)
           (w : World) : Result :=
  settle outcome fuel (h w).


(** The [installed] flag of the filter of the catalog with that id, as a
    truth value. *)
Definition isInstalled (filterId : Z) (w : World) : bool :=
  match getFilter filterId w with
  | Some f => truthy (Filter.installed f)
  | None => false
  end.

(** Lets the loader answer the loads of a batch that was started when [n]
    loads were in flight: the loads of the batch queue up behind those, which
    stay in flight. *)
Fixpoint settleBehind (n : nat) (outcome : Z → bool) (fuel : nat) (w : World) : Result :=
  match fuel with
  | O => Ok w
  | S fuel' =>
      match inflight w !! n with
      | None => Ok w
      | Some p =>
          loaderCallback n (outcome (pendingFilterId p)) w >>> settleBehind n outcome fuel'
      end
  end.

(** The caller's step [h], then the loader's answers to the batch. *)
Definition settleViaBehind (n : nat) (h : World → World) (outcome : Z → bool) (fuel : nat)
           (w : World) : Result :=
  settleBehind n outcome fuel (h w).



(** A catalog with an installed filter (1) and two filters that need a load
    (2 and 3), in a group that was never toggled. *)
Definition worldBatch : World :=
  mkWorld [Filter.mk 1 1 [10] [] None None (Some true) None None [];
           Filter.mk 2 1 [10] [] None None None None None [];
           Filter.mk 3 1 [] [] None None None None None []]
          [Group.mk 1 None None] [Tag.mk 10 "recommended"] ∅ ∅ [] [] [].

(** The keywords shown for a filter: those of the tag objects that its
    [tagsDetails] refers to. *)
Definition displayedKeywords (filterId : Z) (w : World) : list string :=
  match getFilter filterId w with
  | Some f => omap (λ ref, Tag.keyword <$> tags w !! ref) (Filter.tagsDetails f)
  | None => []
  end.

(** Two visible filters that carry the same tag, whose keyword has two
    prefixes. *)
Definition worldSharedTag : World :=
  mkWorld [Filter.mk 1 1 [5] [] None None None None None [];
           Filter.mk 2 1 [5] [] None None None None None []]
          [Group.mk 1 None None] [Tag.mk 5 "purpose:ads:banners"] ∅ ∅ [] [] [].

(** Two filter objects that differ at most in their [tagsDetails]. *)
Definition sameButTagsDetails (f f' : Filter.t) : Prop :=
  f' = Filter.setTagsDetails (Filter.tagsDetails f') f.

(** Two group objects that differ at most in their [filters] property. *)
Definition sameButMembers (g g' : Group.t) : Prop :=
  Group.groupId g' = Group.groupId g ∧ Group.enabled g' = Group.enabled g.

(** The category selector writes [tagsDetails] on filters and [filters] on
    groups, and nothing else. *)
Record CatalogView (w w' : World) : Prop := mkCatalogView {
  view_filters : Forall2 sameButTagsDetails (filters w) (filters w');
  view_groups : Forall2 sameButMembers (groups w) (groups w');
  view_filtersState : filtersState w' = filtersState w;
  view_notifications : notifications w' = notifications w;
  view_loaderCalls : loaderCalls w' = loaderCalls w;
  view_inflight : inflight w' = inflight w
}.

(** The [enabled] property of a group, if the group exists. *)
Definition groupFlag (groupId : Z) (w : World) : option Flag :=
  Group.enabled <$> getGroup groupId w.

(** The number of [FILTER_GROUP_ENABLE_DISABLE] events about the group. *)
Definition groupEvents (groupId : Z) (w : World) : nat :=
  countEvents (isGroupEventOf groupId) w.

(** Between [w] and [w'] the group either kept its [enabled] property and
    got no event, or went from never toggled to enabled with exactly one
    [FILTER_GROUP_ENABLE_DISABLE]. *)
Definition GroupMono (groupId : Z) (w w' : World) : Prop :=
  (groupFlag groupId w' = groupFlag groupId w ∧
   groupEvents groupId w' = groupEvents groupId w) ∨
  (groupFlag groupId w = Some None ∧
   groupFlag groupId w' = Some (Some true) ∧
   groupEvents groupId w' = S (groupEvents groupId w)).

(** A group whose only filter is the platform filter, without the
    recommended tag (tag id 10). *)
Definition worldPlatformFilter : World :=
  mkWorld [Filter.mk 12 1 [] [] None None None None None []]
          [Group.mk 1 None None] [Tag.mk 10 "recommended"] ∅ ∅ [] [] [].

(** [filter.tags.includes(tagId)], the shape of the tag service's predicates. *)
Definition hasTag (tagId : Z) (f : Filter.t) : bool :=
  bool_decide (tagId ∈ Filter.tags f).

(** A catalog in which the filters 1 and 3 are enabled and 2 is not. *)
Definition worldTwoEnabled : World :=
  mkWorld [Filter.mk 1 1 [] [] None (Some true) (Some true) None None [];
           Filter.mk 2 1 [] [] None None (Some true) None None [];
           Filter.mk 3 1 [] [] None (Some true) (Some true) None None []]
          [Group.mk 1 (Some true) None] []
          {[ 1 := StateInfo.mk None (Some true) (Some true);
             3 := StateInfo.mk None (Some true) (Some true) ]} ∅ [] [] [].

(** ** Vocabulary of the further properties *)

(** A keyword that hides its tag, and a keyword that is kept verbatim. *)
Definition hiddenKeyword (keyword : string) : bool := startsWith keyword "reference:".

Definition verbatimKeyword (keyword : string) : bool := startsWith keyword "lang:".

(** [keyword.substring(keyword.indexOf(':') + 1)] *)
Definition stripPrefix (keyword : string) : string :=
  substringFrom keyword (indexOf keyword ":" + 1).

(** The tag store [T] against the store [T0] at the start of the listing:
    same tag ids, and the tags with a [reference:] or [lang:] keyword are
    untouched. *)
Definition TagsKept (T0 T : list Tag.t) : Prop :=
  Forall2 (λ t0 t, Tag.tagId t = Tag.tagId t0 ∧
                   (hiddenKeyword (Tag.keyword t0) || verbatimKeyword (Tag.keyword t0) = true →
                    t = t0)) T0 T.

(** No reference of [tagsDetails] is to a tag that had a [reference:]
    keyword at the start. *)
Definition NoneHidden (T0 : list Tag.t) (tagsDetails : list nat) : Prop :=
  ∀ r, r ∈ tagsDetails →
       ∃ t0, T0 !! r = Some t0 ∧ hiddenKeyword (Tag.keyword t0) = false.

(** The keyword that the listing is meant to show. *)
Definition displayKeyword (keyword : string) : string :=
  if verbatimKeyword keyword then keyword else stripPrefix keyword.

(** The keyword has one prefix at most: it is hidden or kept verbatim, or
    what follows its first [:] neither starts with [reference:] or [lang:]
    nor changes when it is stripped again. *)
Definition SinglePrefix (keyword : string) : Prop :=
  hiddenKeyword keyword = true ∨ verbatimKeyword keyword = true ∨
  (hiddenKeyword (stripPrefix keyword) = false ∧
   verbatimKeyword (stripPrefix keyword) = false ∧
   stripPrefix (stripPrefix keyword) = stripPrefix keyword).

(** The tag objects that [tagsDetails] is meant to refer to, and the
    keywords meant to be shown, for the tag ids [tagIds] of a filter. *)
Definition expectedRefs (T0 : list Tag.t) (tagIds : list Z) : list nat :=
  omap (λ tagId, match list_find (λ tag, Tag.tagId tag = tagId) T0 with
                 | Some (r, t0) => if hiddenKeyword (Tag.keyword t0) then None else Some r
                 | None => None
                 end) tagIds.

Definition shownKeywords (T0 : list Tag.t) (tagIds : list Z) : list string :=
  omap (λ tagId, match list_find (λ tag, Tag.tagId tag = tagId) T0 with
                 | Some (_, t0) => if hiddenKeyword (Tag.keyword t0) then None
                                   else Some (displayKeyword (Tag.keyword t0))
                 | None => None
                 end) tagIds.

(** Every tag of [T] has its keyword of [T0] or the keyword to show. *)
Definition TagsShown (T0 T : list Tag.t) : Prop :=
  Forall2 (λ t0 t, Tag.tagId t = Tag.tagId t0 ∧
                   (Tag.keyword t = Tag.keyword t0 ∨
                    (hiddenKeyword (Tag.keyword t0) = false ∧
                     Tag.keyword t = displayKeyword (Tag.keyword t0)))) T0 T.

(** The tag [r] carries the keyword to show. *)
Definition Displayed (T0 T : list Tag.t) (r : nat) : Prop :=
  ∃ t0 t, T0 !! r = Some t0 ∧ T !! r = Some t ∧
          hiddenKeyword (Tag.keyword t0) = false ∧
          Tag.keyword t = displayKeyword (Tag.keyword t0).

(** A tag catalog with a hidden, a verbatim, a prefixed and a plain
    keyword, and a filter that carries them and an unknown tag id. *)
Definition worldTags : World :=
  mkWorld [Filter.mk 1 1 [1; 2; 3; 9; 4] [] None None None None None [];
           Filter.mk 2 1 [3; 2] [] None None None None None []]
          [Group.mk 1 None None]
          [Tag.mk 1 "reference:101"; Tag.mk 2 "lang:en"; Tag.mk 3 "purpose:ads";
           Tag.mk 4 "recommended"] ∅ ∅ [] [] [].

(** A catalog whose only group has been disabled by the user. *)
Definition worldGroupOff : World :=
  mkWorld [Filter.mk 1 1 [10] [] None None None None None []]
          [Group.mk 1 (Some false) None] [Tag.mk 10 "recommended"] ∅
          {[ 1 := Some false ]} [] [] [].

(** A catalog with one custom filter, installed and enabled. *)
Definition worldCustom : World :=
  mkWorld [Filter.mk 1000 0 [] [] (Some "https://example.org/list.txt")
                     (Some true) (Some true) (Some true) None []]
          [Group.mk 0 (Some true) None] []
          {[ 1000 := StateInfo.mk (Some true) (Some true) (Some true) ]}
          {[ 0 := Some true ]} [] [] [].

(** A catalog with an installed filter (1) and a filter that is loaded but not
    installed (2), and a load of an earlier batch in flight. *)
Definition worldNoLoads : World :=
  mkWorld [Filter.mk 1 1 [] [] None None (Some true) None None [];
           Filter.mk 2 1 [] [] None None None (Some true) None [];
           Filter.mk 3 1 [] [] None None None None None []]
          [Group.mk 1 (Some true) None] [] ∅ ∅ [] [3] [mkPending 2 3 []].

(** What [getGroups] makes of a group object, given the store. *)
Definition restoredGroup (store : gmap Z Flag) (g : Group.t) : Group.t :=
  match store !! Group.groupId g with
  | Some enabled => Group.setEnabled enabled g
  | None => g
  end.

(** A catalog after a restart: the group object has no [enabled] flag, the
    store remembers that the user disabled the group. *)
Definition worldRestart : World :=
  mkWorld [Filter.mk 1 1 [10] [] None None None None None []]
          [Group.mk 1 None None] [Tag.mk 10 "recommended"] ∅
          {[ 1 := Some false ]} [] [] [].

(** What the manager's [getFilters] makes of a filter object, given the
    state store. *)
Definition restoredFilter (store : gmap Z StateInfo.t) (f : Filter.t) : Filter.t :=
  match store !! Filter.filterId f with
  | Some stateInfo => withStateInfo stateInfo f
  | None => f
  end.

(** The version properties that the manager's [getFilters] leaves on the
    filter object [i]. *)
Definition restoredVersion (v : Versioned) (i : nat) : option VersionInfo.t :=
  match filters (world v) !! i with
  | Some f =>
      match filtersVersion v !! Filter.filterId f with
      | Some versionInfo => Some versionInfo
      | None => filterVersions v !! i
      end
  | None => filterVersions v !! i
  end.

(** The in-memory flags of the filter are those of its store entry, if it
    has one. *)
Definition Synced (filterId : Z) (w : World) : Prop :=
  ∀ f stateInfo,
    getFilter filterId w = Some f →
    filtersState w !! filterId = Some stateInfo →
    stateInfo = StateInfo.mk (Filter.loaded f) (Filter.enabled f) (Filter.installed f).

(** A catalog after a restart: the filter object carries no flags yet, the
    store remembers the filter as loaded, enabled and installed. *)
Definition worldStale : World :=
  mkWorld [Filter.mk 7 1 [] [] None None None None None []]
          [Group.mk 1 None None] []
          {[ 7 := StateInfo.mk (Some true) (Some true) (Some true) ]} ∅ [] [] [].

(** * Properties *)

(** ** Lookups in an object store *)

Section ListFind.
Context {A : Type} (P : A → Prop) `{!∀ x, Decision (P x)}.

Lemma list_find_insert_found (l : list A) i x y :
  list_find P l = Some (i, x) → P y → list_find P (<[i:=y]> l) = Some (i, y).
Proof.
  intros Hfind Hy. apply list_find_Some in Hfind as (Hi & _ & Hmin).
  apply list_find_Some. split_and!; [|done|].
  - apply list_lookup_insert_eq. by eapply lookup_lt_Some.
  - intros j z Hj Hlt. rewrite list_lookup_insert_ne in Hj by lia. eauto.
Qed.

Lemma list_find_insert_skip (l : list A) i x y :
  l !! i = Some x → ¬ P x → ¬ P y → list_find P (<[i:=y]> l) = list_find P l.
Proof.
  intros Hi Hx Hy. destruct (list_find P l) as [[j z]|] eqn:Hfind.
  - apply list_find_Some in Hfind as (Hj & Hz & Hmin).
    assert (i ≠ j) by (intros ->; congruence).
    apply list_find_Some. split_and!; [|done|].
    + by rewrite list_lookup_insert_ne.
    + intros k u Hk Hlt. destruct (decide (i = k)) as [->|].
      * rewrite list_lookup_insert_eq in Hk by (by eapply lookup_lt_Some).
        by simplify_eq.
      * rewrite list_lookup_insert_ne in Hk by done. eauto.
  - apply list_find_None. apply list_find_None in Hfind.
    apply Forall_insert; done.
Qed.
End ListFind.

Lemma getFilterRef_Some filterId w ref f :
  getFilterRef filterId w = Some (ref, f) →
  filters w !! ref = Some f ∧ Filter.filterId f = filterId.
Proof. intros H. apply list_find_Some in H as (? & ? & _). done. Qed.

Lemma getFilter_Some filterId w f :
  getFilter filterId w = Some f → ∃ ref, getFilterRef filterId w = Some (ref, f).
Proof.
  unfold getFilter. destruct (getFilterRef filterId w) as [[ref f']|]; [|done].
  intros [= ->]. eauto.
Qed.

Lemma getFilterRef_getFilter filterId w ref f :
  getFilterRef filterId w = Some (ref, f) → getFilter filterId w = Some f.
Proof. unfold getFilter. by intros ->. Qed.

Lemma getFilterRef_putFilter_same filterId w ref f f' :
  getFilterRef filterId w = Some (ref, f) →
  Filter.filterId f' = filterId →
  getFilterRef filterId (putFilter ref f' w) = Some (ref, f').
Proof. intros Hf Hid. unfold getFilterRef, putFilter. simpl. by eapply list_find_insert_found. Qed.

Lemma getFilterRef_putFilter_other filterId filterId' w ref f f' :
  filters w !! ref = Some f →
  Filter.filterId f = filterId →
  Filter.filterId f' = filterId →
  filterId' ≠ filterId →
  getFilterRef filterId' (putFilter ref f' w) = getFilterRef filterId' w.
Proof.
  intros Hf Hid Hid' Hne. unfold getFilterRef, putFilter. simpl.
  eapply list_find_insert_skip; [done|congruence..].
Qed.

Lemma getGroupRef_Some groupId w ref g :
  getGroupRef groupId w = Some (ref, g) →
  groups w !! ref = Some g ∧ Group.groupId g = groupId.
Proof. intros H. apply list_find_Some in H as (? & ? & _). done. Qed.

Lemma getGroupRef_putGroup_same groupId w ref g g' :
  getGroupRef groupId w = Some (ref, g) →
  Group.groupId g' = groupId →
  getGroupRef groupId (putGroup ref g' w) = Some (ref, g').
Proof. intros Hf Hid. unfold getGroupRef, putGroup. simpl. by eapply list_find_insert_found. Qed.

Lemma getGroupRef_putGroup_other groupId groupId' w ref g g' :
  groups w !! ref = Some g →
  Group.groupId g = groupId →
  Group.groupId g' = groupId →
  groupId' ≠ groupId →
  getGroupRef groupId' (putGroup ref g' w) = getGroupRef groupId' w.
Proof.
  intros Hf Hid Hid' Hne. unfold getGroupRef, putGroup. simpl.
  eapply list_find_insert_skip; [done|congruence..].
Qed.

(** ** The recommendation predicate *)

(** C4: [isOfferedFilter] answers [true] for the filter whose id is the
    platform filter id, whatever its tags, its languages, the list of
    language-suitable ids and the outcome of the mobile check. *)
Theorem isOfferedFilter_platform_filter
        (isRecommendedFilter isMobileFilter : Filter.t → bool)
        (userAgent : option string)
        (filter : Filter.t) (langSuitableFilterIds : list Z) (platformFilterId : Z) :
  Filter.filterId filter = platformFilterId →
  isOfferedFilter isRecommendedFilter isMobileFilter userAgent
                  filter langSuitableFilterIds platformFilterId = true.
Proof. intros <-. unfold isOfferedFilter. by rewrite Z.eqb_refl. Qed.

(** ** Effects of the notification bus and of group toggling *)

Lemma filters_notifyListeners e w : filters (notifyListeners e w) = filters w.
Proof. by destruct e. Qed.

Lemma groups_notifyListeners e w : groups (notifyListeners e w) = groups w.
Proof. by destruct e. Qed.

Lemma inflight_notifyListeners e w : inflight (notifyListeners e w) = inflight w.
Proof. by destruct e. Qed.

Lemma loaderCalls_notifyListeners e w : loaderCalls (notifyListeners e w) = loaderCalls w.
Proof. by destruct e. Qed.

Lemma notifications_notifyListeners e w :
  notifications (notifyListeners e w) = notifications w ++ [e].
Proof. by destruct e. Qed.

Lemma getFilterRef_notifyListeners filterId e w :
  getFilterRef filterId (notifyListeners e w) = getFilterRef filterId w.
Proof. unfold getFilterRef. by rewrite filters_notifyListeners. Qed.

Lemma getGroupRef_notifyListeners groupId e w :
  getGroupRef groupId (notifyListeners e w) = getGroupRef groupId w.
Proof. unfold getGroupRef. by rewrite groups_notifyListeners. Qed.

Lemma filtersState_notify_group g w :
  filtersState (notifyListeners (FILTER_GROUP_ENABLE_DISABLE g) w) = filtersState w.
Proof. done. Qed.

Lemma filters_enableGroup groupId w : filters (enableGroup groupId w) = filters w.
Proof.
  unfold enableGroup. destruct (getGroupRef groupId w) as [[ref g]|]; [|done].
  destruct (truthy (Group.enabled g)); [done|]. by rewrite filters_notifyListeners.
Qed.

Lemma filtersState_enableGroup groupId w :
  filtersState (enableGroup groupId w) = filtersState w.
Proof.
  unfold enableGroup. destruct (getGroupRef groupId w) as [[ref g]|]; [|done].
  by destruct (truthy (Group.enabled g)).
Qed.

Lemma inflight_enableGroup groupId w : inflight (enableGroup groupId w) = inflight w.
Proof.
  unfold enableGroup. destruct (getGroupRef groupId w) as [[ref g]|]; [|done].
  by destruct (truthy (Group.enabled g)).
Qed.

Lemma loaderCalls_enableGroup groupId w :
  loaderCalls (enableGroup groupId w) = loaderCalls w.
Proof.
  unfold enableGroup. destruct (getGroupRef groupId w) as [[ref g]|]; [|done].
  by destruct (truthy (Group.enabled g)).
Qed.

Lemma getFilterRef_enableGroup filterId groupId w :
  getFilterRef filterId (enableGroup groupId w) = getFilterRef filterId w.
Proof. unfold getFilterRef. by rewrite filters_enableGroup. Qed.

Lemma countEvents_notifyListeners p e w :
  countEvents p (notifyListeners e w) =
  (countEvents p w + if p e then 1 else 0)%nat.
Proof.
  unfold countEvents. rewrite notifications_notifyListeners, List.filter_app.
  rewrite length_app. simpl. by destruct (p e).
Qed.

Lemma countEnableDisable_enableGroup groupId w :
  countEvents isEnableDisable (enableGroup groupId w) = countEvents isEnableDisable w.
Proof.
  unfold enableGroup. destruct (getGroupRef groupId w) as [[ref g]|]; [|done].
  destruct (truthy (Group.enabled g)); [done|].
  rewrite countEvents_notifyListeners. simpl. unfold countEvents. simpl. lia.
Qed.

(** ** Removing a filter *)

(** C7: [removeFilter] changes nothing and emits nothing when the filter is
    absent, already removed or has no [customUrl]; otherwise it sets
    [enabled=false], [installed=false], [removed=true] on the filter and
    emits [FILTER_ENABLE_DISABLE] and then [FILTER_ADD_REMOVE]. *)
Theorem removeFilter_rejects_or_removes (filterId : Z) (w : World) :
  ((getFilter filterId w = None ∨
    ∃ f, getFilter filterId w = Some f ∧
         (truthy (Filter.removed f) = true ∨ truthyString (Filter.customUrl f) = false)) →
   removeFilter filterId w = w) ∧
  (∀ f, getFilter filterId w = Some f →
        truthy (Filter.removed f) = false →
        truthyString (Filter.customUrl f) = true →
        ∃ f', getFilter filterId (removeFilter filterId w) = Some f' ∧
              Filter.enabled f' = Some false ∧
              Filter.installed f' = Some false ∧
              Filter.removed f' = Some true ∧
              notifications (removeFilter filterId w) =
                notifications w ++ [FILTER_ENABLE_DISABLE f'; FILTER_ADD_REMOVE f']).
Proof.
  split.
  - intros [Hnone | (f & Hf & Hcase)]; unfold removeFilter.
    + unfold getFilter in Hnone.
      by destruct (getFilterRef filterId w) as [[ref f]|].
    + apply getFilter_Some in Hf as [ref ->].
      destruct Hcase as [-> | ->]; [done|]. by destruct (truthy (Filter.removed f)).
  - intros f Hf Hremoved Hcustom. apply getFilter_Some in Hf as [ref Hf].
    unfold removeFilter. rewrite Hf, Hremoved, Hcustom. cbn [negb].
    eexists. split.
    { eapply getFilterRef_getFilter.
      rewrite !getFilterRef_notifyListeners.
      eapply getFilterRef_putFilter_same; [done|].
      by apply getFilterRef_Some in Hf as [_ <-]. }
    split_and!; [reflexivity..|].
    rewrite !notifications_notifyListeners. simpl. by rewrite <- app_assoc.
Qed.

(** ** Loading a custom filter *)

(** C9: with a falsy [url], [loadCustomFilter] calls [onError] at once,
    whatever [onSuccess] and the registration are (neither is called), and
    does not throw; otherwise it delegates to the registration, whose
    callback clears the [removed] flag of the registered filter and calls
    [onSuccess] with it when a filter id is yielded, and calls [onError]
    when none is. *)
Theorem loadCustomFilter_callbacks
        (updateCustomFilter : string → (option Z → World → Result) → World → Result)
        (url : option string)
        (onSuccess : Filter.t → World → World)
        (onError : option (World → World)) (w : World) :
  let onError' := default (λ w, w) onError in
  (truthyString url = false →
   loadCustomFilter updateCustomFilter url onSuccess onError w = Ok (onError' w)) ∧
  (∀ u, url = Some u → truthyString url = true →
        loadCustomFilter updateCustomFilter url onSuccess onError w =
        updateCustomFilter u (customFilterRegistered onSuccess onError') w) ∧
  (∀ filterId ref f w1,
      filterId ≠ 0 →
      getFilterRef filterId w1 = Some (ref, f) →
      ∃ f', customFilterRegistered onSuccess onError' (Some filterId) w1 =
              Ok (onSuccess f' (putFilter ref f' w1)) ∧
            f' = Filter.setRemoved None f ∧
            getFilter filterId (putFilter ref f' w1) = Some f' ∧
            Filter.removed f' = None) ∧
  (∀ yielded w1,
      truthyNumber yielded = false →
      customFilterRegistered onSuccess onError' yielded w1 = Ok (onError' w1)).
Proof.
  intros onError'. split_and!.
  - intros Hurl. unfold loadCustomFilter. by rewrite Hurl.
  - intros u -> Hurl. unfold loadCustomFilter. by rewrite Hurl.
  - intros filterId ref f w1 Hne Hf. exists (Filter.setRemoved None f).
    split_and!; [|done| |done].
    + unfold customFilterRegistered. simpl.
      destruct (Z.eqb_spec filterId 0) as [|_]; [done|]. simpl. by rewrite Hf.
    + eapply getFilterRef_getFilter, getFilterRef_putFilter_same; [done|].
      by apply getFilterRef_Some in Hf as [_ <-].
  - intros yielded w1 Hy. unfold customFilterRegistered. by rewrite Hy.
Qed.

Lemma isOfferedFilter_platform_filter_witness :
  let filter := Filter.mk 12 1 [] ["en"] None None None None None [] in
  Filter.filterId filter = 12 ∧
  isOfferedFilter (λ _, false) (λ _, true) None filter [] 12 = true.
Proof.
  intros filter. split; [reflexivity|].
  apply (isOfferedFilter_platform_filter (λ _, false) (λ _, true) None filter [] 12).
  reflexivity.
Defined.

(** ** What an operation leaves alone *)

Lemma Frame_refl S w : Frame S w w.
Proof. by split. Qed.

Lemma Frame_trans (S1 S2 S : Z → Prop) w1 w2 w3 :
  Frame S1 w1 w2 → Frame S2 w2 w3 →
  (∀ id, S1 id → S id) → (∀ id, S2 id → S id) →
  Frame S w1 w3.
Proof.
  intros [Hp1 Hf1] [Hp2 Hf2] H1 H2. split; [by eauto|].
  intros id Hid. destruct (Hf1 id) as [<- <-]; [by eauto|].
  apply Hf2. by eauto.
Qed.

Lemma Frame_same_catalog S w w' :
  filters w' = filters w → filtersState w' = filtersState w → Frame S w w'.
Proof. intros Hf Hs. unfold Frame, getFilter, getFilterRef. by rewrite Hf, Hs. Qed.

Lemma Frame_getFilter S w w' id :
  Frame S w w' → ¬ S id → getFilter id w' = getFilter id w.
Proof. intros [_ H] Hid. unfold getFilter. by destruct (H id Hid) as [-> _]. Qed.

Lemma Frame_isFilterEnabled S w w' id :
  Frame S w w' → ¬ S id → isFilterEnabled id w' = isFilterEnabled id w.
Proof.
  intros HF Hid. unfold isFilterEnabled.
  rewrite (Frame_getFilter _ _ _ _ HF Hid). destruct HF as [_ H].
  by destruct (H id Hid) as [_ ->].
Qed.

Lemma is_Some_getFilter filterId w :
  is_Some (getFilter filterId w) → ∃ ref f, getFilterRef filterId w = Some (ref, f).
Proof. intros [f Hf]. apply getFilter_Some in Hf as [ref Hf]. eauto. Qed.

Lemma Ok_inj w w' : Ok w = Ok w' → w = w'.
Proof. by intros [= ->]. Qed.

Lemma bind_assoc r k k' : (r >>> k) >>> k' = r >>> (λ w, k w >>> k').
Proof. by destruct r. Qed.

(** Writing a filter object back under its own id and notifying about it
    touches that id only. *)
Lemma Frame_put_notify filterId ref f f' e w :
  getFilterRef filterId w = Some (ref, f) →
  Filter.filterId f' = filterId →
  e = FILTER_ENABLE_DISABLE f' ∨ e = FILTER_ADD_REMOVE f' →
  Frame (eq filterId) w (notifyListeners e (putFilter ref f' w)).
Proof.
  intros Hf Hid He. pose proof (getFilterRef_Some _ _ _ _ Hf) as [Href Hidf].
  split.
  - intros id Hsome. unfold getFilter. rewrite getFilterRef_notifyListeners.
    destruct (decide (id = filterId)) as [->|Hne].
    + by erewrite getFilterRef_putFilter_same.
    + by erewrite getFilterRef_putFilter_other.
  - intros id Hne. rewrite getFilterRef_notifyListeners.
    split; [by erewrite getFilterRef_putFilter_other|].
    destruct He as [-> | ->]; simpl; rewrite lookup_insert_ne; congruence.
Qed.

Lemma filtersState_put_notify ref f' e w :
  e = FILTER_ENABLE_DISABLE f' ∨ e = FILTER_ADD_REMOVE f' →
  filtersState (notifyListeners e (putFilter ref f' w)) !! Filter.filterId f' =
  Some (StateInfo.mk (Filter.loaded f') (Filter.enabled f') (Filter.installed f')).
Proof. intros [-> | ->]; simpl; by rewrite lookup_insert_eq. Qed.

(** ** Enabling a filter *)

Lemma isFilterEnabled_present filterId w :
  isFilterEnabled filterId w = true → is_Some (getFilter filterId w).
Proof. unfold isFilterEnabled. by destruct (getFilter filterId w). Qed.

Lemma enableFilter_unfold filterId w ref f :
  isFilterEnabled filterId w = false →
  getFilterRef filterId w = Some (ref, f) →
  enableFilter filterId w =
  Ok (notifyListeners (FILTER_ENABLE_DISABLE (Filter.setEnabled (Some true) f))
        (implicitGroupEnable (Filter.groupId f)
           (putFilter ref (Filter.setEnabled (Some true) f) w))).
Proof. intros He Hf. unfold enableFilter. by rewrite He, Hf. Qed.

Lemma filters_implicitGroupEnable g w : filters (implicitGroupEnable g w) = filters w.
Proof. unfold implicitGroupEnable. destruct (negb _); [apply filters_enableGroup|done]. Qed.

Lemma filtersState_implicitGroupEnable g w :
  filtersState (implicitGroupEnable g w) = filtersState w.
Proof. unfold implicitGroupEnable. destruct (negb _); [apply filtersState_enableGroup|done]. Qed.

Lemma inflight_implicitGroupEnable g w : inflight (implicitGroupEnable g w) = inflight w.
Proof. unfold implicitGroupEnable. destruct (negb _); [apply inflight_enableGroup|done]. Qed.

Lemma loaderCalls_implicitGroupEnable g w :
  loaderCalls (implicitGroupEnable g w) = loaderCalls w.
Proof. unfold implicitGroupEnable. destruct (negb _); [apply loaderCalls_enableGroup|done]. Qed.

Lemma countEnableDisable_implicitGroupEnable g w :
  countEvents isEnableDisable (implicitGroupEnable g w) = countEvents isEnableDisable w.
Proof.
  unfold implicitGroupEnable. destruct (negb _); [apply countEnableDisable_enableGroup|done].
Qed.

(** The notification of [enableFilter] commutes with the group toggle as far
    as the filters and their store are concerned. *)
Lemma notify_after_group_filters e g w :
  filters (notifyListeners e (implicitGroupEnable g w)) = filters w.
Proof. by rewrite filters_notifyListeners, filters_implicitGroupEnable. Qed.

Lemma enableFilter_spec filterId w :
  is_Some (getFilter filterId w) →
  ∃ w', enableFilter filterId w = Ok w' ∧
        isFilterEnabled filterId w' = true ∧
        Frame (eq filterId) w w' ∧
        inflight w' = inflight w ∧
        loaderCalls w' = loaderCalls w.
Proof.
  intros Hsome. destruct (isFilterEnabled filterId w) eqn:He.
  { exists w. unfold enableFilter. rewrite He. split_and!; first [done | apply Frame_refl]. }
  destruct (is_Some_getFilter _ _ Hsome) as (ref & f & Hf).
  pose proof (getFilterRef_Some _ _ _ _ Hf) as [Href Hid].
  rewrite (enableFilter_unfold _ _ _ _ He Hf). eexists. split; [done|].
  set (f' := Filter.setEnabled (Some true) f).
  assert (Hid' : Filter.filterId f' = filterId) by done.
  assert (Hfind : ∀ id g, getFilterRef id
            (notifyListeners (FILTER_ENABLE_DISABLE f')
               (implicitGroupEnable g (putFilter ref f' w))) =
            getFilterRef id (putFilter ref f' w)).
  { intros id g. unfold getFilterRef. by rewrite notify_after_group_filters. }
  assert (Hstate : ∀ g, filtersState
            (notifyListeners (FILTER_ENABLE_DISABLE f')
               (implicitGroupEnable g (putFilter ref f' w))) =
            <[filterId := StateInfo.mk (Filter.loaded f') (Filter.enabled f')
                                       (Filter.installed f')]> (filtersState w)).
  { intros g. simpl. by rewrite filtersState_implicitGroupEnable, Hid. }
  split_and!.
  - unfold isFilterEnabled, getFilter. rewrite Hfind, Hstate.
    erewrite getFilterRef_putFilter_same by done. simpl.
    by rewrite lookup_insert_eq.
  - split.
    + intros id Hs. unfold getFilter. rewrite Hfind.
      destruct (decide (id = filterId)) as [->|Hne].
      * by erewrite getFilterRef_putFilter_same.
      * by erewrite getFilterRef_putFilter_other.
    + intros id Hne. rewrite Hfind, Hstate. split.
      * by erewrite getFilterRef_putFilter_other.
      * by rewrite lookup_insert_ne.
  - by rewrite inflight_notifyListeners, inflight_implicitGroupEnable.
  - by rewrite loaderCalls_notifyListeners, loaderCalls_implicitGroupEnable.
Qed.

(** C8 (as amended): for a filter of the catalog that the state store does
    not report as enabled, the first [enableFilter] sets [enabled=true] and
    emits one [FILTER_ENABLE_DISABLE]; the store records the flag on that
    event, so a second call finds the filter enabled and returns in the
    same state: no flag changes, nothing is emitted.  For a filter that the
    state store reports as enabled already, both calls return in the state
    they found: no flag changes and no event is emitted. *)
Theorem enableFilter_twice_emits_once (filterId : Z) (w : World) :
  is_Some (getFilter filterId w) →
  (isFilterEnabled filterId w = false →
   ∃ w1, enableFilter filterId w = Ok w1 ∧
         Filter.enabled <$> getFilter filterId w1 = Some (Some true) ∧
         countEvents isEnableDisable w1 = S (countEvents isEnableDisable w) ∧
         enableFilter filterId w1 = Ok w1) ∧
  (isFilterEnabled filterId w = true →
   enableFilter filterId w = Ok w ∧
   enableFilter filterId w >>> enableFilter filterId = Ok w).
Proof.
  intros Hsome. split.
  - intros He. destruct (is_Some_getFilter _ _ Hsome) as (ref & f & Hf).
    destruct (enableFilter_spec _ _ Hsome) as (w1 & Hw1 & He1 & _).
    exists w1. split; [done|].
    rewrite (enableFilter_unfold _ _ _ _ He Hf) in Hw1. apply Ok_inj in Hw1.
    split_and!.
    + subst w1. unfold getFilter, getFilterRef. rewrite notify_after_group_filters.
      fold (getFilterRef filterId (putFilter ref (Filter.setEnabled (Some true) f) w)).
      erewrite getFilterRef_putFilter_same; [done|done|].
      by apply getFilterRef_Some in Hf as [_ <-].
    + subst w1.
      rewrite countEvents_notifyListeners, countEnableDisable_implicitGroupEnable.
      simpl. unfold countEvents. simpl. lia.
    + unfold enableFilter. by rewrite He1.
  - intros He.
    assert (Hcall : enableFilter filterId w = Ok w) by (unfold enableFilter; by rewrite He).
    split; [done|]. rewrite Hcall. done.
Qed.

Lemma enableFilter_twice_emits_once_witness :
  (∃ w1, enableFilter 7 (withFiltersState ∅ worldFilterEnabled) = Ok w1 ∧
         Filter.enabled <$> getFilter 7 w1 = Some (Some true) ∧
         countEvents isEnableDisable w1 =
           S (countEvents isEnableDisable (withFiltersState ∅ worldFilterEnabled)) ∧
         enableFilter 7 w1 = Ok w1) ∧
  (enableFilter 7 worldFilterEnabled = Ok worldFilterEnabled ∧
   enableFilter 7 worldFilterEnabled >>> enableFilter 7 = Ok worldFilterEnabled).
Proof.
  split.
  - apply (enableFilter_twice_emits_once 7 (withFiltersState ∅ worldFilterEnabled));
      [by eexists|reflexivity].
  - apply (enableFilter_twice_emits_once 7 worldFilterEnabled); [by eexists|reflexivity].
Defined.

(** C8 fails as stated: the filter 7 is in the catalog, yet two calls of
    [enableFilter] in a row emit no [FILTER_ENABLE_DISABLE] at all, because
    the state store already reports the filter as enabled. *)
Lemma enableFilter_twice_emits_nothing_when_enabled :
  is_Some (getFilter 7 worldFilterEnabled) ∧
  ∃ w2, enableFilter 7 worldFilterEnabled >>> enableFilter 7 = Ok w2 ∧
        countEvents isEnableDisable w2 = countEvents isEnableDisable worldFilterEnabled ∧
        countEvents isEnableDisable w2 ≠ S (countEvents isEnableDisable worldFilterEnabled).
Proof.
  split; [by eexists|]. exists worldFilterEnabled. split_and!; [reflexivity|reflexivity|].
  by vm_compute.
Qed.

(** ** Deduplication *)

Lemma removeDuplicates_elem x l : x ∈ removeDuplicates l ↔ x ∈ l.
Proof.
  induction l as [|y l IH]; simpl; [done|].
  rewrite !elem_of_cons, list_elem_of_In, List.filter_In, <- list_elem_of_In, IH.
  destruct (Z.eqb_spec x y); simpl; intuition congruence.
Qed.

Lemma removeDuplicates_NoDup l : NoDup (removeDuplicates l).
Proof.
  induction l as [|y l IH]; simpl; [constructor|].
  apply NoDup_cons. split.
  - rewrite list_elem_of_In, List.filter_In, Z.eqb_refl. simpl. by intros [_ ?].
  - apply NoDup_ListNoDup, List.NoDup_filter. by apply NoDup_ListNoDup.
Qed.

(** ** Disabling filters *)

Arguments notifyListeners : simpl never.
Arguments putFilter : simpl never.

Lemma disableLoop_spec (queue : list Z) :
  NoDup queue →
  ∀ w, ∃ done rest events,
    queue = done ++ rest ∧
    (∀ id, id ∈ done → isFilterEnabled id w = true) ∧
    (∀ id, head rest = Some id → isFilterEnabled id w = false) ∧
    (∀ id, id ∈ done →
           Filter.enabled <$> getFilter id (disableLoop queue w) = Some (Some false)) ∧
    Frame (λ id, id ∈ done) w (disableLoop queue w) ∧
    notifications (disableLoop queue w) = notifications w ++ events ∧
    Forall2 disabledEventOf done events.
Proof.
  induction queue as [|x queue IH]; intros Hnd w.
  { exists [], [], []. simpl. rewrite app_nil_r.
    split_and!; try done; try (by intros ? ?%elem_of_nil); apply Frame_refl. }
  apply NoDup_cons in Hnd as [Hx Hnd]. simpl.
  destruct (isFilterEnabled x w) eqn:He; simpl.
  2: { exists [], (x :: queue), []. simpl. rewrite app_nil_r.
       split_and!; try done; try (by intros ? ?%elem_of_nil);
         try (by intros id [= <-]); apply Frame_refl. }
  destruct (is_Some_getFilter _ _ (isFilterEnabled_present _ _ He)) as (ref & f & Hf).
  rewrite Hf. set (f' := Filter.setEnabled (Some false) f).
  set (w1 := notifyListeners (FILTER_ENABLE_DISABLE f') (putFilter ref f' w)).
  assert (Hid : Filter.filterId f' = x) by (by apply getFilterRef_Some in Hf as [_ <-]).
  assert (HF1 : Frame (eq x) w w1) by (eapply Frame_put_notify; eauto).
  assert (Hx1 : getFilter x w1 = Some f').
  { eapply getFilterRef_getFilter. unfold w1. rewrite getFilterRef_notifyListeners.
    by eapply getFilterRef_putFilter_same. }
  destruct (IH Hnd w1) as (done & rest & events & -> & Hen & Hhd & Hdis & HF & Hnot & Hev).
  assert (Hxd : x ∉ done) by (intros ?; apply Hx, elem_of_app; by left).
  exists (x :: done), rest, (FILTER_ENABLE_DISABLE f' :: events). split_and!.
  - done.
  - intros id [->|Hid']%elem_of_cons; [done|].
    rewrite <- (Hen id Hid'). symmetry. eapply Frame_isFilterEnabled; [done|].
    intros <-. done.
  - intros id Hid'. rewrite <- (Hhd id Hid'). symmetry.
    eapply Frame_isFilterEnabled; [done|]. intros <-. apply Hx, elem_of_app. right.
    destruct rest; simplify_eq/=. apply elem_of_cons. by left.
  - intros id [->|Hid']%elem_of_cons; [|by apply Hdis].
    by rewrite (Frame_getFilter _ _ _ _ HF Hxd), Hx1.
  - eapply Frame_trans; [exact HF1|exact HF|..].
    + intros id <-. apply elem_of_cons. by left.
    + intros id ?. apply elem_of_cons. by right.
  - rewrite Hnot. unfold w1. rewrite notifications_notifyListeners. simpl.
    by rewrite <- app_assoc.
  - constructor; [|done]. by exists f'.
Qed.

(** C3: [disableFilters] walks the deduplicated ids from left to right.  The
    ids before the first one that is not enabled ([done]) get
    [enabled=false] and one [FILTER_ENABLE_DISABLE] each, in order; at the
    first id that is not enabled the function returns: no other filter
    (in particular none of the later ids, [rest]) changes, in the catalog
    or in the state store, and no other event is emitted. *)
Theorem disableFilters_stops_at_first_not_enabled (filterIds : list Z) (w : World) :
  ∃ done rest events,
    removeDuplicates filterIds = done ++ rest ∧
    (∀ id, id ∈ done → isFilterEnabled id w = true) ∧
    (∀ id, head rest = Some id → isFilterEnabled id w = false) ∧
    (∀ id, id ∈ done →
           Filter.enabled <$> getFilter id (disableFilters filterIds w) = Some (Some false)) ∧
    (∀ id, id ∈ rest →
           getFilter id (disableFilters filterIds w) = getFilter id w ∧
           isFilterEnabled id (disableFilters filterIds w) = isFilterEnabled id w) ∧
    Frame (λ id, id ∈ done) w (disableFilters filterIds w) ∧
    notifications (disableFilters filterIds w) = notifications w ++ events ∧
    Forall2 disabledEventOf done events.
Proof.
  pose proof (removeDuplicates_NoDup filterIds) as Hnd.
  destruct (disableLoop_spec _ Hnd w)
    as (done & rest & events & Heq & Hen & Hhd & Hdis & HF & Hnot & Hev).
  exists done, rest, events. split_and!; try done.
  intros id Hid. rewrite Heq in Hnd. apply NoDup_app in Hnd as (_ & Hdisj & _).
  assert (id ∉ done) by (intros ?; by eapply Hdisj).
  split; [by eapply Frame_getFilter|by eapply Frame_isFilterEnabled].
Qed.

(** ** The load-and-enable pipeline *)

Arguments enableGroup : simpl never.
Arguments markInstalled : simpl never.
Arguments enableFilter : simpl never.

Lemma markInstalled_spec filterId ref f w :
  getFilterRef filterId w = Some (ref, f) →
  Frame (eq filterId) w (markInstalled ref w) ∧
  inflight (markInstalled ref w) = inflight w ∧
  loaderCalls (markInstalled ref w) = loaderCalls w.
Proof.
  intros Hf. pose proof (getFilterRef_Some _ _ _ _ Hf) as [Href Hid].
  unfold markInstalled. rewrite Href. split_and!.
  - eapply Frame_put_notify; eauto.
  - by rewrite inflight_notifyListeners.
  - by rewrite loaderCalls_notifyListeners.
Qed.

Lemma Frame_present S w w' id :
  Frame S w w' → is_Some (getFilter id w) → is_Some (getFilter id w').
Proof. intros [H _]. apply H. Qed.

(** The success branch of a load-and-enable cycle: the filter is marked as
    installed and then enabled. *)
Lemma install_enable_spec filterId ref f w :
  getFilterRef filterId w = Some (ref, f) →
  ∃ w', enableFilter filterId (markInstalled ref w) = Ok w' ∧
        isFilterEnabled filterId w' = true ∧
        Frame (eq filterId) w w' ∧
        inflight w' = inflight w ∧
        loaderCalls w' = loaderCalls w.
Proof.
  intros Hf. destruct (markInstalled_spec _ _ _ _ Hf) as (HF & Hi & Hl).
  destruct (enableFilter_spec filterId (markInstalled ref w))
    as (w' & Hw' & He & HF' & Hi' & Hl').
  { eapply Frame_present; [done|]. by erewrite getFilterRef_getFilter. }
  exists w'. split_and!; [done|done| |congruence|congruence].
  eapply Frame_trans; eauto.
Qed.

Lemma settle_idle outcome fuel w : inflight w = [] → settle outcome fuel w = Ok w.
Proof. intros H. destruct fuel; simpl; [done|]. by rewrite H. Qed.

Lemma getsInstalled_frame S outcome w w' id :
  Frame S w w' → ¬ S id → getsInstalled outcome id w' = getsInstalled outcome id w.
Proof. intros HF Hid. unfold getsInstalled. by rewrite (Frame_getFilter _ _ _ _ HF Hid). Qed.

Lemma needsLoad_frame S w w' id :
  Frame S w w' → ¬ S id → needsLoad w' id = needsLoad w id.
Proof. intros HF Hid. unfold needsLoad. by rewrite (Frame_getFilter _ _ _ _ HF Hid). Qed.

Lemma deferLoad_unfold filterId queue ref k w :
  deferLoad filterId queue ref k w = Ok (loadStarted ref filterId queue w).
Proof. done. Qed.

Lemma loaderCallback_single ref filterId queue success w :
  inflight w = [] →
  loaderCallback 0 success (loadStarted ref filterId queue w) =
  onFilterLoaded ref (batchCallback (loadNextFilter queue) filterId) success
                 (withLoaderCalls (loaderCalls w ++ [filterId]) w).
Proof.
  intros Hi. unfold loaderCallback, loadStarted. simpl. rewrite Hi. simpl.
  destruct w; simpl in *. by subst.
Qed.

Lemma filter_needsLoad_frame S w w' (queue : list Z) :
  Frame S w w' → (∀ id, id ∈ queue → ¬ S id) →
  List.filter (needsLoad w') queue = List.filter (needsLoad w) queue.
Proof.
  intros HF Hq. apply List.filter_ext_in. intros id Hid.
  eapply needsLoad_frame; [done|]. apply Hq. by apply list_elem_of_In.
Qed.

Lemma Neutral_id : Neutral (λ w, w).
Proof. done. Qed.

Lemma Neutral_Frame h S w : Neutral h → Frame S w (h w).
Proof. intros Hh. destruct (Hh w) as (? & ? & _). by apply Frame_same_catalog. Qed.

Lemma loaderCallback_head p success w :
  inflight w = [p] →
  loaderCallback 0 success w =
  onFilterLoaded (pendingFilter p)
                 (batchCallback (loadNextFilter (pendingQueue p)) (pendingFilterId p))
                 success (withInflight [] w).
Proof. intros Hi. unfold loaderCallback. by rewrite Hi. Qed.

(** ** Batches behind loads in flight, and the [installed] flag *)

Lemma isInstalled_frame S w w' id :
  Frame S w w' → ¬ S id → isInstalled id w' = isInstalled id w.
Proof. intros HF Hid. unfold isInstalled. by rewrite (Frame_getFilter _ _ _ _ HF Hid). Qed.

Lemma isInstalled_getFilterRef filterId ref f w :
  getFilterRef filterId w = Some (ref, f) →
  isInstalled filterId w = truthy (Filter.installed f).
Proof. intros Hf. unfold isInstalled. by rewrite (getFilterRef_getFilter _ _ _ _ Hf). Qed.

(** [enableFilter] writes [enabled] only: no [installed] flag changes. *)
Lemma enableFilter_isInstalled filterId id w w' :
  enableFilter filterId w = Ok w' → isInstalled id w' = isInstalled id w.
Proof.
  unfold enableFilter. destruct (isFilterEnabled filterId w); [by intros ->%Ok_inj|].
  destruct (getFilterRef filterId w) as [[ref f]|] eqn:Hf; [|done].
  intros <-%Ok_inj. pose proof (getFilterRef_Some _ _ _ _ Hf) as [Href Hid].
  unfold isInstalled, getFilter, getFilterRef at 1.
  rewrite filters_notifyListeners.
  fold (implicitGroupEnable (Filter.groupId (Filter.setEnabled (Some true) f))
          (putFilter ref (Filter.setEnabled (Some true) f) w)).
  rewrite filters_implicitGroupEnable.
  fold (getFilterRef id (putFilter ref (Filter.setEnabled (Some true) f) w)).
  destruct (decide (id = filterId)) as [->|Hne].
  - erewrite getFilterRef_putFilter_same by done. by rewrite Hf.
  - by erewrite getFilterRef_putFilter_other.
Qed.

Lemma markInstalled_isInstalled filterId ref f w :
  getFilterRef filterId w = Some (ref, f) →
  isInstalled filterId (markInstalled ref w) = true.
Proof.
  intros Hf. pose proof (getFilterRef_Some _ _ _ _ Hf) as [Href Hid].
  unfold markInstalled. rewrite Href. unfold isInstalled, getFilter.
  rewrite getFilterRef_notifyListeners.
  by erewrite getFilterRef_putFilter_same.
Qed.

(** The cycle of a filter that needs no load, or whose load succeeded, leaves
    it installed. *)
Lemma enableFilter_installed filterId ref f w w' :
  getFilterRef filterId w = Some (ref, f) →
  truthy (Filter.installed f) = true →
  enableFilter filterId w = Ok w' →
  isInstalled filterId w' = true.
Proof.
  intros Hf Hi Hw'. rewrite (enableFilter_isInstalled _ _ _ _ Hw').
  by rewrite (isInstalled_getFilterRef _ _ _ _ Hf).
Qed.

Lemma install_enable_installed filterId ref f w w' :
  getFilterRef filterId w = Some (ref, f) →
  enableFilter filterId (markInstalled ref w) = Ok w' →
  isInstalled filterId w' = true.
Proof.
  intros Hf Hw'. rewrite (enableFilter_isInstalled _ _ _ _ Hw').
  by eapply markInstalled_isInstalled.
Qed.

Lemma bind_ext r k k' : (∀ w, k w = k' w) → r >>> k = r >>> k'.
Proof. intros H. destruct r; [apply H|done]. Qed.

Lemma settle_settleBehind outcome fuel w :
  settle outcome fuel w = settleBehind 0 outcome fuel w.
Proof.
  revert w. induction fuel as [|fuel IH]; intros w; [done|]. cbn [settle settleBehind].
  destruct (inflight w) as [|p l]; [done|]. cbn [lookup list_lookup]. by apply bind_ext.
Qed.


(** The callback of the load that was started last. *)
Lemma loaderCallback_behind p l success w :
  inflight w = l ++ [p] →
  loaderCallback (length l) success w =
  onFilterLoaded (pendingFilter p)
                 (batchCallback (loadNextFilter (pendingQueue p)) (pendingFilterId p))
                 success (withInflight l w).
Proof.
  intros Hi. unfold loaderCallback. rewrite Hi, list_lookup_middle by done.
  by rewrite delete_middle, app_nil_r.
Qed.

(** Processing the ids [queue] that stand in front of [tail], all of them in
    the catalog, with the loader answering the loads of the batch as
    [outcome] says: the pipeline arrives at [tail] with the loads in flight
    that there were at the start.  The caller's step [h] runs when the call
    returns, which is before the first callback of the loader. *)
Lemma loadNextFilter_prefix_behind (outcome : Z → bool) (tail queue : list Z) :
  NoDup queue →
  ∀ h w fuel,
    Neutral h →
    (∀ id, id ∈ queue → is_Some (getFilter id w)) →
    (length queue ≤ fuel)%nat →
    ∃ wm fuel' h',
      Neutral h' ∧
      (fuel - length queue ≤ fuel')%nat ∧
      loadNextFilter (queue ++ tail) w >>>
        settleViaBehind (length (inflight w)) h outcome fuel =
        loadNextFilter tail wm >>>
          settleViaBehind (length (inflight w)) h' outcome fuel' ∧
      inflight wm = inflight w ∧
      Frame (λ id, id ∈ queue ∧ getsInstalled outcome id w = true) w wm ∧
      (∀ id, id ∈ queue → getsInstalled outcome id w = true →
             isFilterEnabled id wm = true ∧ isInstalled id wm = true) ∧
      loaderCalls wm = loaderCalls w ++ List.filter (needsLoad w) queue.
Proof.
  induction queue as [|x queue IH]; intros Hnd h w fuel Hh Hpresent Hfuel.
  { exists w, fuel, h. simpl. rewrite app_nil_r.
    split_and!; try done; try lia; try (by intros ? ?%elem_of_nil); apply Frame_refl. }
  apply NoDup_cons in Hnd as [Hx Hnd].
  destruct (is_Some_getFilter x w) as (ref & f & Hf);
    [apply Hpresent, elem_of_cons; by left|].
  pose proof (getFilterRef_getFilter _ _ _ _ Hf) as Hgf.
  (* what remains once the cycle of [x] is over, in the world [w1] *)
  assert (Hcont : ∀ w1 n h1 (S1 : Z → Prop),
    Neutral h1 →
    Frame S1 w w1 →
    (∀ id, S1 id → id = x ∧ getsInstalled outcome x w = true) →
    inflight w1 = inflight w →
    (length queue ≤ n)%nat → (fuel - 1 ≤ n)%nat →
    (getsInstalled outcome x w = true →
     isFilterEnabled x w1 = true ∧ isInstalled x w1 = true) →
    loaderCalls w1 = loaderCalls w ++ (if needsLoad w x then [x] else []) →
    ∃ wm fuel' h',
      Neutral h' ∧
      (fuel - length (x :: queue) ≤ fuel')%nat ∧
      loadNextFilter (queue ++ tail) w1 >>> settleViaBehind (length (inflight w)) h1 outcome n =
        loadNextFilter tail wm >>> settleViaBehind (length (inflight w)) h' outcome fuel' ∧
      inflight wm = inflight w ∧
      Frame (λ id, id ∈ x :: queue ∧ getsInstalled outcome id w = true) w wm ∧
      (∀ id, id ∈ x :: queue → getsInstalled outcome id w = true →
             isFilterEnabled id wm = true ∧ isInstalled id wm = true) ∧
      loaderCalls wm = loaderCalls w ++ List.filter (needsLoad w) (x :: queue)).
  { intros w1 n h1 S1 Hh1 HF1 HS1 Hidle1 Hn Hn' Hen1 Hcalls1.
    assert (Hother : ∀ id, id ∈ queue → ¬ S1 id).
    { intros id Hid HS. apply HS1 in HS as [-> _]. done. }
    destruct (IH Hnd h1 w1 n Hh1)
      as (wm & fuel' & h' & Hh' & Hfuel' & Heq & Hidlem & HFm & Henm & Hcallsm).
    { intros id Hid. eapply Frame_present; [done|]. apply Hpresent, elem_of_cons. by right. }
    { done. }
    rewrite Hidle1 in Heq, Hidlem.
    exists wm, fuel', h'. split_and!.
    - done.
    - simpl. lia.
    - done.
    - done.
    - eapply Frame_trans; [exact HF1|exact HFm|..].
      + intros id HS. apply HS1 in HS as [-> ?]. split; [apply elem_of_cons; by left|done].
      + intros id [Hid Hg]. split; [apply elem_of_cons; by right|].
        by rewrite <- (getsInstalled_frame _ outcome _ _ _ HF1 (Hother id Hid)).
    - intros id [->|Hid]%elem_of_cons Hg.
      + destruct (Hen1 Hg) as [He1 Hi1]. split.
        * rewrite <- He1. eapply Frame_isFilterEnabled; [exact HFm|by intros [? _]].
        * rewrite <- Hi1. eapply isInstalled_frame; [exact HFm|by intros [? _]].
      + apply Henm; [done|].
        by rewrite (getsInstalled_frame _ outcome _ _ _ HF1 (Hother id Hid)).
    - rewrite Hcallsm, Hcalls1, (filter_needsLoad_frame _ _ _ _ HF1 Hother).
      simpl. destruct (needsLoad w x); simpl; by rewrite <- ?app_assoc, ?app_nil_r. }
  cbn [app loadNextFilter]. unfold addAntiBannerFilter. rewrite Hf.
  assert (Hgets : getsInstalled outcome x w =
                  truthy (Filter.installed f) || truthy (Filter.loaded f) || outcome x)
    by (unfold getsInstalled; by rewrite Hgf).
  assert (Hneeds : needsLoad w x =
                   negb (truthy (Filter.installed f)) && negb (truthy (Filter.loaded f)))
    by (unfold needsLoad; by rewrite Hgf).
  destruct (truthy (Filter.installed f)) eqn:Hinst.
  { (* already installed: the callback runs at once *)
    unfold batchCallback.
    destruct (enableFilter_spec x w) as (w1 & Hw1 & He1 & HF1 & Hi1 & Hl1); [by eexists|].
    pose proof (enableFilter_installed _ _ _ _ _ Hf Hinst Hw1) as Hin1.
    rewrite Hw1. cbn [bind].
    apply (Hcont w1 fuel h (eq x));
      [done|done|by intros id <-; rewrite Hgets|congruence|simpl in Hfuel; lia|lia|done|].
    by rewrite Hl1, Hneeds, app_nil_r. }
  destruct (truthy (Filter.loaded f)) eqn:Hloaded.
  { (* body already loaded: onFilterLoaded(true) runs at once *)
    unfold onFilterLoaded, batchCallback.
    destruct (install_enable_spec _ _ _ _ Hf) as (w1 & Hw1 & He1 & HF1 & Hi1 & Hl1).
    pose proof (install_enable_installed _ _ _ _ _ Hf Hw1) as Hin1.
    rewrite Hw1. cbn [bind].
    apply (Hcont w1 fuel h (eq x));
      [done|done|by intros id <-; rewrite Hgets|congruence|simpl in Hfuel; lia|lia|done|].
    by rewrite Hl1, Hneeds, app_nil_r. }
  (* the loader is called; its callback fires when the batch is settled *)
  rewrite deferLoad_unfold. cbn [bind].
  destruct fuel as [|n]; [simpl in Hfuel; lia|].
  set (wd := loadStarted ref x (queue ++ tail) w).
  destruct (Hh wd) as (Hhf & Hhs & Hhi & Hhl).
  assert (Hwd : inflight (h wd) = inflight w ++ [mkPending ref x (queue ++ tail)]).
  { rewrite Hhi. by unfold wd, loadStarted. }
  unfold settleViaBehind at 1. cbn [settleBehind]. rewrite Hwd.
  rewrite list_lookup_middle by done. cbn [pendingFilterId].
  rewrite (loaderCallback_behind _ _ _ _ Hwd).
  cbn [pendingFilter pendingFilterId pendingQueue].
  set (w2 := withInflight (inflight w) (h wd)).
  assert (HF2 : ∀ S, Frame S w w2).
  { intros S. apply Frame_same_catalog; cbn; by rewrite ?Hhf, ?Hhs. }
  assert (Hf2 : getFilterRef x w2 = Some (ref, f)).
  { unfold getFilterRef. cbn. by rewrite Hhf. }
  assert (Hl2 : loaderCalls w2 = loaderCalls w ++ [x]) by (cbn; by rewrite Hhl).
  unfold onFilterLoaded, batchCallback. destruct (outcome x) eqn:Hout.
  - destruct (install_enable_spec _ _ _ _ Hf2) as (w1 & Hw1 & He1 & HF1 & Hi1 & Hl1).
    pose proof (install_enable_installed _ _ _ _ _ Hf2 Hw1) as Hin1.
    rewrite Hw1. cbn [bind].
    apply (Hcont w1 n (λ w, w) (eq x));
      [done| |by intros id <-; rewrite Hgets|by rewrite Hi1|simpl in Hfuel; lia|lia|done|].
    + eapply Frame_trans; [apply (HF2 (eq x))|exact HF1|done..].
    + by rewrite Hl1, Hl2, Hneeds.
  - cbn [bind].
    apply (Hcont w2 n (λ w, w) (λ _, False));
      [done|apply HF2|done|done|simpl in Hfuel; lia|lia|by rewrite Hgets|].
    by rewrite Hl2, Hneeds.
Qed.

(** The same for a batch that starts when no load is in flight. *)
Lemma loadNextFilter_prefix_idle (outcome : Z → bool) (tail queue : list Z) :
  NoDup queue →
  ∀ h w fuel,
    Neutral h →
    inflight w = [] →
    (∀ id, id ∈ queue → is_Some (getFilter id w)) →
    (length queue ≤ fuel)%nat →
    ∃ wm fuel' h',
      Neutral h' ∧
      (fuel - length queue ≤ fuel')%nat ∧
      loadNextFilter (queue ++ tail) w >>> settleVia h outcome fuel =
        loadNextFilter tail wm >>> settleVia h' outcome fuel' ∧
      inflight wm = [] ∧
      Frame (λ id, id ∈ queue ∧ getsInstalled outcome id w = true) w wm ∧
      (∀ id, id ∈ queue → getsInstalled outcome id w = true →
             isFilterEnabled id wm = true ∧ isInstalled id wm = true) ∧
      loaderCalls wm = loaderCalls w ++ List.filter (needsLoad w) queue.
Proof.
  intros Hnd h w fuel Hh Hidle Hpresent Hfuel.
  destruct (loadNextFilter_prefix_behind outcome tail queue Hnd h w fuel Hh Hpresent Hfuel)
    as (wm & fuel' & h' & Hh' & Hfuel' & Heq & Hidlem & HF & Hen & Hcalls).
  rewrite Hidle in Heq, Hidlem. cbn [length] in Heq.
  exists wm, fuel', h'. split_and!; try done.
  rewrite (bind_ext _ (settleVia h outcome fuel) (settleViaBehind 0 h outcome fuel)),
          (bind_ext _ (settleVia h' outcome fuel') (settleViaBehind 0 h' outcome fuel'));
    [done|intros w1; apply settle_settleBehind..].
Qed.

(** What the batch does to the [enabled] flags when no load is in flight at
    the start. *)
Lemma loadNextFilter_prefix (outcome : Z → bool) (tail queue : list Z) :
  NoDup queue →
  ∀ h w fuel,
    Neutral h →
    inflight w = [] →
    (∀ id, id ∈ queue → is_Some (getFilter id w)) →
    (length queue ≤ fuel)%nat →
    ∃ wm fuel' h',
      Neutral h' ∧
      (fuel - length queue ≤ fuel')%nat ∧
      loadNextFilter (queue ++ tail) w >>> settleVia h outcome fuel =
        loadNextFilter tail wm >>> settleVia h' outcome fuel' ∧
      inflight wm = [] ∧
      Frame (λ id, id ∈ queue ∧ getsInstalled outcome id w = true) w wm ∧
      (∀ id, id ∈ queue → getsInstalled outcome id w = true →
             isFilterEnabled id wm = true) ∧
      loaderCalls wm = loaderCalls w ++ List.filter (needsLoad w) queue.
Proof.
  intros Hnd h w fuel Hh Hidle Hpresent Hfuel.
  destruct (loadNextFilter_prefix_idle outcome tail queue Hnd h w fuel Hh Hidle
                                       Hpresent Hfuel)
    as (wm & fuel' & h' & ? & ? & ? & ? & ? & Hen & ?).
  exists wm, fuel', h'. split_and!; try done.
  intros id Hid Hg. by destruct (Hen id Hid Hg).
Qed.

(** The state in which a batch ends when its last id has been processed:
    the pending step of the caller, if any, runs and nothing is left to
    settle. *)
Lemma settled_state (outcome : Z → bool) (queue : list Z) h fuel (w wm : World) :
  Neutral h →
  inflight wm = [] →
  Frame (λ id, id ∈ queue ∧ getsInstalled outcome id w = true) w wm →
  (∀ id, id ∈ queue → getsInstalled outcome id w = true → isFilterEnabled id wm = true) →
  loaderCalls wm = loaderCalls w ++ List.filter (needsLoad w) queue →
  ∃ wf, settleVia h outcome fuel wm = Ok wf ∧
        inflight wf = [] ∧
        Frame (λ id, id ∈ queue ∧ getsInstalled outcome id w = true) w wf ∧
        (∀ id, id ∈ queue → getsInstalled outcome id w = true →
               isFilterEnabled id wf = true) ∧
        loaderCalls wf = loaderCalls w ++ List.filter (needsLoad w) queue.
Proof.
  intros Hh Hidle HF Hen Hcalls. destruct (Hh wm) as (Hhf & Hhs & Hhi & Hhl).
  exists (h wm). split_and!.
  - unfold settleVia. apply settle_idle. congruence.
  - congruence.
  - eapply Frame_trans; [exact HF|apply (Neutral_Frame h (λ _, False) wm Hh)|..].
    + by intros id ?.
    + by intros id [].
  - intros id Hid Hg. rewrite <- (Hen id Hid Hg).
    eapply (Frame_isFilterEnabled (λ _, False)); [by apply Neutral_Frame|tauto].
  - congruence.
Qed.




(** ** The cycles of a batch *)


Lemma needsLoad_getFilterRef filterId ref f w :
  getFilterRef filterId w = Some (ref, f) →
  needsLoad w filterId =
    negb (truthy (Filter.installed f)) && negb (truthy (Filter.loaded f)).
Proof. intros Hf. unfold needsLoad. by rewrite (getFilterRef_getFilter _ _ _ _ Hf). Qed.






Lemma addAndEnableFilters_unfold filterIds w :
  addAndEnableFilters filterIds w = loadNextFilter (removeDuplicates filterIds) w.
Proof. by destruct filterIds. Qed.

Lemma removeDuplicates_length l : (length (removeDuplicates l) ≤ length l)%nat.
Proof.
  induction l as [|x l IH]; simpl; [done|].
  pose proof (List.filter_length_le (λ y, negb (y =? x)) (removeDuplicates l)). lia.
Qed.

Lemma filter_sublist {A} (p : A → bool) (l : list A) : List.filter p l `sublist_of` l.
Proof.
  induction l as [|x l IH]; simpl; [done|].
  destruct (p x); by constructor.
Qed.

Lemma getFilter_None filterId w : getFilter filterId w = None → getFilterRef filterId w = None.
Proof. unfold getFilter. by destruct (getFilterRef filterId w). Qed.




(** A stretch of the batch in which no filter needs a load runs within the
    call. *)
Lemma loadNextFilter_through (queue : list Z) :
  NoDup queue →
  ∀ w, (∀ id, id ∈ queue → is_Some (getFilter id w) ∧ needsLoad w id = false) →
       ∃ wm, (∀ tail, loadNextFilter (queue ++ tail) w = loadNextFilter tail wm) ∧
             inflight wm = inflight w ∧
             loaderCalls wm = loaderCalls w ∧
             Frame (λ id, id ∈ queue) w wm.
Proof.
  induction queue as [|x queue IH]; intros Hnd w Hq.
  { exists w. split_and!; first [done | apply Frame_refl]. }
  apply NoDup_cons in Hnd as [Hx Hnd].
  destruct (Hq x) as [Hsome Hneeds]; [by left|].
  destruct (is_Some_getFilter x w Hsome) as (ref & f & Hf).
  rewrite (needsLoad_getFilterRef _ _ _ _ Hf) in Hneeds.
  assert (Hstep : ∃ w1, (∀ tail, addAntiBannerFilter (deferLoad x (queue ++ tail)) x
                                   (batchCallback (loadNextFilter (queue ++ tail)) x) w =
                                 loadNextFilter (queue ++ tail) w1) ∧
                        Frame (eq x) w w1 ∧
                        inflight w1 = inflight w ∧ loaderCalls w1 = loaderCalls w).
  { unfold addAntiBannerFilter. rewrite Hf.
    destruct (truthy (Filter.installed f)) eqn:Hinst.
    - destruct (enableFilter_spec x w Hsome) as (w1 & Hw1 & _ & ?).
      exists w1. split; [|done]. intros tail. unfold batchCallback. by rewrite Hw1.
    - destruct (truthy (Filter.loaded f)) eqn:Hloaded; [|done].
      destruct (install_enable_spec _ _ _ _ Hf) as (w1 & Hw1 & _ & ?).
      exists w1. split; [|done]. intros tail.
      unfold onFilterLoaded, batchCallback. by rewrite Hw1. }
  destruct Hstep as (w1 & Hcall & HF1 & Hi1 & Hc1).
  destruct (IH Hnd w1) as (wm & Hwm & Hi' & Hc' & HF').
  { intros id Hid. assert (Hne : x ≠ id) by (intros ->; done).
    destruct (Hq id) as [Hs Hn]; [by right|]. split.
    - by eapply Frame_present.
    - by rewrite (needsLoad_frame _ _ _ _ HF1 Hne). }
  exists wm. split_and!; [|congruence|congruence|].
  - intros tail. cbn [app loadNextFilter]. by rewrite Hcall.
  - eapply Frame_trans; [exact HF1|exact HF'|..].
    + intros id <-. by left.
    + intros id Hid. by right.
Qed.

(** A batch returns when it reaches the first filter that needs a load: the
    load is in flight and the rest of the list waits in its callback. *)
Lemma loadNextFilter_stops_at_load (queue tail : list Z) :
  NoDup queue →
  ∀ w, (∀ id, id ∈ queue → is_Some (getFilter id w)) →
       (∃ id, id ∈ queue ∧ needsLoad w id = true) →
       ∃ w1, loadNextFilter (queue ++ tail) w = Ok w1 ∧
             length (inflight w1) = S (length (inflight w)).
Proof.
  induction queue as [|x queue IH]; intros Hnd w Hpresent (y & Hy & Hneeds).
  { by apply elem_of_nil in Hy. }
  apply NoDup_cons in Hnd as [Hx Hnd].
  destruct (is_Some_getFilter x w) as (ref & f & Hf); [apply Hpresent; by left|].
  assert (Hnext : ∀ w1, Frame (eq x) w w1 → inflight w1 = inflight w →
                        needsLoad w x = false →
                        ∃ w', loadNextFilter (queue ++ tail) w1 = Ok w' ∧
                              length (inflight w') = S (length (inflight w))).
  { intros w1 HF1 Hi1 Hnx. rewrite <- Hi1. apply IH; [done| |].
    - intros id Hid. eapply Frame_present; [done|]. apply Hpresent. by right.
    - exists y. apply elem_of_cons in Hy as [->|Hy]; [congruence|].
      split; [done|]. rewrite (needsLoad_frame _ _ _ _ HF1); [done|]. by intros <-. }
  pose proof (needsLoad_getFilterRef _ _ _ _ Hf) as Hnx.
  cbn [app loadNextFilter]. unfold addAntiBannerFilter. rewrite Hf.
  destruct (truthy (Filter.installed f)) eqn:Hinst.
  { unfold batchCallback.
    destruct (enableFilter_spec x w) as (w1 & Hw1 & _ & HF1 & Hi1 & _).
    { by erewrite getFilterRef_getFilter. }
    rewrite Hw1. cbn [bind]. by apply Hnext. }
  destruct (truthy (Filter.loaded f)) eqn:Hloaded.
  { unfold onFilterLoaded, batchCallback.
    destruct (install_enable_spec _ _ _ _ Hf) as (w1 & Hw1 & _ & HF1 & Hi1 & _).
    rewrite Hw1. cbn [bind]. by apply Hnext. }
  rewrite deferLoad_unfold. eexists. split; [done|].
  unfold loadStarted. cbn. rewrite length_app. simpl. lia.
Qed.

(** C10 (as amended): when the deduplicated list reaches an id [x] that is
    not in the catalog (the ids [pre] before it are), the batch ends with
    the exception of the required-filter lookup.  The call itself throws
    when no id of [pre] needs a load; when one does, the call returns
    normally with that load in flight, and the exception is raised by the
    callback of the loader that brings the batch to [x], whatever the loader
    answered for [pre].  No id behind [x] is handed to the loader, and their
    filters and state entries are as before the call; the ids of [pre] were
    processed as usual. *)
Theorem addAndEnableFilters_throws_at_missing_filter
        (filterIds pre post : list Z) (x : Z) (w0 : World) :
  removeDuplicates filterIds = pre ++ x :: post →
  getFilter x w0 = None →
  (∀ id, id ∈ pre → is_Some (getFilter id w0)) →
  ((∀ id, id ∈ pre → needsLoad w0 id = false) →
   ∃ wf, addAndEnableFilters filterIds w0 = Throw (FilterNotFound x) wf ∧
         inflight wf = inflight w0 ∧
         loaderCalls wf = loaderCalls w0) ∧
  ((∃ id, id ∈ pre ∧ needsLoad w0 id = true) →
   ∃ w1, addAndEnableFilters filterIds w0 = Ok w1 ∧
         length (inflight w1) = S (length (inflight w0))) ∧
  ∀ outcome fuel,
    (length pre ≤ fuel)%nat →
    ∃ wf, addAndEnableFilters filterIds w0 >>>
            settleBehind (length (inflight w0)) outcome fuel =
            Throw (FilterNotFound x) wf ∧
          inflight wf = inflight w0 ∧
          (∃ l, loaderCalls wf = loaderCalls w0 ++ l ∧ l `sublist_of` pre) ∧
          (∀ id, id ∈ pre → getsInstalled outcome id w0 = true →
                 isFilterEnabled id wf = true ∧ isInstalled id wf = true) ∧
          (∀ id, id ∈ post →
                 (id ∉ drop (length (loaderCalls w0)) (loaderCalls wf)) ∧
                 getFilter id wf = getFilter id w0 ∧
                 filtersState wf !! id = filtersState w0 !! id ∧
                 isFilterEnabled id wf = isFilterEnabled id w0).
Proof.
  intros Hq Hx Hpresent.
  rewrite addAndEnableFilters_unfold, Hq.
  pose proof (removeDuplicates_NoDup filterIds) as Hnd. rewrite Hq in Hnd.
  apply NoDup_app in Hnd as (Hndpre & Hdisj & Hndpost).
  apply NoDup_cons in Hndpost as [Hxpost Hndpost].
  assert (Hxpre : x ∉ pre) by (intros Hin; eapply Hdisj; [exact Hin|by left]).
  assert (Hthrow : ∀ (S : Z → Prop) wm, Frame S w0 wm → ¬ S x →
                     loadNextFilter (x :: post) wm = Throw (FilterNotFound x) wm).
  { intros S wm [_ HF] HS. cbn [loadNextFilter]. unfold addAntiBannerFilter.
    destruct (HF x HS) as [-> _]. by rewrite (getFilter_None _ _ Hx). }
  split_and!.
  - intros Hsync.
    destruct (loadNextFilter_through pre Hndpre w0) as (wm & Hwm & Hi & Hc & HF);
      [by split; auto|].
    exists wm. split_and!; [|done|done]. rewrite Hwm. by eapply Hthrow.
  - intros Hload. by apply loadNextFilter_stops_at_load.
  - intros outcome fuel Hfuel.
    destruct (loadNextFilter_prefix_behind outcome (x :: post) pre Hndpre (λ w, w) w0 fuel
                                           Neutral_id Hpresent Hfuel)
      as (wf & fuel' & h' & _ & _ & Heq & Hidlef & HF & Hen & Hcalls).
    assert (Hout : ∀ id, id ∈ x :: post →
                         ¬ (id ∈ pre ∧ getsInstalled outcome id w0 = true)).
    { intros id Hid [Hpre _]. by eapply Hdisj. }
    exists wf. split_and!; [|done| |done|].
    + change (settleBehind (length (inflight w0)) outcome fuel)
        with (settleViaBehind (length (inflight w0)) (λ w, w) outcome fuel).
      rewrite Heq. erewrite Hthrow; [done|exact HF|]. apply Hout. by left.
    + eexists. split; [exact Hcalls|]. apply filter_sublist.
    + intros id Hid.
      assert (Hns := Hout id (proj2 (elem_of_cons _ _ _) (or_intror Hid))).
      split_and!.
      * rewrite Hcalls, drop_app_length. intros Hin.
        apply list_elem_of_In, List.filter_In in Hin as [Hin _].
        apply list_elem_of_In in Hin. eapply Hdisj; [exact Hin|].
        apply elem_of_cons. by right.
      * by eapply Frame_getFilter.
      * destruct HF as [_ HF]. by destruct (HF id Hns).
      * by eapply Frame_isFilterEnabled.
Qed.



Lemma addAndEnableFilters_throws_at_missing_filter_witness :
  (∃ w1, addAndEnableFilters [2; 5; 3] worldBatch = Ok w1 ∧
         length (inflight w1) = 1%nat) ∧
  ∃ wf, addAndEnableFilters [2; 5; 3] worldBatch >>> settleBehind 0 (λ _, true) 1 =
          Throw (FilterNotFound 5) wf ∧
        isFilterEnabled 2 wf = true ∧
        isInstalled 2 wf = true ∧
        getFilter 3 wf = getFilter 3 worldBatch.
Proof.
  destruct (addAndEnableFilters_throws_at_missing_filter
              [2; 5; 3] [2] [3] 5 worldBatch) as (_ & Hreturns & Hthrows).
  - reflexivity.
  - reflexivity.
  - intros id Hid. apply list_elem_of_In in Hid. simpl in Hid.
    destruct Hid as [<-|[]]; by eexists.
  - split.
    + apply Hreturns. exists 2. split; [|reflexivity].
      apply list_elem_of_In. simpl. tauto.
    + destruct (Hthrows (λ _ : Z, true) 1%nat) as (wf & Hwf & _ & _ & Hpre & Hpost);
        [simpl; lia|].
      exists wf. split_and!; [exact Hwf|..].
      * apply Hpre; [|reflexivity]. apply list_elem_of_In. simpl. tauto.
      * apply Hpre; [|reflexivity]. apply list_elem_of_In. simpl. tauto.
      * apply (Hpost 3). apply list_elem_of_In. simpl. tauto.
Defined.

(** C10 fails as stated: the id 5 of the list is not in the catalog, yet the
    call does not throw: it returns normally with the load of the filter 2 in
    flight, and the exception is raised later, by the loader's callback. *)
Lemma addAndEnableFilters_returns_before_missing_filter :
  removeDuplicates [2; 5; 3] = [2; 5; 3] ∧
  getFilter 5 worldBatch = None ∧
  ∃ w1, addAndEnableFilters [2; 5; 3] worldBatch = Ok w1 ∧
        (∀ e w', addAndEnableFilters [2; 5; 3] worldBatch ≠ Throw e w') ∧
        inflight w1 = [mkPending 1 2 [5; 3]] ∧
        ∃ w2, loaderCallback 0 true w1 = Throw (FilterNotFound 5) w2.
Proof.
  split; [reflexivity|]. split; [reflexivity|].
  eexists. split; [vm_compute; reflexivity|]. split_and!.
  - intros e w'. vm_compute. discriminate.
  - vm_compute. reflexivity.
  - eexists. vm_compute. reflexivity.
Qed.

(** The call itself throws when no filter before the missing id needs a
    load. *)
Example addAndEnableFilters_throws_within_call :
  ∃ wf, addAndEnableFilters [1; 5; 3] worldBatch = Throw (FilterNotFound 5) wf ∧
        isFilterEnabled 1 wf = true ∧ loaderCalls wf = [].
Proof. eexists. split_and!; vm_compute; reflexivity. Qed.

(** The two outcomes of [removeFilter] on a concrete catalog. *)
Example removeFilter_keeps_stock_filter :
  removeFilter 1 worldBatch = worldBatch.
Proof. reflexivity. Qed.

Example removeFilter_removes_custom_filter :
  let w := withFilters [Filter.mk 1000 0 [] [] (Some "https://example.org/f.txt")
                                  (Some true) (Some true) None None []] worldBatch in
  (Filter.removed <$> getFilter 1000 (removeFilter 1000 w)) = Some (Some true) ∧
  length (notifications (removeFilter 1000 w)) = 2%nat.
Proof. split; reflexivity. Qed.

(** ** Tag annotation of the visible filters *)

(** One visit of a tag id, by cases on the tag's keyword at that moment: an
    unknown tag id and a [reference:] tag add nothing; a [lang:] tag is
    added untouched; any other tag is added after its keyword has been
    replaced, in the shared tag object, by what follows the first [:]. *)
Lemma annotateTag_cases (tagsStore : list Tag.t) (tagsDetails : list nat) (tagId : Z) :
  match list_find (λ tag, Tag.tagId tag = tagId) tagsStore with
  | None => annotateTag (tagsStore, tagsDetails) tagId = (tagsStore, tagsDetails)
  | Some (ref, tag) =>
      if startsWith (Tag.keyword tag) "reference:"
      then annotateTag (tagsStore, tagsDetails) tagId = (tagsStore, tagsDetails)
      else if startsWith (Tag.keyword tag) "lang:"
      then annotateTag (tagsStore, tagsDetails) tagId = (tagsStore, tagsDetails ++ [ref])
      else annotateTag (tagsStore, tagsDetails) tagId =
           (<[ref := Tag.mk (Tag.tagId tag)
                            (substringFrom (Tag.keyword tag)
                                           (indexOf (Tag.keyword tag) ":" + 1))]> tagsStore,
            tagsDetails ++ [ref])
  end.
Proof.
  unfold annotateTag.
  destruct (list_find _ tagsStore) as [[ref tag]|]; [|done].
  destruct (startsWith (Tag.keyword tag) "reference:"); [done|].
  by destruct (startsWith (Tag.keyword tag) "lang:").
Qed.

Example keyword_prefix_examples :
  substringFrom "group:custom" (indexOf "group:custom" ":" + 1) = "custom" ∧
  substringFrom "recommended" (indexOf "recommended" ":" + 1) = "recommended" ∧
  startsWith "lang:en" "lang:" = true ∧
  startsWith "reference:101" "reference:" = true.
Proof. by vm_compute. Qed.

(** C6 at the failing input: the keyword ["purpose:ads:banners"] does not
    start with [reference:] or [lang:], so it should be shown with
    everything up to the first [:] removed, as ["ads:banners"].  The listing
    rewrites the keyword inside the shared tag object once per filter that
    carries the tag, and both filters end up showing ["banners"]. *)
Theorem getFilters_strips_shared_tag_twice :
  displayedKeywords 1 (fst (getFilters worldSharedTag)) = ["banners"] ∧
  displayedKeywords 2 (fst (getFilters worldSharedTag)) = ["banners"] ∧
  substringFrom "purpose:ads:banners" (indexOf "purpose:ads:banners" ":" + 1) = "ads:banners".
Proof. by vm_compute. Qed.

(** ** Recommended filters of a group *)

Section Recommendation.

Variable SAFARI_FILTER_ID : Z.
Variable isRecommendedFilter : Filter.t → bool.
Variable isMobileFilter : Filter.t → bool.
Variable userAgent : option string.
Variable getFilterIdsForLanguage : list Filter.t → list Z.

Let recommended :=
  getRecommendedFilterIdsByGroupId SAFARI_FILTER_ID isRecommendedFilter isMobileFilter
                                   userAgent getFilterIdsForLanguage.

Lemma isOfferedFilter_true filter langs :
  isOfferedFilter isRecommendedFilter isMobileFilter userAgent filter langs
                  SAFARI_FILTER_ID = true →
  Filter.filterId filter = SAFARI_FILTER_ID ∨ isRecommendedFilter filter = true.
Proof.
  unfold isOfferedFilter.
  destruct (Z.eqb_spec SAFARI_FILTER_ID (Filter.filterId filter)); [by left|].
  destruct (isRecommendedFilter filter); [by right|done].
Qed.

Lemma offeredIds_elem w langs refs id :
  id ∈ offeredIds SAFARI_FILTER_ID isRecommendedFilter isMobileFilter userAgent w langs refs →
  ∃ ref f, ref ∈ refs ∧ filters w !! ref = Some f ∧ Filter.filterId f = id ∧
           (id = SAFARI_FILTER_ID ∨ isRecommendedFilter f = true).
Proof.
  unfold offeredIds. intros (ref & Href & Hsome)%list_elem_of_omap.
  destruct (filters w !! ref) as [f|] eqn:Hf; [|done].
  destruct (isOfferedFilter _ _ _ f langs SAFARI_FILTER_ID) eqn:Hoff; [|done].
  injection Hsome as <-. exists ref, f. split_and!; try done.
  by apply isOfferedFilter_true in Hoff as [<-|?]; [left|right].
Qed.

(** C5 (as amended): every id returned by
    [getRecommendedFilterIdsByGroupId] is the id of a filter object of the
    catalog that either is the platform filter ([SAFARI_FILTER_ID]) or
    carries the recommended tag. *)
Theorem getRecommendedFilterIdsByGroupId_recommended_or_platform
        (groupId : Z) (w : World) (id : Z) :
  id ∈ snd (recommended groupId w) →
  ∃ ref f, filters (fst (recommended groupId w)) !! ref = Some f ∧
           Filter.filterId f = id ∧
           (id = SAFARI_FILTER_ID ∨ isRecommendedFilter f = true).
Proof.
  unfold recommended, getRecommendedFilterIdsByGroupId.
  destruct (getFiltersMetadata w) as [w' metadata].
  destruct (list_find _ (metaCategories metadata)) as [[k i]|];
    [|by intros ?%elem_of_nil].
  destruct (groups w' !! i) as [category|]; [|by intros ?%elem_of_nil].
  simpl. intros (ref & f & _ & Hf & Hid & Hcase)%offeredIds_elem. eauto.
Qed.

(** ** What the category selector changes *)

Lemma list_find_Forall2 {A} (P : A → Prop) `{!∀ x, Decision (P x)}
      (R : A → A → Prop) (l l' : list A) :
  Forall2 R l l' →
  (∀ a b, R a b → P a ↔ P b) →
  match list_find P l, list_find P l' with
  | Some (i, x), Some (j, y) => i = j ∧ R x y
  | None, None => True
  | _, _ => False
  end.
Proof.
  intros HR HP. induction HR as [|x y l l' Hxy _ IH]; [done|]. cbn.
  destruct (decide (P x)) as [Hx|Hx], (decide (P y)) as [Hy|Hy];
    [done|by apply (HP _ _ Hxy) in Hx|by apply (HP _ _ Hxy) in Hy|].
  destruct (list_find P l) as [[i a]|], (list_find P l') as [[j b]|]; simpl; try done.
  destruct IH as [-> ?]. done.
Qed.

Lemma Forall2_insert_right {A} (R : A → A → Prop) (l : list A) i x y :
  (∀ a, R a a) → l !! i = Some x → R x y → Forall2 R l (<[i:=y]> l).
Proof.
  intros Hrefl Hi Hxy. rewrite <- (list_insert_id l i x Hi) at 1.
  apply Forall2_insert; [|done]. clear Hi. induction l; constructor; auto.
Qed.

Lemma sameButTagsDetails_refl f : sameButTagsDetails f f.
Proof. by destruct f. Qed.

Lemma sameButTagsDetails_trans f1 f2 f3 :
  sameButTagsDetails f1 f2 → sameButTagsDetails f2 f3 → sameButTagsDetails f1 f3.
Proof. unfold sameButTagsDetails. intros -> ->. by destruct f1. Qed.

Lemma sameButMembers_refl g : sameButMembers g g.
Proof. done. Qed.

Lemma sameButMembers_trans g1 g2 g3 :
  sameButMembers g1 g2 → sameButMembers g2 g3 → sameButMembers g1 g3.
Proof. intros [? ?] [? ?]. split; congruence. Qed.

Lemma Forall2_refl_all {A} (R : A → A → Prop) (l : list A) :
  (∀ a, R a a) → Forall2 R l l.
Proof. intros H. induction l; constructor; auto. Qed.

Lemma CatalogView_refl w : CatalogView w w.
Proof.
  split; try done.
  - apply Forall2_refl_all, sameButTagsDetails_refl.
  - apply Forall2_refl_all, sameButMembers_refl.
Qed.

Lemma CatalogView_trans w1 w2 w3 :
  CatalogView w1 w2 → CatalogView w2 w3 → CatalogView w1 w3.
Proof.
  intros [Hf Hg Hs Hn Hl Hi] [Hf' Hg' Hs' Hn' Hl' Hi']. split; try congruence.
  - eapply Forall2_trans; [|exact Hf|exact Hf']. apply sameButTagsDetails_trans.
  - eapply Forall2_trans; [|exact Hg|exact Hg']. apply sameButMembers_trans.
Qed.

Lemma CatalogView_foldl {A} (step : World → A → World) (l : list A) w :
  (∀ w x, CatalogView w (step w x)) → CatalogView w (foldl step w l).
Proof.
  intros Hstep. revert w. induction l as [|x l IH]; intros w; simpl.
  - apply CatalogView_refl.
  - eapply CatalogView_trans; [apply Hstep|apply IH].
Qed.

Lemma annotateFilter_view w ref : CatalogView w (annotateFilter w ref).
Proof.
  unfold annotateFilter. destruct (filters w !! ref) as [f|] eqn:Hf;
    [|apply CatalogView_refl].
  destruct (foldl annotateTag (tags w, []) (Filter.tags f)) as [tags' tagsDetails].
  split; try done; cbn.
  - eapply Forall2_insert_right; [apply sameButTagsDetails_refl|done|].
    by destruct f.
  - apply Forall2_refl_all, sameButMembers_refl.
Qed.

Lemma getFilters_view w : CatalogView w (fst (getFilters w)).
Proof. unfold getFilters. simpl. apply CatalogView_foldl, annotateFilter_view. Qed.

Lemma attachCategoryFilters_view refs w i : CatalogView w (attachCategoryFilters refs w i).
Proof.
  unfold attachCategoryFilters. destruct (groups w !! i) as [category|] eqn:Hg;
    [|apply CatalogView_refl].
  split; try done; cbn.
  - apply Forall2_refl_all, sameButTagsDetails_refl.
  - eapply Forall2_insert_right; [apply sameButMembers_refl|done|done].
Qed.

Lemma getFiltersMetadata_view w : CatalogView w (fst (getFiltersMetadata w)).
Proof.
  unfold getFiltersMetadata.
  pose proof (getFilters_view w) as H1. destruct (getFilters w) as [w1 refs]. simpl in H1.
  set (w2 := foldl (attachCategoryFilters refs) w1 (seq 0 (length (groups w1)))).
  assert (H2 : CatalogView w1 w2) by apply CatalogView_foldl, attachCategoryFilters_view.
  pose proof (getFilters_view w2) as H3. destruct (getFilters w2) as [w3 allFilters].
  simpl in *. eauto using CatalogView_trans.
Qed.

Lemma view_getFilterRef filterId w w' :
  CatalogView w w' →
  match getFilterRef filterId w, getFilterRef filterId w' with
  | Some (i, f), Some (j, f') => i = j ∧ sameButTagsDetails f f'
  | None, None => True
  | _, _ => False
  end.
Proof.
  intros Hv. unfold getFilterRef. apply list_find_Forall2 with (R := sameButTagsDetails).
  - apply Hv.
  - intros a b ->. by destruct a.
Qed.

Lemma view_present filterId w w' :
  CatalogView w w' → is_Some (getFilter filterId w') → is_Some (getFilter filterId w).
Proof.
  intros Hv. pose proof (view_getFilterRef filterId w w' Hv) as H. unfold getFilter.
  destruct (getFilterRef filterId w) as [[i f]|], (getFilterRef filterId w') as [[j f']|];
    done.
Qed.

Lemma view_isFilterEnabled filterId w w' :
  CatalogView w w' → isFilterEnabled filterId w' = isFilterEnabled filterId w.
Proof.
  intros Hv. pose proof (view_getFilterRef filterId w w' Hv) as H.
  unfold isFilterEnabled, getFilter. rewrite (view_filtersState _ _ Hv).
  by destruct (getFilterRef filterId w) as [[i f]|], (getFilterRef filterId w') as [[j f']|].
Qed.



Lemma view_groupFlag groupId w w' :
  CatalogView w w' → groupFlag groupId w' = groupFlag groupId w.
Proof.
  intros Hv. unfold groupFlag, getGroup, getGroupRef.
  pose proof (list_find_Forall2 (λ g, Group.groupId g = groupId) sameButMembers
                                (groups w) (groups w') (view_groups _ _ Hv)) as H.
  destruct (list_find _ (groups w)) as [[i g]|], (list_find _ (groups w')) as [[j g']|];
    simpl in *.
  - destruct H as [_ [_ ->]]; [|done]. intros a b [Hid _]. by rewrite Hid.
  - destruct H. intros a b [Hid _]. by rewrite Hid.
  - destruct H. intros a b [Hid _]. by rewrite Hid.
  - done.
Qed.

(** ** Enabling a group *)

Lemma GroupMono_refl g w : GroupMono g w w.
Proof. by left. Qed.

Lemma GroupMono_trans g w1 w2 w3 :
  GroupMono g w1 w2 → GroupMono g w2 w3 → GroupMono g w1 w3.
Proof.
  intros [[Hf Hc]|(Hf & Hf' & Hc)] [[Hf2 Hc2]|(Hf2 & Hf2' & Hc2)].
  - left. split; congruence.
  - right. split_and!; congruence.
  - right. split_and!; congruence.
  - congruence.
Qed.

Lemma GroupMono_same g w w' :
  groups w' = groups w →
  groupEvents g w' = groupEvents g w →
  GroupMono g w w'.
Proof. intros Hg Hc. left. unfold groupFlag, getGroup, getGroupRef. by rewrite Hg. Qed.

Lemma groupEvents_notify_group g group w :
  groupEvents g (notifyListeners (FILTER_GROUP_ENABLE_DISABLE group) w) =
  (groupEvents g w + if (Group.groupId group =? g)%Z then 1 else 0)%nat.
Proof. unfold groupEvents. by rewrite countEvents_notifyListeners. Qed.

Lemma GroupMono_notify_filter g e w :
  isGroupEventOf g e = false → GroupMono g w (notifyListeners e w).
Proof.
  intros He. apply GroupMono_same; [apply groups_notifyListeners|].
  unfold groupEvents. rewrite countEvents_notifyListeners, He. lia.
Qed.

(** [enableGroup] on a group that is not enabled yet. *)
Lemma enableGroup_unfold groupId ref group w :
  getGroupRef groupId w = Some (ref, group) →
  truthy (Group.enabled group) = false →
  enableGroup groupId w =
  notifyListeners (FILTER_GROUP_ENABLE_DISABLE (Group.setEnabled (Some true) group))
                  (putGroup ref (Group.setEnabled (Some true) group) w).
Proof. intros Hg Ht. unfold enableGroup. by rewrite Hg, Ht. Qed.

Lemma enableGroup_enables groupId ref group w :
  getGroupRef groupId w = Some (ref, group) →
  truthy (Group.enabled group) = false →
  groupFlag groupId (enableGroup groupId w) = Some (Some true) ∧
  groupEvents groupId (enableGroup groupId w) = S (groupEvents groupId w).
Proof.
  intros Hg Ht. rewrite (enableGroup_unfold _ _ _ _ Hg Ht).
  pose proof (getGroupRef_Some _ _ _ _ Hg) as [Href Hid]. split.
  - unfold groupFlag, getGroup. rewrite getGroupRef_notifyListeners.
    by erewrite getGroupRef_putGroup_same.
  - rewrite groupEvents_notify_group. cbn [Group.setEnabled Group.groupId].
    rewrite Hid, Z.eqb_refl. unfold groupEvents, countEvents. cbn. lia.
Qed.

Lemma enableGroup_other groupId groupId' ref group w :
  getGroupRef groupId' w = Some (ref, group) →
  truthy (Group.enabled group) = false →
  groupId' ≠ groupId →
  groupFlag groupId (enableGroup groupId' w) = groupFlag groupId w ∧
  groupEvents groupId (enableGroup groupId' w) = groupEvents groupId w.
Proof.
  intros Hg Ht Hne. rewrite (enableGroup_unfold _ _ _ _ Hg Ht).
  pose proof (getGroupRef_Some _ _ _ _ Hg) as [Href Hid]. split.
  - unfold groupFlag, getGroup. rewrite getGroupRef_notifyListeners.
    by erewrite getGroupRef_putGroup_other.
  - rewrite groupEvents_notify_group. cbn [Group.setEnabled Group.groupId].
    rewrite Hid. destruct (Z.eqb_spec groupId' groupId); [done|].
    unfold groupEvents, countEvents. cbn. lia.
Qed.

Lemma implicitGroupEnable_mono g g' w : GroupMono g w (implicitGroupEnable g' w).
Proof.
  unfold implicitGroupEnable, groupHasEnabledStatus, getGroup.
  destruct (getGroupRef g' w) as [[ref group]|] eqn:Hg; simpl.
  2: { unfold enableGroup. rewrite Hg. apply GroupMono_refl. }
  destruct (Group.enabled group) as [b|] eqn:Hen; simpl; [apply GroupMono_refl|].
  assert (Ht : truthy (Group.enabled group) = false) by (by rewrite Hen).
  destruct (decide (g' = g)) as [->|Hne].
  - right. destruct (enableGroup_enables _ _ _ _ Hg Ht) as [? ?]. split_and!; try done.
    unfold groupFlag, getGroup. by rewrite Hg, <- Hen.
  - left. by eapply enableGroup_other.
Qed.

Lemma enableFilter_mono g filterId w w' :
  enableFilter filterId w = Ok w' → GroupMono g w w'.
Proof.
  unfold enableFilter. destruct (isFilterEnabled filterId w).
  { intros ->%Ok_inj. apply GroupMono_refl. }
  destruct (getFilterRef filterId w) as [[ref f]|]; [|done].
  intros <-%Ok_inj.
  eapply GroupMono_trans; [|apply GroupMono_notify_filter; done].
  eapply GroupMono_trans; [|apply implicitGroupEnable_mono].
  by apply GroupMono_same.
Qed.

Lemma markInstalled_mono g ref w : GroupMono g w (markInstalled ref w).
Proof.
  unfold markInstalled. destruct (filters w !! ref) as [f|]; [|apply GroupMono_refl].
  eapply GroupMono_trans; [|apply GroupMono_notify_filter; done].
  by apply GroupMono_same.
Qed.

(** The synchronous part of a batch over ids of the catalog returns
    normally. *)
Lemma loadNextFilter_returns g (queue : list Z) :
  ∀ w, (∀ id, id ∈ queue → is_Some (getFilter id w)) →
       ∃ w', loadNextFilter queue w = Ok w' ∧ GroupMono g w w'.
Proof.
  induction queue as [|x queue IH]; intros w Hpresent.
  { exists w. split; [done|apply GroupMono_refl]. }
  destruct (is_Some_getFilter x w) as (ref & f & Hf);
    [apply Hpresent, elem_of_cons; by left|].
  assert (Hnext : ∀ w1, Frame (eq x) w w1 → GroupMono g w w1 →
                        ∃ w', loadNextFilter queue w1 = Ok w' ∧ GroupMono g w w').
  { intros w1 HF1 HG1. destruct (IH w1) as (w' & Hw' & HG').
    - intros id Hid. eapply Frame_present; [done|]. apply Hpresent, elem_of_cons. by right.
    - exists w'. split; [done|]. by eapply GroupMono_trans. }
  cbn [loadNextFilter]. unfold addAntiBannerFilter. rewrite Hf.
  destruct (truthy (Filter.installed f)).
  { unfold batchCallback.
    destruct (enableFilter_spec x w) as (w1 & Hw1 & _ & HF1 & _).
    { by erewrite getFilterRef_getFilter. }
    rewrite Hw1. cbn [bind]. apply Hnext; [done|]. by eapply enableFilter_mono. }
  destruct (truthy (Filter.loaded f)).
  { unfold onFilterLoaded, batchCallback.
    destruct (install_enable_spec _ _ _ _ Hf) as (w1 & Hw1 & _ & HF1 & _).
    rewrite Hw1. cbn [bind]. apply Hnext; [done|].
    eapply GroupMono_trans; [apply markInstalled_mono|by eapply enableFilter_mono]. }
  rewrite deferLoad_unfold. eexists. split; [done|]. by apply GroupMono_same.
Qed.

Lemma Neutral_enableGroup g : Neutral (enableGroup g).
Proof.
  intros w. split_and!;
    [apply filters_enableGroup|apply filtersState_enableGroup|
     apply inflight_enableGroup|apply loaderCalls_enableGroup].
Qed.

Lemma lookup_present ref f w :
  filters w !! ref = Some f → is_Some (getFilter (Filter.filterId f) w).
Proof.
  intros Hf. unfold getFilter, getFilterRef. apply fmap_is_Some.
  apply list_find_elem_of with f; [|done]. by eapply list_elem_of_lookup_2.
Qed.

Lemma isGroupEnabled_groupFlag g w :
  groupFlag g w = Some (Some true) → isGroupEnabled g w = true.
Proof.
  unfold groupFlag, isGroupEnabled. destruct (getGroup g w) as [group|]; [|done].
  simpl. by intros [= ->].
Qed.

Lemma enableGroup_enabled g w :
  groupFlag g w = Some (Some true) → enableGroup g w = w.
Proof.
  unfold groupFlag, getGroup, enableGroup.
  destruct (getGroupRef g w) as [[ref group]|]; [|done]. simpl. by intros [= ->].
Qed.

Let enableFiltersGroup' :=
  enableFiltersGroup SAFARI_FILTER_ID isRecommendedFilter isMobileFilter
                     userAgent getFilterIdsForLanguage.

Lemma recommended_view groupId w : CatalogView w (fst (recommended groupId w)).
Proof.
  unfold recommended, getRecommendedFilterIdsByGroupId.
  pose proof (getFiltersMetadata_view w) as Hv.
  destruct (getFiltersMetadata w) as [w' metadata]. simpl in Hv.
  destruct (list_find _ (metaCategories metadata)) as [[k i]|]; [|done].
  by destruct (groups w' !! i).
Qed.

Lemma recommended_present groupId w id :
  id ∈ snd (recommended groupId w) →
  is_Some (getFilter id (fst (recommended groupId w))).
Proof.
  unfold recommended, getRecommendedFilterIdsByGroupId.
  destruct (getFiltersMetadata w) as [w' metadata].
  destruct (list_find _ (metaCategories metadata)) as [[k i]|];
    [|by intros ?%elem_of_nil].
  destruct (groups w' !! i) as [category|]; [|by intros ?%elem_of_nil].
  simpl. intros (ref & f & _ & Hf & <- & _)%offeredIds_elem.
  by eapply lookup_present.
Qed.


End Recommendation.

Lemma getRecommendedFilterIdsByGroupId_recommended_or_platform_witness :
  ∃ ref f,
    filters (fst (getRecommendedFilterIdsByGroupId 12 (hasTag 10) (hasTag 19) None (λ _, [])
                    1 worldPlatformFilter)) !! ref = Some f ∧
    Filter.filterId f = 12 ∧
    (12 = 12 ∨ hasTag 10 f = true).
Proof.
  apply (getRecommendedFilterIdsByGroupId_recommended_or_platform
           12 (hasTag 10) (hasTag 19) None (λ _, []) 1 worldPlatformFilter 12).
  vm_compute. by apply list_elem_of_singleton.
Defined.

(** C5 fails as stated: the platform filter 12 carries no recommended tag
    and is returned all the same; no filter of the catalog with that id
    carries the tag. *)
Lemma getRecommendedFilterIdsByGroupId_returns_untagged_platform_filter :
  let r := getRecommendedFilterIdsByGroupId 12 (hasTag 10) (hasTag 19) None (λ _, [])
             1 worldPlatformFilter in
  snd r = [12] ∧
  ¬ (∀ id, id ∈ snd r →
           ∃ f, f ∈ filters (fst r) ∧ Filter.filterId f = id ∧ hasTag 10 f = true).
Proof.
  split; [reflexivity|]. intros H.
  destruct (H 12) as (f & Hf & _ & Htag); [vm_compute; by apply list_elem_of_singleton|].
  vm_compute in Hf. apply list_elem_of_singleton in Hf. subst f. by vm_compute in Htag.
Qed.



(** ** The callback handed to the loader *)

(** For a filter that is neither installed nor loaded, [addAntiBannerFilter]
    hands the loader the closure [onFilterLoaded] over the filter object and
    the caller's callback; [loaderCallback] runs that very closure, rebuilt
    from the data it captured, on the state without the load
    ([loaderCallback_head]). *)
Lemma addAntiBannerFilter_hands_callback (loadFilterRules : Loader) filterId ref f
      (callback : bool → World → Result) w :
  getFilterRef filterId w = Some (ref, f) →
  truthy (Filter.installed f) = false →
  truthy (Filter.loaded f) = false →
  addAntiBannerFilter loadFilterRules filterId callback w =
  loadFilterRules ref (onFilterLoaded ref callback) w.
Proof. intros Hf Hi Hl. unfold addAntiBannerFilter. by rewrite Hf, Hi, Hl. Qed.

(** ** Concrete runs *)

(** [disableFilters [1; 2; 3; 1]] when 1 and 3 are enabled and 2 is not: 1
    is disabled, 3 keeps its flag, one event is emitted. *)
Example disableFilters_stops_at_second :
  let w' := disableFilters [1; 2; 3; 1] worldTwoEnabled in
  Filter.enabled <$> getFilter 1 w' = Some (Some false) ∧
  isFilterEnabled 1 w' = false ∧
  Filter.enabled <$> getFilter 3 w' = Some (Some true) ∧
  isFilterEnabled 3 w' = true ∧
  length (notifications w') = 1%nat.
Proof. by vm_compute. Qed.

(** [loadCustomFilter] without a url, and the registration callback for a
    removed custom filter that is registered again. *)
Example loadCustomFilter_without_url :
  loadCustomFilter (λ _ _ w, Throw TypeError w) None
                   (λ _ w, withLoaderCalls [1] w)
                   (Some (λ w, withLoaderCalls [2] w)) worldBatch
  = Ok (withLoaderCalls [2] worldBatch).
Proof. reflexivity. Qed.

Example customFilterRegistered_clears_removed :
  let w := withFilters [Filter.mk 1000 0 [] [] (Some "https://example.org/f.txt")
                                  None None None (Some true) []] worldBatch in
  ∃ w', customFilterRegistered (λ f w, withLoaderCalls [Filter.filterId f] w) (λ w, w)
                               (Some 1000) w = Ok w' ∧
        Filter.removed <$> getFilter 1000 w' = Some None ∧
        loaderCalls w' = [1000].
Proof. eexists. split_and!; by vm_compute. Qed.

(** * Further properties *)

(** ** The visible filters *)

Lemma visibleFilters_elem w ref :
  ref ∈ visibleFilters w ↔
  ∃ f, filters w !! ref = Some f ∧ truthy (Filter.removed f) = false.
Proof.
  unfold visibleFilters. rewrite list_elem_of_In, List.filter_In, List.in_seq. split.
  - intros [_ H]. destruct (filters w !! ref) as [f|]; [|done].
    exists f. split; [done|]. by destruct (truthy (Filter.removed f)).
  - intros (f & Hf & Hr). rewrite Hf, Hr. split; [|done].
    apply lookup_lt_Some in Hf. lia.
Qed.

Lemma sameButTagsDetails_lookup (l l' : list Filter.t) ref f' :
  Forall2 sameButTagsDetails l l' → l' !! ref = Some f' →
  ∃ f, l !! ref = Some f ∧ sameButTagsDetails f f'.
Proof. intros HF Hf'. by destruct (Forall2_lookup_r _ _ _ _ _ HF Hf') as (f & ? & ?); eauto. Qed.

Lemma sameButTagsDetails_fields f f' :
  sameButTagsDetails f f' →
  Filter.filterId f' = Filter.filterId f ∧ Filter.groupId f' = Filter.groupId f ∧
  Filter.removed f' = Filter.removed f.
Proof. intros ->. by destruct f. Qed.

(** X1: the listing of the category selector returns exactly the filter
    objects of the catalog that are not removed, each once and in catalog
    order, and they are still not removed in the state it leaves. *)
Theorem getFilters_lists_unremoved_filters (w : World) :
  snd (getFilters w) `sublist_of` seq 0 (length (filters w)) ∧
  (∀ ref, ref ∈ snd (getFilters w) ↔
          ∃ f, filters w !! ref = Some f ∧ truthy (Filter.removed f) = false) ∧
  (∀ ref f', filters (fst (getFilters w)) !! ref = Some f' →
             (ref ∈ snd (getFilters w) ↔ truthy (Filter.removed f') = false)).
Proof.
  split_and!.
  - apply filter_sublist.
  - intros ref. apply visibleFilters_elem.
  - intros ref f' Hf'. cbn [getFilters snd].
    destruct (sameButTagsDetails_lookup _ _ _ _ (view_filters _ _ (getFilters_view w)) Hf')
      as (f & Hf & Hsame).
    destruct (sameButTagsDetails_fields _ _ Hsame) as (_ & _ & ->).
    rewrite visibleFilters_elem. split.
    + intros (f0 & Hf0 & Hr). congruence.
    + intros Hr. eauto.
Qed.

(** ** The recommendation predicate, case by case *)

(** X2: a filter is offered exactly when it is the platform filter, or it is
    recommended, suits the locale when it has languages, and is either not a
    mobile filter or runs where the user agent names a mobile device. *)
Theorem isOfferedFilter_iff
        (isRecommendedFilter isMobileFilter : Filter.t → bool)
        (userAgent : option string)
        (filter : Filter.t) (langSuitableFilters : list Z) (safariFilterId : Z) :
  isOfferedFilter isRecommendedFilter isMobileFilter userAgent
                  filter langSuitableFilters safariFilterId = true ↔
  Filter.filterId filter = safariFilterId ∨
  (isRecommendedFilter filter = true ∧
   (Filter.languages filter = [] ∨ Filter.filterId filter ∈ langSuitableFilters) ∧
   (isMobileFilter filter = false ∨
    ∃ ua, userAgent = Some ua ∧ ua ≠ "" ∧ matchesMobileDevice ua = true)).
Proof.
  unfold isOfferedFilter, checkMobile.
  destruct (Z.eqb_spec safariFilterId (Filter.filterId filter)) as [Heq|Hne].
  { split; [by left|done]. }
  assert (Hmobile :
    (if negb (isMobileFilter filter) then true
     else if truthyString userAgent
          then match userAgent with Some ua => matchesMobileDevice ua | None => false end
          else false) = true ↔
    (isMobileFilter filter = false ∨
     ∃ ua, userAgent = Some ua ∧ ua ≠ "" ∧ matchesMobileDevice ua = true)).
  { destruct (isMobileFilter filter); simpl; [|by split; [left|]].
    destruct userAgent as [ua|]; simpl.
    - destruct (String.eqb_spec ua ""); simpl.
      + split; [done|]. intros [?|(ua' & [= <-] & ? & _)]; done.
      + split; [intros ?; right; by exists ua|].
        intros [?|(ua' & [= <-] & _ & ?)]; done.
    - split; [done|]. intros [?|(ua' & ? & _)]; done. }
  destruct (isRecommendedFilter filter); simpl.
  2: { split; [done|]. intros [?|(? & _)]; [congruence|done]. }
  destruct (Filter.languages filter) as [|lang langs] eqn:Hl; simpl.
  - rewrite Hmobile. split; [intros ?; right; split_and!; auto|].
    intros [?|(_ & _ & ?)]; [congruence|done].
  - destruct (bool_decide_reflect (Filter.filterId filter ∈ langSuitableFilters)).
    + rewrite Hmobile. split; [intros ?; right; split_and!; auto|].
      intros [?|(_ & _ & ?)]; [congruence|done].
    + split; [done|]. intros [?|(_ & [?|?] & _)]; [congruence|done|done].
Qed.

(** ** Loops that rewrite every object of a store *)

(** A loop over the references [a .. a+k-1] whose step [i] rewrites the
    object [i] only. *)
Lemma foldl_seq_lookup {A} (g : nat → A → A) (l : list A) (a k j : nat) :
  foldl (λ acc i, match acc !! i with Some x => <[i := g i x]> acc | None => acc end)
        l (seq a k) !! j =
  if bool_decide (a ≤ j < a + k)%nat then g j <$> l !! j else l !! j.
Proof.
  revert l a. induction k as [|k IH]; intros l a; simpl.
  { rewrite bool_decide_eq_false_2 by lia. done. }
  rewrite IH. destruct (decide (j = a)) as [->|Hne].
  - rewrite bool_decide_eq_false_2, bool_decide_eq_true_2 by lia.
    destruct (l !! a) as [x|] eqn:Hx; simpl.
    + rewrite list_lookup_insert_eq by (by eapply lookup_lt_Some). done.
    + by rewrite Hx.
  - assert (Hl : (match l !! a with Some x => <[a := g a x]> l | None => l end) !! j = l !! j).
    { destruct (l !! a); [by rewrite list_lookup_insert_ne|done]. }
    rewrite Hl. destruct (decide (S a ≤ j < S a + k)%nat).
    + by rewrite !bool_decide_eq_true_2 by lia.
    + by rewrite !bool_decide_eq_false_2 by lia.
Qed.

Lemma foldl_seq_all {A} (g : nat → A → A) (l : list A) (j : nat) :
  foldl (λ acc i, match acc !! i with Some x => <[i := g i x]> acc | None => acc end)
        l (seq 0 (length l)) !! j = g j <$> l !! j.
Proof.
  rewrite foldl_seq_lookup. destruct (l !! j) as [x|] eqn:Hx.
  - rewrite bool_decide_eq_true_2; [done|]. apply lookup_lt_Some in Hx. lia.
  - by destruct (bool_decide _).
Qed.

(** ** Categories of the metadata *)

Lemma groups_annotateFilter w ref : groups (annotateFilter w ref) = groups w.
Proof.
  unfold annotateFilter. destruct (filters w !! ref); [|done].
  by destruct (foldl annotateTag _ _).
Qed.

Lemma groups_getFilters w : groups (fst (getFilters w)) = groups w.
Proof.
  unfold getFilters. simpl. generalize (visibleFilters w). intros l. revert w.
  induction l as [|ref l IH]; intros w; simpl; [done|].
  by rewrite IH, groups_annotateFilter.
Qed.

Lemma visibleFilters_same (w w' : World) :
  Forall2 sameButTagsDetails (filters w) (filters w') →
  visibleFilters w' = visibleFilters w.
Proof.
  intros HF. unfold visibleFilters. rewrite <- (Forall2_length _ _ _ HF).
  apply List.filter_ext. intros ref.
  pose proof (proj1 (Forall2_lookup _ _ _) HF ref) as H.
  destruct H as [f f' Hsame|]; [|done].
  by destruct (sameButTagsDetails_fields _ _ Hsame) as (_ & _ & ->).
Qed.

Lemma selectFiltersByGroupId_same groupId refs (w w' : World) :
  Forall2 sameButTagsDetails (filters w) (filters w') →
  selectFiltersByGroupId groupId refs w' = selectFiltersByGroupId groupId refs w.
Proof.
  intros HF. unfold selectFiltersByGroupId. apply List.filter_ext. intros ref.
  pose proof (proj1 (Forall2_lookup _ _ _) HF ref) as H.
  destruct H as [f f' Hsame|]; [|done].
  by destruct (sameButTagsDetails_fields _ _ Hsame) as (_ & -> & _).
Qed.

(** The loop of [getFiltersMetadata] writes the [filters] property of every
    group and nothing else; [w0] is the state when the loop starts. *)
Lemma attachCategoryFilters_loop refs (w0 : World) (l : list nat) w :
  filters w = filters w0 →
  filters (foldl (attachCategoryFilters refs) w l) = filters w0 ∧
  groups (foldl (attachCategoryFilters refs) w l) =
    foldl (λ acc i, match acc !! i with
                    | Some c => <[i := Group.setFilters
                                         (selectFiltersByGroupId (Group.groupId c) refs w0) c]> acc
                    | None => acc
                    end) (groups w) l.
Proof.
  revert w. induction l as [|i l IH]; intros w Hw; simpl; [done|].
  assert (Hf : filters (attachCategoryFilters refs w i) = filters w0).
  { unfold attachCategoryFilters. by destruct (groups w !! i). }
  destruct (IH (attachCategoryFilters refs w i) Hf) as [-> ->]. split; [done|].
  f_equal. unfold attachCategoryFilters, selectFiltersByGroupId. rewrite Hw.
  by destruct (groups w !! i).
Qed.

Lemma getFiltersMetadata_unfold w :
  getFiltersMetadata w =
  (fst (getFilters
          (foldl (attachCategoryFilters (visibleFilters w)) (fst (getFilters w))
                 (seq 0 (length (groups w))))),
   mkMetadata
     (visibleFilters
        (foldl (attachCategoryFilters (visibleFilters w)) (fst (getFilters w))
               (seq 0 (length (groups w)))))
     (seq 0 (length (groups w)))).
Proof.
  unfold getFiltersMetadata. cbn [getFilters fst snd].
  by rewrite (groups_getFilters w : groups (foldl annotateFilter w (visibleFilters w)) = _).
Qed.

Lemma getFiltersMetadata_group w i g :
  groups w !! i = Some g →
  groups (fst (getFiltersMetadata w)) !! i =
  Some (Group.setFilters
          (selectFiltersByGroupId (Group.groupId g) (visibleFilters w) w) g).
Proof.
  intros Hg. rewrite getFiltersMetadata_unfold. cbn [fst].
  rewrite groups_getFilters.
  destruct (attachCategoryFilters_loop (visibleFilters w) (fst (getFilters w))
              (seq 0 (length (groups w))) (fst (getFilters w)) eq_refl) as [_ ->].
  rewrite groups_getFilters.
  rewrite (foldl_seq_all
             (λ _ c, Group.setFilters
                       (selectFiltersByGroupId (Group.groupId c) (visibleFilters w)
                                               (fst (getFilters w))) c)).
  rewrite Hg. simpl. do 2 f_equal.
  apply selectFiltersByGroupId_same, (view_filters _ _ (getFilters_view w)).
Qed.

Lemma getFiltersMetadata_filters w :
  metaFilters (snd (getFiltersMetadata w)) = visibleFilters w ∧
  metaCategories (snd (getFiltersMetadata w)) = seq 0 (length (groups w)).
Proof.
  rewrite getFiltersMetadata_unfold. cbn [snd metaFilters metaCategories].
  split; [|done]. apply visibleFilters_same.
  destruct (attachCategoryFilters_loop (visibleFilters w) (fst (getFilters w))
              (seq 0 (length (groups w))) (fst (getFilters w)) eq_refl) as [-> _].
  apply (view_filters _ _ (getFilters_view w)).
Qed.

(** X3: the metadata lists the visible filters and all the groups, in
    catalog order, and attaches to every group the visible filters of that
    group, in the order of the listing; the group is otherwise as it was. *)
Theorem getFiltersMetadata_categories (w : World) :
  metaFilters (snd (getFiltersMetadata w)) = snd (getFilters w) ∧
  metaCategories (snd (getFiltersMetadata w)) = seq 0 (length (groups w)) ∧
  length (groups (fst (getFiltersMetadata w))) = length (groups w) ∧
  ∀ i g, groups w !! i = Some g →
         ∃ g', groups (fst (getFiltersMetadata w)) !! i = Some g' ∧
               Group.groupId g' = Group.groupId g ∧
               Group.enabled g' = Group.enabled g ∧
               ∃ members, Group.filters g' = Some members ∧
                 members `sublist_of` snd (getFilters w) ∧
                 ∀ ref, ref ∈ members ↔
                        ref ∈ snd (getFilters w) ∧
                        Filter.groupId <$> filters w !! ref = Some (Group.groupId g).
Proof.
  destruct (getFiltersMetadata_filters w) as [Hf Hc]. split_and!; [done|done|..].
  - symmetry. apply (Forall2_length _ _ _ (view_groups _ _ (getFiltersMetadata_view w))).
  - intros i g Hg. eexists. split; [by apply getFiltersMetadata_group|].
    split_and!; [done|done|]. eexists. split; [done|]. cbn [getFilters snd]. split.
    + apply filter_sublist.
    + intros ref. unfold selectFiltersByGroupId.
      rewrite list_elem_of_In, List.filter_In, <- list_elem_of_In.
      destruct (filters w !! ref) as [f|]; simpl; [|by split; intros [_ ?]].
      destruct (Z.eqb_spec (Filter.groupId f) (Group.groupId g)) as [Heq|Hne].
      * rewrite Heq. by split; intros [? _].
      * split; intros [? H]; [done|]. by injection H.
Qed.

(** ** Recommended filters: unknown groups, removed filters *)

Section RecommendedIds.

Variable SAFARI_FILTER_ID : Z.
Variable isRecommendedFilter : Filter.t → bool.
Variable isMobileFilter : Filter.t → bool.
Variable userAgent : option string.
Variable getFilterIdsForLanguage : list Filter.t → list Z.

Let recommended :=
  getRecommendedFilterIdsByGroupId SAFARI_FILTER_ID isRecommendedFilter isMobileFilter
                                   userAgent getFilterIdsForLanguage.

Lemma sameButMembers_lookup (l l' : list Group.t) i g' :
  Forall2 sameButMembers l l' → l' !! i = Some g' →
  ∃ g, l !! i = Some g ∧ Group.groupId g' = Group.groupId g.
Proof.
  intros HF Hg'. destruct (Forall2_lookup_r _ _ _ _ _ HF Hg') as (g & ? & [? _]). eauto.
Qed.

(** The category that the scan of [getRecommendedFilterIdsByGroupId] stops
    at, if any. *)
Lemma recommended_category groupId w id :
  id ∈ snd (recommended groupId w) →
  ∃ i g, groups w !! i = Some g ∧ Group.groupId g = groupId ∧
         id ∈ offeredIds SAFARI_FILTER_ID isRecommendedFilter isMobileFilter userAgent
                         (fst (getFiltersMetadata w))
                         (getFilterIdsForLanguage (filters (fst (getFiltersMetadata w))))
                         (selectFiltersByGroupId groupId (visibleFilters w) w).
Proof.
  unfold recommended, getRecommendedFilterIdsByGroupId.
  pose proof (getFiltersMetadata_group w) as Hgroup.
  pose proof (view_groups _ _ (getFiltersMetadata_view w)) as Hview.
  destruct (getFiltersMetadata w) as [w' metadata]. cbn [fst snd] in *.
  destruct (list_find _ (metaCategories metadata)) as [[k i]|] eqn:Hfind;
    [|by intros ?%elem_of_nil].
  apply list_find_Some in Hfind as (_ & HP & _).
  destruct (groups w' !! i) as [category|] eqn:Hcat; [|by intros ?%elem_of_nil].
  destruct (sameButMembers_lookup _ _ _ _ Hview Hcat) as (g & Hg & Hid).
  rewrite (Hgroup i g Hg) in Hcat. injection Hcat as <-.
  simpl in HP. injection HP as HP. cbn [snd Group.filters Group.setFilters default].
  rewrite HP. intros Hin. exists i, g. by split_and!.
Qed.

(** X4: for a group id that no group of the catalog has,
    [getRecommendedFilterIdsByGroupId] returns the empty list. *)
Theorem getRecommendedFilterIdsByGroupId_unknown_group (groupId : Z) (w : World) :
  (∀ g, g ∈ groups w → Group.groupId g ≠ groupId) →
  snd (recommended groupId w) = [].
Proof.
  intros Hunknown. destruct (snd (recommended groupId w)) as [|id ids] eqn:Hr; [done|].
  destruct (recommended_category groupId w id) as (i & g & Hg & Hid & _).
  { rewrite Hr. apply elem_of_cons. by left. }
  exfalso. eapply Hunknown; [|exact Hid]. by eapply list_elem_of_lookup_2.
Qed.

(** X5: every id that [getRecommendedFilterIdsByGroupId] returns is the id
    of a filter object of the catalog that belongs to the group and is not
    removed. *)
Theorem getRecommendedFilterIdsByGroupId_visible_members
        (groupId : Z) (w : World) (id : Z) :
  id ∈ snd (recommended groupId w) →
  ∃ ref f, filters w !! ref = Some f ∧
           Filter.filterId f = id ∧
           Filter.groupId f = groupId ∧
           truthy (Filter.removed f) = false.
Proof.
  intros (i & g & _ & _ & Hin)%recommended_category.
  apply (offeredIds_elem _ _ _ _ getFilterIdsForLanguage) in Hin
    as (ref & f' & Href & Hf' & Hid & _).
  unfold selectFiltersByGroupId in Href.
  apply list_elem_of_In, List.filter_In in Href as [Hvis Hgid].
  apply list_elem_of_In, visibleFilters_elem in Hvis as (f & Hf & Hremoved).
  rewrite Hf in Hgid. apply Z.eqb_eq in Hgid.
  destruct (sameButTagsDetails_lookup _ _ _ _
              (view_filters _ _ (getFiltersMetadata_view w)) Hf') as (f0 & Hf0 & Hsame).
  destruct (sameButTagsDetails_fields _ _ Hsame) as (Hid' & _ & _).
  exists ref, f. split_and!; try done. congruence.
Qed.

End RecommendedIds.

Lemma getRecommendedFilterIdsByGroupId_visible_members_witness :
  ∃ ref f, filters worldPlatformFilter !! ref = Some f ∧
           Filter.filterId f = 12 ∧ Filter.groupId f = 1 ∧
           truthy (Filter.removed f) = false.
Proof.
  apply (getRecommendedFilterIdsByGroupId_visible_members
           12 (hasTag 10) (hasTag 19) None (λ _, []) 1 worldPlatformFilter 12).
  vm_compute. by apply list_elem_of_singleton.
Defined.

Lemma getRecommendedFilterIdsByGroupId_unknown_group_witness :
  snd (getRecommendedFilterIdsByGroupId 12 (hasTag 10) (hasTag 19) None (λ _, [])
         7 worldPlatformFilter) = [].
Proof.
  apply (getRecommendedFilterIdsByGroupId_unknown_group
           12 (hasTag 10) (hasTag 19) None (λ _, []) 7 worldPlatformFilter).
  intros g Hg. vm_compute in Hg. apply list_elem_of_singleton in Hg. by subst g.
Defined.

(** ** Tags that the listing hides or keeps verbatim *)

Lemma TagsKept_refl T : TagsKept T T.
Proof. apply Forall2_refl_all. done. Qed.

Lemma annotateTag_kept T0 T tagsDetails tagId :
  TagsKept T0 T → NoneHidden T0 tagsDetails →
  TagsKept T0 (fst (annotateTag (T, tagsDetails) tagId)) ∧
  NoneHidden T0 (snd (annotateTag (T, tagsDetails) tagId)).
Proof.
  intros HT Htd. pose proof (annotateTag_cases T tagsDetails tagId) as Hcases.
  destruct (list_find _ T) as [[ref tag]|] eqn:Hfind; [|by rewrite Hcases].
  apply list_find_Some in Hfind as (Href & _ & _).
  destruct (Forall2_lookup_r _ _ _ _ _ HT Href) as (t0 & Ht0 & Hid & Hkeep).
  fold (hiddenKeyword (Tag.keyword tag)) in Hcases.
  fold (verbatimKeyword (Tag.keyword tag)) in Hcases.
  destruct (hiddenKeyword (Tag.keyword tag)) eqn:Hhidden; [by rewrite Hcases|].
  assert (Ht0hidden : hiddenKeyword (Tag.keyword t0) = false).
  { destruct (hiddenKeyword (Tag.keyword t0)) eqn:Hh; [|done].
    rewrite Hkeep in Hhidden by done. congruence. }
  assert (Hpush : NoneHidden T0 (tagsDetails ++ [ref])).
  { intros r [Hr| ->%list_elem_of_singleton]%elem_of_app; [by apply Htd|]. eauto. }
  destruct (verbatimKeyword (Tag.keyword tag)) eqn:Hverb; rewrite Hcases; [done|].
  split; [|done]. cbn [fst]. unfold TagsKept.
  rewrite <- (list_insert_id T0 ref t0 Ht0). apply Forall2_insert; [done|].
  split; [done|]. intros Hprot. rewrite Hkeep in Hhidden, Hverb by done.
  rewrite Ht0hidden in Hprot. simpl in Hprot. congruence.
Qed.

Lemma annotateTags_kept T0 (tagIds : list Z) T tagsDetails :
  TagsKept T0 T → NoneHidden T0 tagsDetails →
  TagsKept T0 (fst (foldl annotateTag (T, tagsDetails) tagIds)) ∧
  NoneHidden T0 (snd (foldl annotateTag (T, tagsDetails) tagIds)).
Proof.
  revert T tagsDetails. induction tagIds as [|tagId tagIds IH]; intros T td HT Htd; [done|].
  cbn [foldl]. destruct (annotateTag_kept T0 T td tagId HT Htd) as [HT' Htd'].
  destruct (annotateTag (T, td) tagId) as [T' td']. by apply IH.
Qed.

Lemma annotateFilter_kept T0 w ref :
  TagsKept T0 (tags w) →
  TagsKept T0 (tags (annotateFilter w ref)) ∧
  (∀ f', filters (annotateFilter w ref) !! ref = Some f' →
         NoneHidden T0 (Filter.tagsDetails f')) ∧
  (∀ j, j ≠ ref → filters (annotateFilter w ref) !! j = filters w !! j).
Proof.
  intros HT. unfold annotateFilter.
  destruct (filters w !! ref) as [f|] eqn:Hf; [|by rewrite Hf].
  destruct (annotateTags_kept T0 (Filter.tags f) (tags w) []) as [HT' Htd'];
    [done|by intros r ?%elem_of_nil|].
  destruct (foldl annotateTag (tags w, []) (Filter.tags f)) as [T' td].
  cbn [fst snd] in *. unfold putFilter. cbn. split_and!; [done| |].
  - rewrite list_lookup_insert_eq by (by eapply lookup_lt_Some). by intros f' [= <-].
  - intros j Hj. by rewrite list_lookup_insert_ne.
Qed.

Lemma annotateFilters_kept T0 (refs : list nat) :
  NoDup refs →
  ∀ w, TagsKept T0 (tags w) →
       TagsKept T0 (tags (foldl annotateFilter w refs)) ∧
       ∀ ref f', ref ∈ refs → filters (foldl annotateFilter w refs) !! ref = Some f' →
                 NoneHidden T0 (Filter.tagsDetails f').
Proof.
  induction refs as [|ref refs IH]; intros Hnd w HT.
  { split; [done|]. by intros ? ? ?%elem_of_nil. }
  apply NoDup_cons in Hnd as [Href Hnd]. simpl.
  destruct (annotateFilter_kept T0 w ref HT) as (HT1 & Hnew & _).
  destruct (IH Hnd (annotateFilter w ref) HT1) as [HT' Hrest]. split; [done|].
  intros j f' [->|Hj]%elem_of_cons Hf'; [|by eapply Hrest].
  apply Hnew. rewrite <- Hf'. symmetry. clear -Href.
  generalize (annotateFilter w ref). intros w1. revert w1.
  induction refs as [|r refs IH]; intros w1; simpl; [done|].
  apply not_elem_of_cons in Href as [Hne Href]. rewrite (IH Href).
  destruct (annotateFilter_kept (tags w1) w1 r (TagsKept_refl _)) as (_ & _ & Hother).
  by apply Hother.
Qed.

Lemma visibleFilters_NoDup w : NoDup (visibleFilters w).
Proof. eapply sublist_NoDup; [apply NoDup_seq|apply filter_sublist]. Qed.

(** X6: the listing never touches a tag whose keyword starts with
    [reference:] or [lang:], and the [tagsDetails] of a listed filter never
    refers to a tag that had a [reference:] keyword; the tag store keeps its
    tag ids. *)
Theorem getFilters_keeps_reference_and_lang_tags (w : World) :
  Forall2 (λ t0 t, Tag.tagId t = Tag.tagId t0) (tags w) (tags (fst (getFilters w))) ∧
  (∀ i t, tags w !! i = Some t →
          startsWith (Tag.keyword t) "reference:" || startsWith (Tag.keyword t) "lang:" = true →
          tags (fst (getFilters w)) !! i = Some t) ∧
  (∀ ref f' r, ref ∈ snd (getFilters w) →
               filters (fst (getFilters w)) !! ref = Some f' →
               r ∈ Filter.tagsDetails f' →
               ∃ t0, tags w !! r = Some t0 ∧
                     startsWith (Tag.keyword t0) "reference:" = false).
Proof.
  destruct (annotateFilters_kept (tags w) (visibleFilters w) (visibleFilters_NoDup w)
                                 w (TagsKept_refl _)) as [HT Hlisted].
  cbn [getFilters fst snd]. split_and!.
  - eapply Forall2_impl; [exact HT|]. by intros t0 t [? _].
  - intros i t Ht Hprot.
    destruct (Forall2_lookup_l _ _ _ _ _ HT Ht) as (t' & Ht' & _ & Hkeep).
    rewrite Ht'. f_equal. by apply Hkeep.
  - intros ref f' r Href Hf' Hr. by apply (Hlisted ref f' Href Hf' r).
Qed.

(** ** What the listing shows when keywords have one prefix *)

Arguments annotateTag : simpl never.

Lemma TagsShown_refl T : TagsShown T T.
Proof. apply Forall2_refl_all. intros t. split; [done|by left]. Qed.

Lemma SinglePrefix_agree k0 kw :
  SinglePrefix k0 →
  kw = k0 ∨ (hiddenKeyword k0 = false ∧ kw = displayKeyword k0) →
  hiddenKeyword kw = hiddenKeyword k0 ∧
  (hiddenKeyword k0 = false →
   verbatimKeyword kw = verbatimKeyword k0 ∧ displayKeyword kw = displayKeyword k0).
Proof.
  intros Hsingle [->|[Hh ->]]; [done|]. unfold displayKeyword.
  destruct (verbatimKeyword k0) eqn:Hv; [by rewrite Hv|].
  destruct Hsingle as [?|[?|(Hh' & Hv' & Hs)]]; [congruence..|].
  rewrite Hh', Hv', Hs. done.
Qed.

Lemma annotateTag_shown T0 T tagsDetails tagId :
  (∀ t0, t0 ∈ T0 → SinglePrefix (Tag.keyword t0)) →
  TagsShown T0 T →
  TagsShown T0 (fst (annotateTag (T, tagsDetails) tagId)) ∧
  snd (annotateTag (T, tagsDetails) tagId) = tagsDetails ++ expectedRefs T0 [tagId] ∧
  (∀ r, Displayed T0 T r → Displayed T0 (fst (annotateTag (T, tagsDetails) tagId)) r) ∧
  (∀ r, r ∈ expectedRefs T0 [tagId] →
        Displayed T0 (fst (annotateTag (T, tagsDetails) tagId)) r).
Proof.
  intros Hsingle HT. pose proof (annotateTag_cases T tagsDetails tagId) as Hcases.
  pose proof (list_find_Forall2 (λ tag, Tag.tagId tag = tagId) _ T0 T HT) as Hfind.
  unfold expectedRefs. cbn [omap list_omap].
  destruct (list_find _ T0) as [[r0 t0]|] eqn:Hfind0,
           (list_find _ T) as [[ref tag]|] eqn:HfindT;
    try (exfalso; apply Hfind; intros a b [Hid _]; by rewrite Hid).
  2: { rewrite Hcases. cbn. rewrite app_nil_r.
       split_and!; try done. by intros r ?%elem_of_nil. }
  destruct Hfind as [<- [Hid Hkw]]; [intros a b [Hab _]; by rewrite Hab|].
  apply list_find_Some in Hfind0 as (Ht0 & _ & _).
  apply list_find_Some in HfindT as (Href & _ & _).
  assert (Hs0 : SinglePrefix (Tag.keyword t0)) by (by eapply Hsingle, list_elem_of_lookup_2).
  destruct (SinglePrefix_agree _ _ Hs0 Hkw) as [Hh Hrest].
  fold (hiddenKeyword (Tag.keyword tag)) in Hcases.
  fold (verbatimKeyword (Tag.keyword tag)) in Hcases.
  fold (stripPrefix (Tag.keyword tag)) in Hcases.
  rewrite Hh in Hcases. destruct (hiddenKeyword (Tag.keyword t0)) eqn:Hh0.
  { rewrite Hcases. cbn. rewrite app_nil_r.
    split_and!; try done. by intros r ?%elem_of_nil. }
  destruct (Hrest eq_refl) as [Hv Hd].
  destruct (verbatimKeyword (Tag.keyword tag)) eqn:HvT; rewrite Hcases; cbn.
  - split_and!; try done. intros r ->%list_elem_of_singleton.
    exists t0, tag. split_and!; try done. rewrite <- Hd. unfold displayKeyword. by rewrite HvT.
  - assert (Hnew : stripPrefix (Tag.keyword tag) = displayKeyword (Tag.keyword t0)).
    { rewrite <- Hd. unfold displayKeyword. by rewrite HvT. }
    assert (Hlt : (r0 < length T)%nat) by (by eapply lookup_lt_Some).
    split_and!; try done.
    + unfold TagsShown. rewrite <- (list_insert_id T0 r0 t0 Ht0).
      apply Forall2_insert; [done|]. split; [done|]. by right.
    + intros r (t0' & t' & Ht0' & Ht' & Hh' & Hk'). destruct (decide (r = r0)) as [->|Hne].
      * exists t0, (Tag.mk (Tag.tagId tag) (stripPrefix (Tag.keyword tag))).
        split_and!; try done. by apply list_lookup_insert_eq.
      * exists t0', t'. split_and!; try done. by rewrite list_lookup_insert_ne.
    + intros r ->%list_elem_of_singleton.
      exists t0, (Tag.mk (Tag.tagId tag) (stripPrefix (Tag.keyword tag))).
      split_and!; try done. by apply list_lookup_insert_eq.
Qed.

Lemma expectedRefs_app T0 ids ids' :
  expectedRefs T0 (ids ++ ids') = expectedRefs T0 ids ++ expectedRefs T0 ids'.
Proof. unfold expectedRefs. apply omap_app. Qed.

Lemma annotateTags_shown T0 (tagIds : list Z) T tagsDetails :
  (∀ t0, t0 ∈ T0 → SinglePrefix (Tag.keyword t0)) →
  TagsShown T0 T →
  TagsShown T0 (fst (foldl annotateTag (T, tagsDetails) tagIds)) ∧
  snd (foldl annotateTag (T, tagsDetails) tagIds) = tagsDetails ++ expectedRefs T0 tagIds ∧
  (∀ r, Displayed T0 T r → Displayed T0 (fst (foldl annotateTag (T, tagsDetails) tagIds)) r) ∧
  (∀ r, r ∈ expectedRefs T0 tagIds →
        Displayed T0 (fst (foldl annotateTag (T, tagsDetails) tagIds)) r).
Proof.
  intros Hsingle. revert T tagsDetails.
  induction tagIds as [|tagId tagIds IH]; intros T td HT.
  { cbn. rewrite app_nil_r. split_and!; try done. by intros r ?%elem_of_nil. }
  cbn [foldl].
  destruct (annotateTag_shown T0 T td tagId Hsingle HT) as (HT1 & Htd1 & Hkeep1 & Hnew1).
  destruct (annotateTag (T, td) tagId) as [T1 td1]. cbn [fst snd] in *.
  destruct (IH T1 td1 HT1) as (HT' & Htd' & Hkeep' & Hnew').
  change (tagId :: tagIds) with ([tagId] ++ tagIds). rewrite expectedRefs_app.
  split_and!; [done|by rewrite Htd', Htd1, app_assoc|by auto|].
  intros r [Hr|Hr]%elem_of_app; auto.
Qed.

Lemma annotateFilter_shown T0 w ref f :
  (∀ t0, t0 ∈ T0 → SinglePrefix (Tag.keyword t0)) →
  TagsShown T0 (tags w) →
  filters w !! ref = Some f →
  TagsShown T0 (tags (annotateFilter w ref)) ∧
  filters (annotateFilter w ref) =
    <[ref := Filter.setTagsDetails (expectedRefs T0 (Filter.tags f)) f]> (filters w) ∧
  (∀ r, Displayed T0 (tags w) r → Displayed T0 (tags (annotateFilter w ref)) r) ∧
  (∀ r, r ∈ expectedRefs T0 (Filter.tags f) →
        Displayed T0 (tags (annotateFilter w ref)) r).
Proof.
  intros Hsingle HT Hf. unfold annotateFilter. rewrite Hf.
  destruct (annotateTags_shown T0 (Filter.tags f) (tags w) [] Hsingle HT)
    as (HT' & Htd & Hkeep & Hnew).
  destruct (foldl annotateTag (tags w, []) (Filter.tags f)) as [T' td].
  cbn [fst snd] in *. subst td. by split_and!.
Qed.

Lemma annotateFilter_tags_missing w ref :
  filters w !! ref = None → annotateFilter w ref = w.
Proof. intros H. unfold annotateFilter. by rewrite H. Qed.

Lemma annotateFilters_shown T0 (refs : list nat) :
  (∀ t0, t0 ∈ T0 → SinglePrefix (Tag.keyword t0)) →
  NoDup refs →
  ∀ w, TagsShown T0 (tags w) →
       TagsShown T0 (tags (foldl annotateFilter w refs)) ∧
       (∀ r, Displayed T0 (tags w) r → Displayed T0 (tags (foldl annotateFilter w refs)) r) ∧
       (∀ j, j ∉ refs → filters (foldl annotateFilter w refs) !! j = filters w !! j) ∧
       (∀ ref f, ref ∈ refs → filters w !! ref = Some f →
                 filters (foldl annotateFilter w refs) !! ref =
                   Some (Filter.setTagsDetails (expectedRefs T0 (Filter.tags f)) f) ∧
                 ∀ r, r ∈ expectedRefs T0 (Filter.tags f) →
                      Displayed T0 (tags (foldl annotateFilter w refs)) r).
Proof.
  intros Hsingle. induction refs as [|ref refs IH]; intros Hnd w HT.
  { split_and!; try done. by intros ? ? ?%elem_of_nil. }
  apply NoDup_cons in Hnd as [Href Hnd]. cbn [foldl].
  destruct (filters w !! ref) as [f|] eqn:Hf.
  - destruct (annotateFilter_shown T0 w ref f Hsingle HT Hf) as (HT1 & Hf1 & Hkeep1 & Hnew1).
    destruct (IH Hnd (annotateFilter w ref) HT1) as (HT' & Hkeep' & Hother' & Hrefs').
    assert (Hlt : (ref < length (filters w))%nat) by (by eapply lookup_lt_Some).
    split_and!; [done|by auto| |].
    + intros j [Hj Hjr]%not_elem_of_cons. rewrite (Hother' j Hjr), Hf1.
      by rewrite list_lookup_insert_ne.
    + intros j fj [->|Hj]%elem_of_cons Hfj.
      * rewrite Hf in Hfj. injection Hfj as <-. split.
        { rewrite (Hother' ref Href), Hf1. by apply list_lookup_insert_eq. }
        intros r Hr. by apply Hkeep', Hnew1.
      * apply Hrefs'; [done|]. rewrite Hf1, list_lookup_insert_ne; [done|].
        intros ->. done.
  - rewrite (annotateFilter_tags_missing w ref Hf).
    destruct (IH Hnd w HT) as (HT' & Hkeep' & Hother' & Hrefs').
    split_and!; [done|done| |].
    + intros j [Hj Hjr]%not_elem_of_cons. by apply Hother'.
    + intros j fj [->|Hj]%elem_of_cons Hfj; [congruence|by apply Hrefs'].
Qed.

Lemma shownKeywords_of_refs T0 T (tagIds : list Z) :
  (∀ r, r ∈ expectedRefs T0 tagIds → Displayed T0 T r) →
  omap (λ r, Tag.keyword <$> T !! r) (expectedRefs T0 tagIds) = shownKeywords T0 tagIds.
Proof.
  induction tagIds as [|tagId tagIds IH]; intros Hd; [done|].
  change (tagId :: tagIds) with ([tagId] ++ tagIds) in *.
  rewrite expectedRefs_app in *. unfold shownKeywords in *.
  rewrite omap_app, omap_app, IH by (intros r Hr; apply Hd, elem_of_app; by right).
  f_equal. unfold expectedRefs in *. cbn [omap list_omap] in *.
  destruct (list_find _ T0) as [[r t0]|] eqn:Hfind; [|done].
  destruct (hiddenKeyword (Tag.keyword t0)); [done|]. cbn.
  destruct (Hd r) as (t0' & t & Ht0' & Ht & _ & Hk).
  { apply elem_of_app. left. by apply list_elem_of_singleton. }
  apply list_find_Some in Hfind as (Ht0 & _ & _).
  rewrite Ht. cbn. congruence.
Qed.

(** X7: when every tag keyword has one prefix at most, the listing shows for
    each listed filter, in the order of its tag ids, the keywords of the
    tags found in the tag catalog: a [reference:] tag is left out, a [lang:]
    keyword is shown verbatim, any other keyword is shown without its
    prefix, and unknown tag ids are skipped. *)
Theorem getFilters_shows_single_prefix_keywords (w : World) (ref : nat) (f : Filter.t) :
  (∀ t, t ∈ tags w → SinglePrefix (Tag.keyword t)) →
  ref ∈ snd (getFilters w) →
  filters w !! ref = Some f →
  ∃ f', filters (fst (getFilters w)) !! ref = Some f' ∧
        sameButTagsDetails f f' ∧
        omap (λ r, Tag.keyword <$> tags (fst (getFilters w)) !! r) (Filter.tagsDetails f') =
          shownKeywords (tags w) (Filter.tags f).
Proof.
  intros Hsingle Href Hf. cbn [getFilters fst snd] in *.
  destruct (annotateFilters_shown (tags w) (visibleFilters w) Hsingle
              (visibleFilters_NoDup w) w (TagsShown_refl _)) as (_ & _ & _ & Hrefs).
  destruct (Hrefs ref f Href Hf) as [Hf' Hd].
  eexists. split; [exact Hf'|]. split; [by destruct f|].
  cbn [Filter.setTagsDetails Filter.tagsDetails]. by apply shownKeywords_of_refs.
Qed.

Lemma getFilters_shows_single_prefix_keywords_witness :
  ∃ f', filters (fst (getFilters worldTags)) !! 0%nat = Some f' ∧
        omap (λ r, Tag.keyword <$> tags (fst (getFilters worldTags)) !! r)
             (Filter.tagsDetails f') = ["lang:en"; "ads"; "recommended"].
Proof.
  destruct (getFilters_shows_single_prefix_keywords worldTags 0%nat
              (Filter.mk 1 1 [1; 2; 3; 9; 4] [] None None None None None []))
    as (f' & Hf' & _ & Hshown).
  - intros t Ht. apply list_elem_of_In in Ht. simpl in Ht.
    destruct Ht as [<-|[<-|[<-|[<-|[]]]]].
    + left. by vm_compute.
    + right. left. by vm_compute.
    + right. right. by vm_compute.
    + right. right. by vm_compute.
  - vm_compute. apply elem_of_cons. by left.
  - reflexivity.
  - exists f'. split; [exact Hf'|]. rewrite Hshown. by vm_compute.
Defined.

(** ** Toggling groups *)

Lemma getGroup_ref groupId w :
  getGroup groupId w = None ∨ ∃ ref g, getGroupRef groupId w = Some (ref, g) ∧
                                       getGroup groupId w = Some g.
Proof.
  unfold getGroup. destruct (getGroupRef groupId w) as [[ref g]|]; [right; eauto|by left].
Qed.

(** X8: [enableGroup] is idempotent, does nothing for an unknown group, and
    leaves a known group enabled with at most one event about it. *)
Theorem enableGroup_idempotent (groupId : Z) (w : World) :
  enableGroup groupId (enableGroup groupId w) = enableGroup groupId w ∧
  (getGroup groupId w = None → enableGroup groupId w = w) ∧
  (is_Some (getGroup groupId w) →
   isGroupEnabled groupId (enableGroup groupId w) = true ∧
   groupEvents groupId (enableGroup groupId w) =
     (groupEvents groupId w + if isGroupEnabled groupId w then 0 else 1)%nat).
Proof.
  destruct (getGroup_ref groupId w) as [Hnone|(ref & g & Href & Hg)].
  - assert (Hw : enableGroup groupId w = w).
    { unfold enableGroup. unfold getGroup in Hnone.
      by destruct (getGroupRef groupId w) as [[? ?]|]. }
    rewrite !Hw. split_and!; [done|done|]. rewrite Hnone. by intros [? ?].
  - destruct (truthy (Group.enabled g)) eqn:Ht.
    + assert (Hw : enableGroup groupId w = w) by (unfold enableGroup; by rewrite Href, Ht).
      rewrite !Hw. split_and!; [done|congruence|]. intros _.
      unfold isGroupEnabled. rewrite Hg, Ht. split; [done|lia].
    + destruct (enableGroup_enables _ _ _ _ Href Ht) as [Hflag Hev]. split_and!.
      * by apply enableGroup_enabled.
      * congruence.
      * intros _. split; [by apply isGroupEnabled_groupFlag|].
        rewrite Hev. unfold isGroupEnabled. rewrite Hg, Ht. lia.
Qed.

Lemma disableGroup_unfold groupId ref group w :
  getGroupRef groupId w = Some (ref, group) →
  truthy (Group.enabled group) = true →
  disableGroup groupId w =
  notifyListeners (FILTER_GROUP_ENABLE_DISABLE (Group.setEnabled (Some false) group))
                  (putGroup ref (Group.setEnabled (Some false) group) w).
Proof. intros Hg Ht. unfold disableGroup. by rewrite Hg, Ht. Qed.

(** X9: after [disableGroup] the group is not enabled.  A group that is
    not enabled (unknown, disabled or never toggled) is left exactly as it
    is, so a never toggled group stays never toggled; an enabled group gets
    [enabled=false], one event, and the state store records it, while the
    filters and their store are untouched. *)
Theorem disableGroup_effect (groupId : Z) (w : World) :
  isGroupEnabled groupId (disableGroup groupId w) = false ∧
  (isGroupEnabled groupId w = false → disableGroup groupId w = w) ∧
  (isGroupEnabled groupId w = true →
   groupFlag groupId (disableGroup groupId w) = Some (Some false) ∧
   groupEvents groupId (disableGroup groupId w) = S (groupEvents groupId w) ∧
   groupsState (disableGroup groupId w) !! groupId = Some (Some false) ∧
   filters (disableGroup groupId w) = filters w ∧
   filtersState (disableGroup groupId w) = filtersState w).
Proof.
  destruct (getGroup_ref groupId w) as [Hnone|(ref & g & Href & Hg)].
  - assert (Hw : disableGroup groupId w = w).
    { unfold disableGroup. unfold getGroup in Hnone.
      by destruct (getGroupRef groupId w) as [[? ?]|]. }
    rewrite !Hw. unfold isGroupEnabled. rewrite Hnone. by split_and!.
  - destruct (truthy (Group.enabled g)) eqn:Ht.
    + rewrite (disableGroup_unfold _ _ _ _ Href Ht).
      pose proof (getGroupRef_Some _ _ _ _ Href) as [Hlook Hid].
      set (g' := Group.setEnabled (Some false) g).
      assert (Hg' : getGroupRef groupId
                      (notifyListeners (FILTER_GROUP_ENABLE_DISABLE g') (putGroup ref g' w)) =
                    Some (ref, g')).
      { rewrite getGroupRef_notifyListeners. by erewrite getGroupRef_putGroup_same. }
      split_and!.
      * unfold isGroupEnabled, getGroup. by rewrite Hg'.
      * unfold isGroupEnabled. rewrite Hg, Ht. done.
      * intros _. split_and!.
        -- unfold groupFlag, getGroup. by rewrite Hg'.
        -- rewrite groupEvents_notify_group. cbn [g' Group.setEnabled Group.groupId].
           rewrite Hid, Z.eqb_refl. unfold groupEvents, countEvents. cbn. lia.
        -- unfold notifyListeners. cbn. rewrite Hid. by rewrite lookup_insert_eq.
        -- by rewrite filters_notifyListeners.
        -- done.
    + assert (Hw : disableGroup groupId w = w) by (unfold disableGroup; by rewrite Href, Ht).
      rewrite !Hw. unfold isGroupEnabled. rewrite Hg, Ht. by split_and!.
Qed.

Lemma enableGroup_known groupId w :
  is_Some (getGroup groupId w) →
  groupFlag groupId (enableGroup groupId w) = Some (Some true) ∨
  (isGroupEnabled groupId w = true ∧ enableGroup groupId w = w).
Proof.
  intros Hsome.
  destruct (getGroup_ref groupId w) as [Hnone|(ref & g & Href & Hg)].
  { rewrite Hnone in Hsome. by destruct Hsome. }
  destruct (truthy (Group.enabled g)) eqn:Ht.
  - right. unfold isGroupEnabled, enableGroup. by rewrite Hg, Href, Ht.
  - left. by destruct (enableGroup_enables _ _ _ _ Href Ht).
Qed.

Section GroupOperations.

Variable SAFARI_FILTER_ID : Z.
Variable isRecommendedFilter : Filter.t → bool.
Variable isMobileFilter : Filter.t → bool.
Variable userAgent : option string.
Variable getFilterIdsForLanguage : list Filter.t → list Z.

Let recommended :=
  getRecommendedFilterIdsByGroupId SAFARI_FILTER_ID isRecommendedFilter isMobileFilter
                                   userAgent getFilterIdsForLanguage.

Let enableFiltersGroup' :=
  enableFiltersGroup SAFARI_FILTER_ID isRecommendedFilter isMobileFilter
                     userAgent getFilterIdsForLanguage.

(** X10: on a group that has been toggled before, whether it is enabled or
    disabled now, [enableFiltersGroup] is [enableGroup] and nothing more: no
    filter is touched, no load is started, and the group ends enabled, with
    one event if it was disabled and none if it was enabled. *)
Theorem enableFiltersGroup_toggled_group_only_toggles
        (groupId : Z) (b : bool) (w : World) :
  groupFlag groupId w = Some (Some b) →
  enableFiltersGroup' groupId w = Ok (enableGroup groupId w) ∧
  isGroupEnabled groupId (enableGroup groupId w) = true ∧
  groupEvents groupId (enableGroup groupId w) =
    (groupEvents groupId w + if b then 0 else 1)%nat ∧
  filters (enableGroup groupId w) = filters w ∧
  filtersState (enableGroup groupId w) = filtersState w ∧
  loaderCalls (enableGroup groupId w) = loaderCalls w ∧
  inflight (enableGroup groupId w) = inflight w.
Proof.
  intros Hflag.
  destruct (Neutral_enableGroup groupId w) as (Hf & Hs & Hi & Hc).
  split_and!; try done.
  - unfold enableFiltersGroup', enableFiltersGroup. unfold groupFlag in Hflag.
    destruct (getGroup groupId w) as [group|]; [|done]. simpl in Hflag.
    by injection Hflag as ->.
  - unfold groupFlag, getGroup in Hflag.
    destruct (getGroupRef groupId w) as [[ref g]|] eqn:Href; [|done].
    simpl in Hflag. injection Hflag as Hen. destruct b.
    + rewrite enableGroup_enabled.
      * unfold isGroupEnabled, getGroup. rewrite Href. simpl. by rewrite Hen.
      * unfold groupFlag, getGroup. rewrite Href. simpl. by rewrite Hen.
    + apply isGroupEnabled_groupFlag.
      eapply enableGroup_enables; [done|]. by rewrite Hen.
  - unfold groupFlag, getGroup in Hflag.
    destruct (getGroupRef groupId w) as [[ref g]|] eqn:Href; [|done].
    simpl in Hflag. injection Hflag as Hen. destruct b.
    + rewrite enableGroup_enabled; [lia|].
      unfold groupFlag, getGroup. rewrite Href. simpl. by rewrite Hen.
    + destruct (enableGroup_enables groupId ref g w Href) as [_ ->]; [by rewrite Hen|lia].
Qed.

(** X11: [enableFiltersGroup] returns normally for every group id and every
    state: the ids it seeds come from the catalog, so no lookup fails.  A
    known group is enabled afterwards; for an unknown group nothing
    changes. *)
Theorem enableFiltersGroup_returns (groupId : Z) (w : World) :
  ∃ w', enableFiltersGroup' groupId w = Ok w' ∧
        (is_Some (getGroup groupId w) → isGroupEnabled groupId w' = true) ∧
        (getGroup groupId w = None → w' = w).
Proof.
  destruct (getGroup groupId w) as [group|] eqn:Hg.
  2: { exists w. split_and!; [|by intros [? ?]|done].
       unfold enableFiltersGroup', enableFiltersGroup. rewrite Hg. cbn [bind].
       unfold enableGroup. unfold getGroup in Hg.
       by destruct (getGroupRef groupId w) as [[? ?]|]. }
  destruct (Group.enabled group) as [b|] eqn:Hen.
  { assert (Hflag : groupFlag groupId w = Some (Some b))
      by (unfold groupFlag; by rewrite Hg, <- Hen).
    exists (enableGroup groupId w). split_and!; [| |done].
    - unfold enableFiltersGroup', enableFiltersGroup. by rewrite Hg, Hen.
    - intros _. destruct (enableGroup_known groupId w) as [H|[H ->]];
        [by rewrite Hg|by apply isGroupEnabled_groupFlag|done]. }
  assert (Hflag : groupFlag groupId w = Some None)
    by (unfold groupFlag; by rewrite Hg, <- Hen).
  pose proof (recommended_view SAFARI_FILTER_ID isRecommendedFilter isMobileFilter
                userAgent getFilterIdsForLanguage groupId w) as Hv.
  pose proof (recommended_present SAFARI_FILTER_ID isRecommendedFilter isMobileFilter
                userAgent getFilterIdsForLanguage groupId w) as Hpresent.
  fold recommended in Hv, Hpresent.
  assert (Hcall : enableFiltersGroup' groupId w =
                  loadNextFilter (removeDuplicates (snd (recommended groupId w)))
                                 (fst (recommended groupId w))
                  >>> (λ w', Ok (enableGroup groupId w'))).
  { unfold enableFiltersGroup', enableFiltersGroup. rewrite Hg, Hen.
    fold (recommended groupId w).
    destruct (recommended groupId w) as [wc ids]. by rewrite addAndEnableFilters_unfold. }
  destruct (loadNextFilter_returns groupId (removeDuplicates (snd (recommended groupId w)))
              (fst (recommended groupId w))) as (wb & Hwb & Hmono).
  { intros id Hid. by apply Hpresent, removeDuplicates_elem. }
  exists (enableGroup groupId wb). split_and!; [by rewrite Hcall, Hwb| |done].
  intros _. rewrite <- (view_groupFlag _ _ _ Hv) in Hflag.
  destruct Hmono as [[Hf _]|(_ & Hf & _)].
  - rewrite Hflag in Hf. unfold groupFlag, getGroup in Hf.
    destruct (getGroupRef groupId wb) as [[ref g]|] eqn:Href; [|done].
    simpl in Hf. injection Hf as Hen'. apply isGroupEnabled_groupFlag.
    eapply enableGroup_enables; [done|]. by rewrite Hen'.
  - rewrite (enableGroup_enabled _ _ Hf). by apply isGroupEnabled_groupFlag.
Qed.

End GroupOperations.

Lemma enableFiltersGroup_toggled_group_only_toggles_witness :
  enableFiltersGroup 12 (hasTag 10) (hasTag 19) None (λ _, []) 1 worldGroupOff =
    Ok (enableGroup 1 worldGroupOff) ∧
  isGroupEnabled 1 (enableGroup 1 worldGroupOff) = true ∧
  groupEvents 1 (enableGroup 1 worldGroupOff) = (groupEvents 1 worldGroupOff + 1)%nat ∧
  filters (enableGroup 1 worldGroupOff) = filters worldGroupOff ∧
  filtersState (enableGroup 1 worldGroupOff) = filtersState worldGroupOff ∧
  loaderCalls (enableGroup 1 worldGroupOff) = loaderCalls worldGroupOff ∧
  inflight (enableGroup 1 worldGroupOff) = inflight worldGroupOff.
Proof.
  apply (enableFiltersGroup_toggled_group_only_toggles
           12 (hasTag 10) (hasTag 19) None (λ _, []) 1 false worldGroupOff).
  vm_compute. reflexivity.
Defined.

(** ** A filter and its group *)

Lemma getGroup_putFilter groupId ref f w :
  getGroup groupId (putFilter ref f w) = getGroup groupId w.
Proof. done. Qed.

Lemma notifications_putFilter ref f w :
  notifications (putFilter ref f w) = notifications w.
Proof. done. Qed.

Lemma notifications_putGroup ref g w :
  notifications (putGroup ref g w) = notifications w.
Proof. done. Qed.

(** X12: enabling a filter that the store does not report as enabled emits
    one [FILTER_ENABLE_DISABLE] with [enabled=true]; when the filter's group
    has never been toggled, the group is enabled first, and its
    [FILTER_GROUP_ENABLE_DISABLE] precedes the filter's event.  A group that
    was toggled before, even if it is disabled, is left as it is, and so is
    the list of groups when the filter's group is unknown. *)
Theorem enableFilter_enables_untoggled_group (filterId : Z) (f : Filter.t) (w : World) :
  getFilter filterId w = Some f →
  isFilterEnabled filterId w = false →
  ∃ w', enableFilter filterId w = Ok w' ∧
        let f' := Filter.setEnabled (Some true) f in
        match groupFlag (Filter.groupId f) w with
        | Some None =>
            ∃ g', Group.groupId g' = Filter.groupId f ∧
                  Group.enabled g' = Some true ∧
                  groupFlag (Filter.groupId f) w' = Some (Some true) ∧
                  notifications w' =
                    notifications w ++ [FILTER_GROUP_ENABLE_DISABLE g';
                                        FILTER_ENABLE_DISABLE f']
        | _ =>
            groups w' = groups w ∧
            notifications w' = notifications w ++ [FILTER_ENABLE_DISABLE f']
        end.
Proof.
  intros Hf He. apply getFilter_Some in Hf as [ref Hf].
  rewrite (enableFilter_unfold _ _ _ _ He Hf). eexists. split; [done|].
  set (f' := Filter.setEnabled (Some true) f). cbn zeta.
  set (w1 := putFilter ref f' w).
  assert (Hflag : groupFlag (Filter.groupId f) w1 = groupFlag (Filter.groupId f) w) by done.
  unfold implicitGroupEnable, groupHasEnabledStatus.
  rewrite <- Hflag. unfold groupFlag, getGroup.
  destruct (getGroupRef (Filter.groupId f) w1) as [[gref g]|] eqn:Hg; simpl.
  2: { unfold enableGroup. by rewrite Hg. }
  destruct (Group.enabled g) as [b|] eqn:Hen; simpl.
  { done. }
  assert (Ht : truthy (Group.enabled g) = false) by (by rewrite Hen).
  pose proof (getGroupRef_Some _ _ _ _ Hg) as [_ Hid].
  exists (Group.setEnabled (Some true) g). split_and!; [done|done| |].
  - rewrite getGroupRef_notifyListeners.
    by destruct (enableGroup_enables _ _ _ _ Hg Ht) as [<- _].
  - rewrite (enableGroup_unfold _ _ _ _ Hg Ht).
    rewrite notifications_notifyListeners, notifications_putGroup.
    unfold w1. rewrite notifications_putFilter. by rewrite <- app_assoc.
Qed.

Lemma enableFilter_enables_untoggled_group_witness :
  ∃ w', enableFilter 2 worldBatch = Ok w' ∧
        ∃ g', Group.groupId g' = 1 ∧ Group.enabled g' = Some true ∧
              groupFlag 1 w' = Some (Some true) ∧
              notifications w' =
                [FILTER_GROUP_ENABLE_DISABLE g';
                 FILTER_ENABLE_DISABLE
                   (Filter.mk 2 1 [10] [] None (Some true) None None None [])].
Proof.
  apply (enableFilter_enables_untoggled_group
           2 (Filter.mk 2 1 [10] [] None None None None None []) worldBatch);
    vm_compute; reflexivity.
Defined.

(** ** Disabling filters *)

Lemma head_removeDuplicates l : head (removeDuplicates l) = head l.
Proof. by destruct l. Qed.

Lemma disableLoop_never_enables (queue : list Z) :
  ∀ w id, isFilterEnabled id (disableLoop queue w) = true → isFilterEnabled id w = true.
Proof.
  induction queue as [|x queue IH]; intros w id; [done|].
  cbn [disableLoop]. destruct (isFilterEnabled x w) eqn:He; [|done]. cbn [negb].
  destruct (is_Some_getFilter x w) as (ref & f & Hf); [by apply isFilterEnabled_present|].
  rewrite Hf. set (f' := Filter.setEnabled (Some false) f).
  set (w1 := notifyListeners (FILTER_ENABLE_DISABLE f') (putFilter ref f' w)).
  pose proof (getFilterRef_Some _ _ _ _ Hf) as [_ Hid].
  assert (HF : Frame (eq x) w w1) by (eapply Frame_put_notify; eauto).
  assert (Hoff : isFilterEnabled x w1 = false).
  { unfold isFilterEnabled. destruct (getFilter x w1); [|done].
    replace (filtersState w1 !! x) with
      (Some (StateInfo.mk (Filter.loaded f') (Filter.enabled f') (Filter.installed f')));
      [done|].
    symmetry. rewrite <- Hid. apply (filtersState_put_notify ref f'). by left. }
  intros Hen. apply IH in Hen.
  destruct (decide (x = id)) as [->|Hne]; [congruence|].
  by rewrite <- (Frame_isFilterEnabled _ _ _ _ HF Hne).
Qed.

Lemma disableLoop_head (queue : list Z) w id :
  head queue = Some id → isFilterEnabled id (disableLoop queue w) = false.
Proof.
  destruct queue as [|x queue]; [done|]. intros [= ->].
  destruct (isFilterEnabled id (disableLoop (id :: queue) w)) eqn:Hen; [|done].
  pose proof (disableLoop_never_enables _ _ _ Hen) as He.
  cbn [disableLoop] in Hen. rewrite He in Hen. cbn [negb] in Hen.
  destruct (is_Some_getFilter id w) as (ref & f & Hf); [by apply isFilterEnabled_present|].
  rewrite Hf in Hen. apply disableLoop_never_enables in Hen.
  pose proof (getFilterRef_Some _ _ _ _ Hf) as [_ Hid].
  set (f' := Filter.setEnabled (Some false) f) in Hen.
  unfold isFilterEnabled in Hen.
  destruct (getFilter id _); [|done].
  replace (filtersState (notifyListeners (FILTER_ENABLE_DISABLE f') (putFilter ref f' w))
             !! id) with
    (Some (StateInfo.mk (Filter.loaded f') (Filter.enabled f') (Filter.installed f')))
    in Hen; [done|].
  symmetry. rewrite <- Hid. apply (filtersState_put_notify ref f'). by left.
Qed.

(** X13: [disableFilters] never enables a filter, the first listed filter is
    not enabled afterwards, and disabling the same list again changes
    nothing: no flag and no further event. *)
Theorem disableFilters_idempotent (filterIds : list Z) (w : World) :
  disableFilters filterIds (disableFilters filterIds w) = disableFilters filterIds w ∧
  (∀ id, isFilterEnabled id (disableFilters filterIds w) = true →
         isFilterEnabled id w = true) ∧
  (∀ id, head filterIds = Some id →
         isFilterEnabled id (disableFilters filterIds w) = false).
Proof.
  unfold disableFilters. split_and!.
  - destruct (removeDuplicates filterIds) as [|x queue] eqn:Hq; [done|].
    rewrite <- Hq.
    pose proof (disableLoop_head (removeDuplicates filterIds) w x) as Hoff.
    rewrite Hq in Hoff. specialize (Hoff eq_refl). rewrite <- Hq in Hoff.
    rewrite Hq at 1. cbn [disableLoop]. by rewrite Hoff.
  - apply disableLoop_never_enables.
  - intros id Hid. apply disableLoop_head. by rewrite head_removeDuplicates.
Qed.

(** ** The life of a custom filter *)

Lemma removeFilter_unfold filterId ref f w :
  getFilterRef filterId w = Some (ref, f) →
  truthy (Filter.removed f) = false →
  truthyString (Filter.customUrl f) = true →
  let f' := Filter.setRemoved (Some true)
              (Filter.setInstalled (Some false) (Filter.setEnabled (Some false) f)) in
  removeFilter filterId w =
    notifyListeners (FILTER_ADD_REMOVE f')
      (notifyListeners (FILTER_ENABLE_DISABLE f') (putFilter ref f' w)) ∧
  getFilterRef filterId (removeFilter filterId w) = Some (ref, f') ∧
  filtersState (removeFilter filterId w) !! filterId =
    Some (StateInfo.mk (Filter.loaded f) (Some false) (Some false)).
Proof.
  intros Hf Hr Hc f'. pose proof (getFilterRef_Some _ _ _ _ Hf) as [_ Hid].
  assert (Heq : removeFilter filterId w =
                notifyListeners (FILTER_ADD_REMOVE f')
                  (notifyListeners (FILTER_ENABLE_DISABLE f') (putFilter ref f' w))).
  { unfold removeFilter. by rewrite Hf, Hr, Hc. }
  split_and!; [done| |].
  - rewrite Heq, !getFilterRef_notifyListeners.
    by eapply getFilterRef_putFilter_same.
  - rewrite Heq. simpl. rewrite Hid. by rewrite lookup_insert_eq.
Qed.

Lemma removeFilter_cases filterId w :
  removeFilter filterId w = w ∨
  ∃ ref f, getFilterRef filterId w = Some (ref, f) ∧
           truthy (Filter.removed f) = false ∧
           truthyString (Filter.customUrl f) = true.
Proof.
  unfold removeFilter. destruct (getFilterRef filterId w) as [[ref f]|]; [|by left].
  destruct (truthy (Filter.removed f)) eqn:Hr; [by left|].
  destruct (truthyString (Filter.customUrl f)) eqn:Hc; [|by left].
  right. by exists ref, f.
Qed.

(** X14: removing a filter twice is removing it once.  A removal touches
    the removed filter only, starts no load, and when it takes place the
    filter is no longer listed by the category selector, is reported as not
    enabled, and the store records it as disabled and not installed, with
    its [loaded] flag as it was. *)
Theorem removeFilter_hides_filter (filterId : Z) (w : World) :
  removeFilter filterId (removeFilter filterId w) = removeFilter filterId w ∧
  Frame (eq filterId) w (removeFilter filterId w) ∧
  groups (removeFilter filterId w) = groups w ∧
  loaderCalls (removeFilter filterId w) = loaderCalls w ∧
  inflight (removeFilter filterId w) = inflight w ∧
  (∀ ref f, getFilterRef filterId w = Some (ref, f) →
            truthy (Filter.removed f) = false →
            truthyString (Filter.customUrl f) = true →
            (ref ∉ snd (getFilters (removeFilter filterId w))) ∧
            isFilterEnabled filterId (removeFilter filterId w) = false ∧
            filtersState (removeFilter filterId w) !! filterId =
              Some (StateInfo.mk (Filter.loaded f) (Some false) (Some false))).
Proof.
  destruct (removeFilter_cases filterId w) as [Hsame|(ref & f & Hf & Hr & Hc)].
  { rewrite !Hsame. split_and!; try done; try apply Frame_refl.
    intros ref f Hf Hr Hc.
    destruct (removeFilter_unfold _ _ _ _ Hf Hr Hc) as (_ & Hf' & _).
    rewrite Hsame in Hf'. rewrite Hf in Hf'. injection Hf' as Hf'.
    rewrite Hf' in Hr. done. }
  destruct (removeFilter_unfold _ _ _ _ Hf Hr Hc) as (Heq & Hf' & Hst).
  set (f' := Filter.setRemoved (Some true)
               (Filter.setInstalled (Some false) (Filter.setEnabled (Some false) f))) in *.
  split_and!.
  - unfold removeFilter at 1. by rewrite Hf'.
  - rewrite Heq. eapply Frame_trans with (S1 := eq filterId) (S2 := eq filterId);
      [eapply (Frame_put_notify filterId ref f f'); [done| |by left]| |done|done].
    + by apply getFilterRef_Some in Hf as [_ ?].
    + apply Frame_same_catalog; [by rewrite filters_notifyListeners|].
      simpl. apply getFilterRef_Some in Hf as [_ ->].
      by rewrite insert_insert_eq.
  - by rewrite Heq, !groups_notifyListeners.
  - by rewrite Heq, !loaderCalls_notifyListeners.
  - by rewrite Heq, !inflight_notifyListeners.
  - intros ref0 f0 Hf0 _ _. rewrite Hf in Hf0. injection Hf0 as <- <-.
    split_and!; [| |done].
    + cbn [getFilters snd]. rewrite visibleFilters_elem. intros (f1 & Hf1 & Hr1).
      apply getFilterRef_Some in Hf' as [Hlook _]. rewrite Hlook in Hf1.
      injection Hf1 as <-. done.
    + unfold isFilterEnabled. rewrite Hst. by destruct (getFilter _ _).
Qed.

(** X15: when a removed custom filter is registered again, the success
    callback receives the filter in a state where it is listed again by the
    category selector, yet neither enabled nor installed: registration
    undoes the removal only as far as visibility goes. *)
Theorem customFilterRegistered_after_removal
        (onSuccess : Filter.t → World → World) (onError : World → World)
        (filterId : Z) (ref : nat) (f : Filter.t) (w : World) :
  filterId ≠ 0 →
  getFilterRef filterId w = Some (ref, f) →
  truthy (Filter.removed f) = false →
  truthyString (Filter.customUrl f) = true →
  ∃ f' w',
    customFilterRegistered onSuccess onError (Some filterId) (removeFilter filterId w) =
      Ok (onSuccess f' w') ∧
    getFilter filterId w' = Some f' ∧
    ref ∈ snd (getFilters w') ∧
    Filter.removed f' = None ∧
    Filter.enabled f' = Some false ∧
    Filter.installed f' = Some false ∧
    Filter.loaded f' = Filter.loaded f ∧
    isFilterEnabled filterId w' = false.
Proof.
  intros Hne Hf Hr Hc.
  destruct (removeFilter_unfold _ _ _ _ Hf Hr Hc) as (_ & Hf' & Hst).
  set (f1 := Filter.setRemoved (Some true)
               (Filter.setInstalled (Some false) (Filter.setEnabled (Some false) f))) in *.
  exists (Filter.setRemoved None f1), (putFilter ref (Filter.setRemoved None f1)
                                         (removeFilter filterId w)).
  assert (Hf2 : getFilterRef filterId (putFilter ref (Filter.setRemoved None f1)
                                         (removeFilter filterId w)) =
                Some (ref, Filter.setRemoved None f1)).
  { eapply getFilterRef_putFilter_same; [done|]. by apply getFilterRef_Some in Hf as [_ ?]. }
  split_and!; try done.
  - unfold customFilterRegistered. simpl.
    destruct (Z.eqb_spec filterId 0) as [|_]; [done|]. simpl. by rewrite Hf'.
  - by eapply getFilterRef_getFilter.
  - cbn [getFilters snd]. rewrite visibleFilters_elem.
    apply getFilterRef_Some in Hf2 as [Hlook _]. eauto.
  - unfold isFilterEnabled.
    replace (filtersState (putFilter ref (Filter.setRemoved None f1)
                             (removeFilter filterId w)) !! filterId)
      with (Some (StateInfo.mk (Filter.loaded f) (Some false) (Some false))).
    by destruct (getFilter _ _).
Qed.

Lemma customFilterRegistered_after_removal_witness :
  ∃ f' w',
    customFilterRegistered (λ _ w, w) (λ w, w) (Some 1000) (removeFilter 1000 worldCustom) =
      Ok w' ∧
    getFilter 1000 w' = Some f' ∧
    0%nat ∈ snd (getFilters w') ∧
    Filter.removed f' = None ∧
    Filter.enabled f' = Some false ∧
    Filter.installed f' = Some false ∧
    Filter.loaded f' = Some true ∧
    isFilterEnabled 1000 w' = false.
Proof.
  apply (customFilterRegistered_after_removal
           (λ _ w, w) (λ w, w) 1000 0%nat
           (Filter.mk 1000 0 [] [] (Some "https://example.org/list.txt")
                      (Some true) (Some true) (Some true) None [])
           worldCustom); [lia|vm_compute; reflexivity..].
Defined.

(** ** Batches that need no load, and what a batch leaves alone *)

Lemma needsLoad_false filterId ref f w :
  getFilterRef filterId w = Some (ref, f) →
  needsLoad w filterId = false →
  truthy (Filter.installed f) = true ∨
  (truthy (Filter.installed f) = false ∧ truthy (Filter.loaded f) = true).
Proof.
  intros Hf. unfold needsLoad. rewrite (getFilterRef_getFilter _ _ _ _ Hf).
  destruct (truthy (Filter.installed f)), (truthy (Filter.loaded f)); simpl; auto; done.
Qed.

Lemma loadNextFilter_synchronous (queue : list Z) :
  NoDup queue →
  ∀ w, (∀ id, id ∈ queue → is_Some (getFilter id w) ∧ needsLoad w id = false) →
       ∃ w', loadNextFilter queue w = Ok w' ∧
             inflight w' = inflight w ∧
             loaderCalls w' = loaderCalls w ∧
             (∀ id, id ∈ queue → isFilterEnabled id w' = true) ∧
             Frame (λ id, id ∈ queue) w w'.
Proof.
  induction queue as [|x queue IH]; intros Hnd w Hq.
  { exists w. split_and!; first [done | apply Frame_refl | by intros ? ?%elem_of_nil]. }
  apply NoDup_cons in Hnd as [Hx Hnd].
  destruct (Hq x) as [Hsome Hneeds]; [by left|].
  destruct (is_Some_getFilter x w Hsome) as (ref & f & Hf).
  assert (Hstep : ∃ w1, addAntiBannerFilter (deferLoad x queue) x
                          (batchCallback (loadNextFilter queue) x) w =
                        loadNextFilter queue w1 ∧
                        isFilterEnabled x w1 = true ∧ Frame (eq x) w w1 ∧
                        inflight w1 = inflight w ∧ loaderCalls w1 = loaderCalls w).
  { unfold addAntiBannerFilter. rewrite Hf.
    destruct (needsLoad_false _ _ _ _ Hf Hneeds) as [-> | [-> ->]].
    - destruct (enableFilter_spec x w Hsome) as (w1 & Hw1 & ?).
      exists w1. split; [|done]. unfold batchCallback. by rewrite Hw1.
    - destruct (install_enable_spec _ _ _ _ Hf) as (w1 & Hw1 & ?).
      exists w1. split; [|done]. unfold onFilterLoaded, batchCallback. by rewrite Hw1. }
  destruct Hstep as (w1 & Hcall & Hen1 & HF1 & Hi1 & Hc1).
  destruct (IH Hnd w1) as (w' & Hw' & Hi' & Hc' & Hen' & HF').
  { intros id Hid. assert (Hne : x ≠ id) by (intros ->; done).
    destruct (Hq id) as [Hs Hn]; [by right|]. split.
    - by eapply Frame_present.
    - by rewrite (needsLoad_frame _ _ _ _ HF1 Hne). }
  exists w'. cbn [loadNextFilter]. rewrite Hcall. split_and!; [done|congruence|congruence| |].
  - intros id [->|Hid]%elem_of_cons; [|by apply Hen'].
    by rewrite (Frame_isFilterEnabled _ _ _ _ HF' Hx).
  - eapply Frame_trans; [exact HF1|exact HF'|..].
    + intros id <-. by left.
    + intros id Hid. by right.
Qed.

(** X16: a batch over filters of the catalog that are all installed or
    loaded already completes within the call: it returns normally, hands
    nothing to the loader, whatever is in flight from earlier batches stays
    as it is, every listed filter is enabled on return, and no other filter
    is touched. *)
Theorem addAndEnableFilters_without_loads_is_synchronous
        (filterIds : list Z) (w : World) :
  (∀ id, id ∈ filterIds → is_Some (getFilter id w) ∧ needsLoad w id = false) →
  ∃ w', addAndEnableFilters filterIds w = Ok w' ∧
        inflight w' = inflight w ∧
        loaderCalls w' = loaderCalls w ∧
        (∀ id, id ∈ filterIds → isFilterEnabled id w' = true) ∧
        Frame (λ id, id ∈ filterIds) w w'.
Proof.
  intros Hq. rewrite addAndEnableFilters_unfold.
  destruct (loadNextFilter_synchronous (removeDuplicates filterIds)
              (removeDuplicates_NoDup _) w) as (w' & Hw' & Hi & Hc & Hen & HF).
  { intros id Hid. by apply Hq, removeDuplicates_elem. }
  exists w'. split_and!; try done.
  - intros id Hid. by apply Hen, removeDuplicates_elem.
  - eapply (Frame_trans _ (λ _, False)); [exact HF|apply Frame_refl|..].
    + intros id Hid. cbn beta. by apply (proj1 (removeDuplicates_elem _ _)).
    + by intros id [].
Qed.

Lemma addAndEnableFilters_without_loads_is_synchronous_witness :
  ∃ w', addAndEnableFilters [1; 2; 1] worldNoLoads = Ok w' ∧
        inflight w' = inflight worldNoLoads ∧
        loaderCalls w' = loaderCalls worldNoLoads ∧
        (∀ id, id ∈ [1; 2; 1] → isFilterEnabled id w' = true) ∧
        Frame (λ id, id ∈ [1; 2; 1]) worldNoLoads w'.
Proof.
  apply (addAndEnableFilters_without_loads_is_synchronous [1; 2; 1] worldNoLoads).
  intros id Hid. apply list_elem_of_In in Hid. simpl in Hid.
  destruct Hid as [<-|[<-|[<-|[]]]]; vm_compute; split; eauto.
Defined.

(** X17: a batch started when no load is in flight, over ids of the catalog,
    touches the listed filters only.  Once the loader has answered, every
    filter outside the list has the object and the store entry it had, no
    filter has left the catalog, and no filter that was enabled has been
    disabled, whatever the loader's verdicts were. *)
Theorem addAndEnableFilters_touches_listed_only
        (filterIds : list Z) (outcome : Z → bool) (fuel : nat) (w0 : World) :
  (∀ id, id ∈ filterIds → is_Some (getFilter id w0)) →
  inflight w0 = [] →
  (length filterIds ≤ fuel)%nat →
  ∃ wf, addAndEnableFilters filterIds w0 >>> settle outcome fuel = Ok wf ∧
        (∀ id, id ∉ filterIds →
               getFilter id wf = getFilter id w0 ∧
               filtersState wf !! id = filtersState w0 !! id) ∧
        (∀ id, is_Some (getFilter id w0) → is_Some (getFilter id wf)) ∧
        (∀ id, isFilterEnabled id w0 = true → isFilterEnabled id wf = true).
Proof.
  intros Hpresent Hidle Hfuel. rewrite addAndEnableFilters_unfold.
  set (queue0 := removeDuplicates filterIds).
  assert (Hnd : NoDup queue0) by apply removeDuplicates_NoDup.
  destruct (loadNextFilter_prefix outcome [] queue0 Hnd (λ w, w) w0 fuel
                                  Neutral_id Hidle)
    as (wm & fuel' & h' & Hh' & _ & Heq & Hidlem & HFm & Henm & Hcallsm).
  { intros id Hid. by apply Hpresent, removeDuplicates_elem. }
  { pose proof (removeDuplicates_length filterIds). unfold queue0. lia. }
  rewrite app_nil_r in Heq.
  destruct (settled_state outcome queue0 h' fuel' w0 wm Hh' Hidlem HFm Henm Hcallsm)
    as (wf & Hwf & _ & HF & Hen & _).
  exists wf. split_and!.
  - change (settle outcome fuel) with (settleVia (λ w, w) outcome fuel).
    rewrite Heq. by cbn [loadNextFilter bind].
  - intros id Hid.
    assert (Hns : ¬ (id ∈ queue0 ∧ getsInstalled outcome id w0 = true)).
    { intros [Hin _]. apply Hid. by apply (proj1 (removeDuplicates_elem _ _)). }
    split; [by eapply Frame_getFilter|]. destruct HF as [_ HF]. by apply HF.
  - by destruct HF.
  - intros id He.
    destruct (decide (id ∈ queue0)) as [Hin|Hout];
      [destruct (getsInstalled outcome id w0) eqn:Hg; [by apply Hen|]|];
      rewrite <- He; eapply Frame_isFilterEnabled; try exact HF; intros [? ?]; congruence.
Qed.

Lemma addAndEnableFilters_touches_listed_only_witness :
  ∃ wf, addAndEnableFilters [2; 1] worldBatch >>> settle (λ _, false) 2 = Ok wf ∧
        (∀ id, id ∉ [2; 1] →
               getFilter id wf = getFilter id worldBatch ∧
               filtersState wf !! id = filtersState worldBatch !! id) ∧
        (∀ id, is_Some (getFilter id worldBatch) → is_Some (getFilter id wf)) ∧
        (∀ id, isFilterEnabled id worldBatch = true → isFilterEnabled id wf = true).
Proof.
  apply (addAndEnableFilters_touches_listed_only [2; 1] (λ _, false) 2 worldBatch).
  - intros id Hid. apply list_elem_of_In in Hid. simpl in Hid.
    destruct Hid as [<-|[<-|[]]]; vm_compute; eauto.
  - reflexivity.
  - simpl. lia.
Defined.

(** ** Restoring the stored state *)

Lemma list_find_fmap_same {A} (P : A → Prop) `{!∀ x, Decision (P x)} (r : A → A)
      (l : list A) :
  (∀ x, P (r x) ↔ P x) →
  list_find P (r <$> l) = prod_map id r <$> list_find P l.
Proof.
  intros HP. rewrite list_find_fmap. f_equal. apply list_find_ext. intros x. apply HP.
Qed.

Lemma withGroups_id w : withGroups (groups w) w = w.
Proof. by destruct w. Qed.

Lemma refreshGroup_unfold w i :
  Manager.refreshGroup w i =
  withGroups (match groups w !! i with
              | Some g => <[i := restoredGroup (groupsState w) g]> (groups w)
              | None => groups w
              end) w.
Proof.
  unfold Manager.refreshGroup, restoredGroup.
  destruct (groups w !! i) as [g|] eqn:Hg; [|by rewrite withGroups_id].
  destruct (groupsState w !! Group.groupId g); [done|].
  by rewrite list_insert_id, withGroups_id.
Qed.

Lemma getGroups_loop (l : list nat) :
  ∀ w, foldl Manager.refreshGroup w l =
       withGroups (foldl (λ acc i, match acc !! i with
                                   | Some g => <[i := restoredGroup (groupsState w) g]> acc
                                   | None => acc
                                   end) (groups w) l) w.
Proof.
  induction l as [|i l IH]; intros w; cbn [foldl]; [by rewrite withGroups_id|].
  rewrite refreshGroup_unfold, IH. done.
Qed.

Lemma getGroups_unfold w :
  Manager.getGroups w = withGroups (restoredGroup (groupsState w) <$> groups w) w.
Proof.
  unfold Manager.getGroups. rewrite getGroups_loop. f_equal.
  apply list_eq. intros j.
  by rewrite (foldl_seq_all (λ _, restoredGroup (groupsState w))), list_lookup_fmap.
Qed.

Lemma restoredGroup_groupId store g :
  Group.groupId (restoredGroup store g) = Group.groupId g.
Proof. unfold restoredGroup. by destruct (store !! Group.groupId g). Qed.

Lemma restoredGroup_idemp store g :
  restoredGroup store (restoredGroup store g) = restoredGroup store g.
Proof.
  unfold restoredGroup at 1. rewrite restoredGroup_groupId. unfold restoredGroup.
  by destruct (store !! Group.groupId g).
Qed.

Lemma getGroup_getGroups groupId w :
  getGroup groupId (Manager.getGroups w) =
  restoredGroup (groupsState w) <$> getGroup groupId w.
Proof.
  rewrite getGroups_unfold. unfold getGroup, getGroupRef. cbn [groups withGroups].
  rewrite (list_find_fmap_same (λ g, Group.groupId g = groupId)).
  - by destruct (list_find _ (groups w)) as [[i g]|].
  - intros g. by rewrite restoredGroup_groupId.
Qed.

(** X18: [getGroups] gives every group object the [enabled] flag that the
    store holds for its id and leaves a group without an entry as it is;
    nothing else changes (no filter, no store, no event, no load), and a
    second [getGroups] changes nothing. *)
Theorem getGroups_restores_stored_flags (w : World) :
  (∀ i, groups (Manager.getGroups w) !! i =
        restoredGroup (groupsState w) <$> groups w !! i) ∧
  (∀ groupId g, getGroup groupId w = Some g →
                groupFlag groupId (Manager.getGroups w) =
                Some (default (Group.enabled g) (groupsState w !! groupId))) ∧
  Manager.getGroups w = withGroups (groups (Manager.getGroups w)) w ∧
  Manager.getGroups (Manager.getGroups w) = Manager.getGroups w.
Proof.
  split_and!.
  - intros i. rewrite getGroups_unfold. cbn [groups withGroups]. apply list_lookup_fmap.
  - intros groupId g Hg. unfold groupFlag. rewrite getGroup_getGroups, Hg. simpl.
    unfold getGroup in Hg.
    destruct (getGroupRef groupId w) as [[ref g0]|] eqn:Href; [|done].
    injection Hg as ->. apply getGroupRef_Some in Href as [_ Hid].
    unfold restoredGroup. rewrite Hid. by destruct (groupsState w !! groupId).
  - by rewrite getGroups_unfold.
  - rewrite (getGroups_unfold (Manager.getGroups w)), getGroups_unfold.
    cbn [groups groupsState withGroups]. unfold withGroups. cbn. f_equal.
    rewrite <- list_fmap_compose. apply list_fmap_ext. intros _ g _.
    apply restoredGroup_idemp.
Qed.

Section Restore.

Variable SAFARI_FILTER_ID : Z.
Variable isRecommendedFilter : Filter.t → bool.
Variable isMobileFilter : Filter.t → bool.
Variable userAgent : option string.
Variable getFilterIdsForLanguage : list Filter.t → list Z.

(** X19: once [getGroups] has restored a group whose toggle the store
    remembers, [enableFiltersGroup] finds the group toggled, whatever its
    object said before: it seeds no recommended filter and starts no load,
    it only enables the group. *)
Theorem enableFiltersGroup_after_getGroups (groupId : Z) (b : bool) (w : World) :
  is_Some (getGroup groupId w) →
  groupsState w !! groupId = Some (Some b) →
  let w' := Manager.getGroups w in
  enableFiltersGroup SAFARI_FILTER_ID isRecommendedFilter isMobileFilter
                     userAgent getFilterIdsForLanguage groupId w' =
    Ok (enableGroup groupId w') ∧
  isGroupEnabled groupId (enableGroup groupId w') = true ∧
  filters (enableGroup groupId w') = filters w ∧
  filtersState (enableGroup groupId w') = filtersState w ∧
  loaderCalls (enableGroup groupId w') = loaderCalls w ∧
  inflight (enableGroup groupId w') = inflight w.
Proof.
  intros [g Hg] Hstore w'.
  assert (Hflag : groupFlag groupId w' = Some (Some b)).
  { unfold w', groupFlag. rewrite getGroup_getGroups, Hg. simpl.
    unfold getGroup in Hg.
    destruct (getGroupRef groupId w) as [[ref g0]|] eqn:Href; [|done].
    injection Hg as ->. apply getGroupRef_Some in Href as [_ Hid].
    unfold restoredGroup. by rewrite Hid, Hstore. }
  destruct (Neutral_enableGroup groupId w') as (Hf & Hs & Hi & Hc).
  assert (Hw' : w' = withGroups (groups w') w) by (unfold w'; by rewrite getGroups_unfold).
  split_and!.
  - unfold enableFiltersGroup. unfold groupFlag in Hflag.
    destruct (getGroup groupId w') as [group|]; [|done]. simpl in Hflag.
    by injection Hflag as ->.
  - destruct (enableGroup_known groupId w') as [H|[H ->]];
      [|by apply isGroupEnabled_groupFlag|done].
    unfold groupFlag in Hflag. by destruct (getGroup groupId w').
  - rewrite Hf, Hw'. done.
  - rewrite Hs, Hw'. done.
  - rewrite Hc, Hw'. done.
  - rewrite Hi, Hw'. done.
Qed.

End Restore.

Lemma enableFiltersGroup_after_getGroups_witness :
  let w' := Manager.getGroups worldRestart in
  enableFiltersGroup 12 (hasTag 10) (hasTag 19) None (λ _, []) 1 w' =
    Ok (enableGroup 1 w') ∧
  isGroupEnabled 1 (enableGroup 1 w') = true ∧
  filters (enableGroup 1 w') = filters worldRestart ∧
  filtersState (enableGroup 1 w') = filtersState worldRestart ∧
  loaderCalls (enableGroup 1 w') = loaderCalls worldRestart ∧
  inflight (enableGroup 1 w') = inflight worldRestart.
Proof.
  apply (enableFiltersGroup_after_getGroups
           12 (hasTag 10) (hasTag 19) None (λ _, []) 1 false worldRestart).
  - vm_compute. eauto.
  - vm_compute. reflexivity.
Defined.

(** X20: a toggle of a group survives a restore.  After [enableGroup] has
    enabled a group, or [disableGroup] has disabled it, the store holds the
    new flag, so [getGroups] leaves the group as the toggle left it. *)
Theorem group_toggle_survives_getGroups (groupId : Z) (w : World) :
  is_Some (getGroup groupId w) →
  (isGroupEnabled groupId w = false →
   groupFlag groupId (Manager.getGroups (enableGroup groupId w)) = Some (Some true)) ∧
  (isGroupEnabled groupId w = true →
   groupFlag groupId (Manager.getGroups (disableGroup groupId w)) = Some (Some false)).
Proof.
  intros Hsome.
  destruct (getGroup_ref groupId w) as [Hnone|(ref & g & Href & Hg)].
  { rewrite Hnone in Hsome. by destruct Hsome. }
  pose proof (getGroupRef_Some _ _ _ _ Href) as [_ Hid].
  assert (Hrestored : ∀ (b : bool) w1 g1,
             getGroup groupId w1 = Some g1 → Group.groupId g1 = groupId →
             groupsState w1 !! groupId = Some (Some b) →
             groupFlag groupId (Manager.getGroups w1) = Some (Some b)).
  { intros b w1 g1 Hg1 Hid1 Hst. unfold groupFlag. rewrite getGroup_getGroups, Hg1. simpl.
    unfold restoredGroup. by rewrite Hid1, Hst. }
  unfold isGroupEnabled. rewrite Hg. split; intros Ht.
  - rewrite (enableGroup_unfold _ _ _ _ Href Ht).
    eapply Hrestored with (g1 := Group.setEnabled (Some true) g); [|done|].
    + unfold getGroup. rewrite getGroupRef_notifyListeners.
      by erewrite getGroupRef_putGroup_same.
    + simpl. rewrite Hid. by rewrite lookup_insert_eq.
  - rewrite (disableGroup_unfold _ _ _ _ Href Ht).
    eapply Hrestored with (g1 := Group.setEnabled (Some false) g); [|done|].
    + unfold getGroup. rewrite getGroupRef_notifyListeners.
      by erewrite getGroupRef_putGroup_same.
    + simpl. rewrite Hid. by rewrite lookup_insert_eq.
Qed.

Lemma group_toggle_survives_getGroups_witness :
  (isGroupEnabled 1 worldBatch = false →
   groupFlag 1 (Manager.getGroups (enableGroup 1 worldBatch)) = Some (Some true)) ∧
  (isGroupEnabled 1 worldBatch = true →
   groupFlag 1 (Manager.getGroups (disableGroup 1 worldBatch)) = Some (Some false)).
Proof.
  apply (group_toggle_survives_getGroups 1 worldBatch). vm_compute. eauto.
Defined.

(** ** The manager's view of the filters *)

Lemma withFilters_id w : withFilters (filters w) w = w.
Proof. by destruct w. Qed.

Lemma restoredFilter_filterId store f :
  Filter.filterId (restoredFilter store f) = Filter.filterId f.
Proof. unfold restoredFilter. by destruct (store !! Filter.filterId f). Qed.

Lemma restoredFilter_idemp store f :
  restoredFilter store (restoredFilter store f) = restoredFilter store f.
Proof.
  unfold restoredFilter at 1. rewrite restoredFilter_filterId. unfold restoredFilter.
  by destruct (store !! Filter.filterId f).
Qed.

Lemma refreshFilter_world v i :
  world (Manager.refreshFilter v i) =
  withFilters (match filters (world v) !! i with
               | Some f => <[i := restoredFilter (filtersState (world v)) f]>
                             (filters (world v))
               | None => filters (world v)
               end) (world v).
Proof.
  unfold Manager.refreshFilter, restoredFilter.
  destruct (filters (world v) !! i) as [f|] eqn:Hf; [|by rewrite withFilters_id].
  cbn [world]. destruct (filtersState (world v) !! Filter.filterId f); [done|].
  by rewrite list_insert_id, withFilters_id.
Qed.

Lemma refreshFilter_filtersVersion v i :
  filtersVersion (Manager.refreshFilter v i) = filtersVersion v.
Proof. unfold Manager.refreshFilter. by destruct (filters (world v) !! i). Qed.

Lemma refreshFilter_versions v i j :
  filterVersions (Manager.refreshFilter v i) !! j =
  if decide (j = i) then restoredVersion v i else filterVersions v !! j.
Proof.
  unfold Manager.refreshFilter, restoredVersion.
  destruct (filters (world v) !! i) as [f|]; cbn [filterVersions].
  - destruct (filtersVersion v !! Filter.filterId f) as [vi|].
    + destruct (decide (j = i)) as [->|Hne];
        [by rewrite lookup_insert_eq|by rewrite lookup_insert_ne].
    + by destruct (decide (j = i)) as [->|Hne].
  - by destruct (decide (j = i)) as [->|Hne].
Qed.

Lemma refreshFilter_ids v i j :
  Filter.filterId <$> filters (world (Manager.refreshFilter v i)) !! j =
  Filter.filterId <$> filters (world v) !! j.
Proof.
  rewrite refreshFilter_world. cbn [filters withFilters].
  destruct (filters (world v) !! i) as [f|] eqn:Hf; [|done].
  destruct (decide (j = i)) as [->|Hne].
  - rewrite list_lookup_insert_eq by (by eapply lookup_lt_Some).
    rewrite Hf. simpl. by rewrite restoredFilter_filterId.
  - by rewrite list_lookup_insert_ne.
Qed.

Lemma restoredVersion_refreshFilter v i j :
  restoredVersion (Manager.refreshFilter v i) j = restoredVersion v j.
Proof.
  pose proof (refreshFilter_ids v i j) as Hids.
  pose proof (refreshFilter_versions v i j) as Hver.
  unfold restoredVersion at 1. rewrite refreshFilter_filtersVersion, Hver.
  destruct (filters (world (Manager.refreshFilter v i)) !! j) as [f1|],
           (filters (world v) !! j) as [f|] eqn:Hf; simpl in Hids; try done.
  - injection Hids as ->.
    destruct (filtersVersion v !! Filter.filterId f) as [vi|] eqn:Hvi.
    + unfold restoredVersion. by rewrite Hf, Hvi.
    + destruct (decide (j = i)) as [->|Hne]; [done|].
      unfold restoredVersion. by rewrite Hf, Hvi.
  - destruct (decide (j = i)) as [->|Hne]; [done|].
    unfold restoredVersion. by rewrite Hf.
Qed.

Lemma getFilters_loop (l : list nat) :
  ∀ v, world (foldl Manager.refreshFilter v l) =
         withFilters
           (foldl (λ acc i,
                     match acc !! i with
                     | Some f => <[i := restoredFilter (filtersState (world v)) f]> acc
                     | None => acc
                     end) (filters (world v)) l) (world v) ∧
       filtersVersion (foldl Manager.refreshFilter v l) = filtersVersion v ∧
       ∀ j, filterVersions (foldl Manager.refreshFilter v l) !! j =
            if decide (j ∈ l) then restoredVersion v j else filterVersions v !! j.
Proof.
  induction l as [|i l IH]; intros v; cbn [foldl].
  { split_and!; [by rewrite withFilters_id|done|].
    intros j. by rewrite decide_False by (by intros ?%elem_of_nil). }
  destruct (IH (Manager.refreshFilter v i)) as (Hw & Hfv & Hver). split_and!.
  - rewrite Hw, refreshFilter_world. done.
  - by rewrite Hfv, refreshFilter_filtersVersion.
  - intros j. rewrite Hver, restoredVersion_refreshFilter, refreshFilter_versions.
    destruct (decide (j ∈ l)) as [Hin|Hout].
    + rewrite decide_True; [done|by right].
    + destruct (decide (j = i)) as [->|Hne].
      * rewrite decide_True; [done|by left].
      * rewrite decide_False; [done|]. by intros [?|?]%elem_of_cons.
Qed.

Lemma manager_getFilters_unfold v :
  world (fst (Manager.getFilters v)) =
    withFilters (restoredFilter (filtersState (world v)) <$> filters (world v)) (world v) ∧
  filtersVersion (fst (Manager.getFilters v)) = filtersVersion v ∧
  ∀ j, filterVersions (fst (Manager.getFilters v)) !! j = restoredVersion v j.
Proof.
  unfold Manager.getFilters. cbn [fst].
  destruct (getFilters_loop (seq 0 (length (filters (world v)))) v) as (Hw & Hfv & Hver).
  split_and!; [|done|].
  - rewrite Hw. f_equal. apply list_eq. intros j.
    by rewrite (foldl_seq_all (λ _, restoredFilter (filtersState (world v)))),
       list_lookup_fmap.
  - intros j. rewrite Hver. destruct (decide (j ∈ seq 0 _)) as [Hin|Hout]; [done|].
    unfold restoredVersion. destruct (filters (world v) !! j) as [f|] eqn:Hf; [|done].
    destruct Hout. apply list_elem_of_In, List.in_seq. apply lookup_lt_Some in Hf. lia.
Qed.

Lemma getFilterRef_restored store filterId w :
  getFilterRef filterId (withFilters (restoredFilter store <$> filters w) w) =
  prod_map id (restoredFilter store) <$> getFilterRef filterId w.
Proof.
  unfold getFilterRef. cbn [filters withFilters].
  apply (list_find_fmap_same (λ f, Filter.filterId f = filterId)).
  intros f. by rewrite restoredFilter_filterId.
Qed.

Lemma getFilter_manager_getFilters filterId v :
  getFilter filterId (world (fst (Manager.getFilters v))) =
  restoredFilter (filtersState (world v)) <$> getFilter filterId (world v).
Proof.
  destruct (manager_getFilters_unfold v) as (-> & _ & _).
  unfold getFilter. rewrite getFilterRef_restored.
  by destruct (getFilterRef filterId (world v)) as [[ref f]|].
Qed.

(** X21: the manager's [getFilters] returns every filter object of the
    catalog, removed ones included.  Each object gets the flags of its
    entry in the state store and the version properties of its entry in the
    version store; an object without an entry keeps what it has.  Nothing
    else changes, and a second call changes nothing. *)
Theorem manager_getFilters_projects_stores (v : Versioned) :
  let v' := fst (Manager.getFilters v) in
  snd (Manager.getFilters v) = seq 0 (length (filters (world v))) ∧
  (∀ i, filters (world v') !! i =
        restoredFilter (filtersState (world v)) <$> filters (world v) !! i) ∧
  (∀ i, filterVersions v' !! i = restoredVersion v i) ∧
  world v' = withFilters (filters (world v')) (world v) ∧
  filtersVersion v' = filtersVersion v ∧
  fst (Manager.getFilters v') = v'.
Proof.
  intros v'. destruct (manager_getFilters_unfold v) as (Hw & Hfv & Hver).
  fold v' in Hw, Hfv, Hver. split_and!; [done| |done| |done|].
  - intros i. rewrite Hw. cbn [filters withFilters]. apply list_lookup_fmap.
  - by rewrite Hw.
  - destruct (manager_getFilters_unfold v') as (Hw2 & Hfv2 & Hver2).
    assert (Hworld : world (fst (Manager.getFilters v')) = world v').
    { rewrite Hw2, Hw. cbn [filters filtersState withFilters]. unfold withFilters. cbn.
      f_equal. rewrite <- list_fmap_compose. apply list_fmap_ext. intros _ f _.
      apply restoredFilter_idemp. }
    assert (Hversions : filterVersions (fst (Manager.getFilters v')) = filterVersions v').
    { apply map_eq. intros i. rewrite Hver2, Hver. unfold restoredVersion at 1.
      rewrite Hfv, Hver, Hw. cbn [filters withFilters]. rewrite list_lookup_fmap.
      unfold restoredVersion.
      destruct (filters (world v) !! i) as [f|]; [|done]. simpl.
      rewrite restoredFilter_filterId.
      by destruct (filtersVersion v !! Filter.filterId f). }
    destruct (fst (Manager.getFilters v')) as [w2 vs2 fv2], v' as [w1 vs1 fv1].
    cbn in *. congruence.
Qed.

Lemma withStateInfo_synced f :
  withStateInfo (StateInfo.mk (Filter.loaded f) (Filter.enabled f) (Filter.installed f)) f
  = f.
Proof. by destruct f. Qed.

Lemma getFilter_synced filterId v :
  Synced filterId (world v) →
  getFilter filterId (world (fst (Manager.getFilters v))) = getFilter filterId (world v).
Proof.
  intros Hs. rewrite getFilter_manager_getFilters.
  destruct (getFilter filterId (world v)) as [f|] eqn:Hf; [|done]. simpl. f_equal.
  apply getFilter_Some in Hf as [ref Hf].
  pose proof (getFilterRef_Some _ _ _ _ Hf) as [_ Hid].
  unfold restoredFilter. rewrite Hid.
  destruct (filtersState (world v) !! filterId) as [s|] eqn:Hst; [|done].
  rewrite (Hs f s); [apply withStateInfo_synced|by eapply getFilterRef_getFilter|done].
Qed.

(** X22: after the manager's [getFilters], the in-memory flags of a filter
    with a store entry are those of the entry, so the [enabled] flag of the
    object says what [isFilterEnabled] reports. *)
Theorem manager_getFilters_agrees_with_isFilterEnabled
        (filterId : Z) (f : Filter.t) (v : Versioned) :
  getFilter filterId (world (fst (Manager.getFilters v))) = Some f →
  is_Some (filtersState (world v) !! filterId) →
  filtersState (world v) !! filterId =
    Some (StateInfo.mk (Filter.loaded f) (Filter.enabled f) (Filter.installed f)) ∧
  isFilterEnabled filterId (world (fst (Manager.getFilters v))) = truthy (Filter.enabled f).
Proof.
  intros Hf [s Hs]. pose proof Hf as Hf0.
  rewrite getFilter_manager_getFilters in Hf.
  destruct (getFilter filterId (world v)) as [f0|] eqn:Hf0'; [|done].
  simpl in Hf. injection Hf as <-.
  apply getFilter_Some in Hf0' as [ref Href].
  pose proof (getFilterRef_Some _ _ _ _ Href) as [_ Hid].
  unfold restoredFilter. rewrite Hid, Hs. split; [by destruct s|].
  unfold isFilterEnabled. rewrite Hf0.
  destruct (manager_getFilters_unfold v) as (-> & _ & _). cbn [filtersState withFilters].
  by rewrite Hs.
Qed.

(** X23: what [enableFilter] and [removeFilter] write to a filter object
    is what the store records for it, so the manager's [getFilters] returns
    the filter exactly as the operation left it. *)
Theorem manager_getFilters_after_write
        (filterId : Z) (w : World)
        (versions : gmap nat VersionInfo.t) (stored : gmap Z VersionInfo.t) :
  let refreshed w' := world (fst (Manager.getFilters (mkVersioned w' versions stored))) in
  (∀ w', enableFilter filterId w = Ok w' → isFilterEnabled filterId w = false →
         getFilter filterId (refreshed w') = getFilter filterId w' ∧
         Filter.enabled <$> getFilter filterId w' = Some (Some true)) ∧
  (removeFilter filterId w ≠ w →
   getFilter filterId (refreshed (removeFilter filterId w)) =
     getFilter filterId (removeFilter filterId w) ∧
   Filter.removed <$> getFilter filterId (removeFilter filterId w) = Some (Some true)).
Proof.
  intros refreshed. split.
  - intros w' Hcall He.
    destruct (getFilterRef filterId w) as [[ref f]|] eqn:Hf.
    2: { unfold enableFilter in Hcall. by rewrite He, Hf in Hcall. }
    rewrite (enableFilter_unfold _ _ _ _ He Hf) in Hcall. apply Ok_inj in Hcall.
    pose proof (getFilterRef_Some _ _ _ _ Hf) as [_ Hid].
    set (f' := Filter.setEnabled (Some true) f) in *.
    assert (Hf' : getFilter filterId w' = Some f').
    { rewrite <- Hcall. unfold getFilter, getFilterRef.
      rewrite notify_after_group_filters. fold (getFilterRef filterId (putFilter ref f' w)).
      by erewrite getFilterRef_putFilter_same. }
    split; [|by rewrite Hf'].
    apply (getFilter_synced filterId (mkVersioned w' versions stored)). cbn [world].
    intros f1 s Hf1 Hs. rewrite Hf' in Hf1. injection Hf1 as <-.
    rewrite <- Hcall in Hs. simpl in Hs.
    rewrite Hid, lookup_insert_eq in Hs. by injection Hs as <-.
  - intros Hchanged.
    destruct (removeFilter_cases filterId w) as [Hsame|(ref & f & Hf & Hr & Hc)]; [done|].
    destruct (removeFilter_unfold _ _ _ _ Hf Hr Hc) as (_ & Hf' & Hst).
    split; [|by rewrite (getFilterRef_getFilter _ _ _ _ Hf')].
    apply (getFilter_synced filterId (mkVersioned (removeFilter filterId w) versions stored)).
    cbn [world]. intros f1 s Hf1 Hs.
    rewrite (getFilterRef_getFilter _ _ _ _ Hf') in Hf1. injection Hf1 as <-.
    rewrite Hst in Hs. by injection Hs as <-.
Qed.

Lemma manager_getFilters_agrees_with_isFilterEnabled_witness :
  let v := mkVersioned worldStale ∅ ∅ in
  filtersState (world v) !! 7 =
    Some (StateInfo.mk (Some true) (Some true) (Some true)) ∧
  isFilterEnabled 7 (world (fst (Manager.getFilters v))) = true.
Proof.
  apply (manager_getFilters_agrees_with_isFilterEnabled
           7 (Filter.mk 7 1 [] [] None (Some true) (Some true) (Some true) None [])
           (mkVersioned worldStale ∅ ∅)).
  - vm_compute. reflexivity.
  - vm_compute. eauto.
Defined.

(** ** Operations on the recommended filters of a group *)

Section ByGroup.

Variable SAFARI_FILTER_ID : Z.
Variable isRecommendedFilter : Filter.t → bool.
Variable isMobileFilter : Filter.t → bool.
Variable userAgent : option string.
Variable getFilterIdsForLanguage : list Filter.t → list Z.

Let recommended :=
  getRecommendedFilterIdsByGroupId SAFARI_FILTER_ID isRecommendedFilter isMobileFilter
                                   userAgent getFilterIdsForLanguage.

Lemma recommended_member groupId w id :
  id ∈ snd (recommended groupId w) →
  (∃ g, g ∈ groups w ∧ Group.groupId g = groupId) ∧
  ∃ ref f, filters w !! ref = Some f ∧ Filter.filterId f = id ∧
           Filter.groupId f = groupId.
Proof.
  intros Hin.
  apply (recommended_category SAFARI_FILTER_ID isRecommendedFilter isMobileFilter
           userAgent getFilterIdsForLanguage) in Hin as (i & g & Hg & Hgid & Hin).
  split; [exists g; split; [by eapply list_elem_of_lookup_2|done]|].
  apply (offeredIds_elem _ _ _ _ getFilterIdsForLanguage) in Hin
    as (ref & f' & Href & Hf' & Hid & _).
  unfold selectFiltersByGroupId in Href.
  apply list_elem_of_In, List.filter_In in Href as [Hvis Hfg].
  apply list_elem_of_In, visibleFilters_elem in Hvis as (f & Hf & _).
  rewrite Hf in Hfg. apply Z.eqb_eq in Hfg.
  destruct (sameButTagsDetails_lookup _ _ _ _
              (view_filters _ _ (getFiltersMetadata_view w)) Hf') as (f0 & Hf0 & Hsame).
  destruct (sameButTagsDetails_fields _ _ Hsame) as (Hid' & _ & _).
  exists ref, f. split_and!; try done. congruence.
Qed.

(** X24: [addAndEnableFiltersByGroupId] returns normally for every group id
    and every state, since the ids it hands to the batch are ids of the
    catalog.  For a group id that no group has, it changes nothing that
    the manager looks at: the same filters up to the annotations of the
    selector, the same stores, no event and no load. *)
Theorem addAndEnableFiltersByGroupId_returns (groupId : Z) (w : World) :
  ∃ w', addAndEnableFiltersByGroupId SAFARI_FILTER_ID isRecommendedFilter isMobileFilter
          userAgent getFilterIdsForLanguage groupId w = Ok w' ∧
        ((∀ g, g ∈ groups w → Group.groupId g ≠ groupId) → CatalogView w w').
Proof.
  pose proof (recommended_view SAFARI_FILTER_ID isRecommendedFilter isMobileFilter
                userAgent getFilterIdsForLanguage groupId w) as Hv.
  pose proof (recommended_present SAFARI_FILTER_ID isRecommendedFilter isMobileFilter
                userAgent getFilterIdsForLanguage groupId w) as Hpresent.
  pose proof (recommended_member groupId w) as Hmember.
  unfold addAndEnableFiltersByGroupId. fold (recommended groupId w) in *.
  destruct (recommended groupId w) as [wc ids]. cbn [fst snd] in *.
  rewrite addAndEnableFilters_unfold.
  destruct (loadNextFilter_returns groupId (removeDuplicates ids) wc) as (w' & Hw' & _).
  { intros id Hid. by apply Hpresent, removeDuplicates_elem. }
  exists w'. split; [done|]. intros Hunknown.
  destruct ids as [|id ids].
  - cbn in Hw'. apply Ok_inj in Hw'. by subst w'.
  - destruct (Hmember id) as [(g & Hg & Hid) _]; [by left|].
    by destruct (Hunknown g Hg).
Qed.

(** X25: [disableAntiBannerFiltersByGroupId] never enables a filter, and a
    filter id that no filter object of the group carries keeps the status
    that [isFilterEnabled] reports for it. *)
Theorem disableAntiBannerFiltersByGroupId_stays_in_group (groupId : Z) (w : World) :
  let w' := disableAntiBannerFiltersByGroupId SAFARI_FILTER_ID isRecommendedFilter
              isMobileFilter userAgent getFilterIdsForLanguage groupId w in
  (∀ id, isFilterEnabled id w' = true → isFilterEnabled id w = true) ∧
  (∀ id, (∀ ref f, filters w !! ref = Some f → Filter.filterId f = id →
                   Filter.groupId f ≠ groupId) →
         isFilterEnabled id w' = isFilterEnabled id w).
Proof.
  pose proof (recommended_view SAFARI_FILTER_ID isRecommendedFilter isMobileFilter
                userAgent getFilterIdsForLanguage groupId w) as Hv.
  pose proof (recommended_member groupId w) as Hmember.
  unfold disableAntiBannerFiltersByGroupId. fold (recommended groupId w) in *.
  destruct (recommended groupId w) as [wc ids]. cbn [fst snd] in *.
  unfold disableFilters. split.
  - intros id Hen. apply disableLoop_never_enables in Hen.
    by rewrite (view_isFilterEnabled _ _ _ Hv) in Hen.
  - intros id Hother.
    destruct (disableLoop_spec (removeDuplicates ids) (removeDuplicates_NoDup _) wc)
      as (done & rest & events & Hq & _ & _ & _ & HF & _).
    rewrite <- (view_isFilterEnabled _ _ _ Hv).
    eapply Frame_isFilterEnabled; [exact HF|]. cbn beta. intros Hdone.
    assert (Hin : id ∈ ids).
    { apply removeDuplicates_elem. rewrite Hq. apply elem_of_app. by left. }
    destruct (Hmember id Hin) as [_ (ref & f & Hf & Hid & Hg)].
    by destruct (Hother ref f Hf Hid).
Qed.

End ByGroup.

(** ** Installing a single filter *)

(** X26: with a loader that answers with [verdict], [addAntiBannerFilter]
    calls the callback once, with [true] exactly when the filter is
    installed afterwards: it was installed, or it was loaded, or the load
    succeeded.  A filter that was not installed and becomes so gets
    [installed=true] and one [FILTER_ADD_REMOVE]; otherwise the state is
    passed on as it is, in particular when the load fails.  No other filter
    is touched. *)
Theorem addAntiBannerFilter_reports_installation
        (filterId : Z) (ref : nat) (f : Filter.t) (verdict : bool)
        (callback : bool → World → Result) (w : World) :
  getFilterRef filterId w = Some (ref, f) →
  ∃ w', addAntiBannerFilter (λ _ k w1, k verdict w1) filterId callback w =
          callback (getsInstalled (λ _, verdict) filterId w) w' ∧
        Frame (eq filterId) w w' ∧
        (∃ f', getFilter filterId w' = Some f' ∧
               truthy (Filter.installed f') = getsInstalled (λ _, verdict) filterId w) ∧
        if negb (truthy (Filter.installed f)) && (truthy (Filter.loaded f) || verdict)
        then notifications w' =
               notifications w ++ [FILTER_ADD_REMOVE (Filter.setInstalled (Some true) f)]
        else w' = w.
Proof.
  intros Hf. pose proof (getFilterRef_Some _ _ _ _ Hf) as [Hlook Hid].
  pose proof (getFilterRef_getFilter _ _ _ _ Hf) as Hget.
  unfold addAntiBannerFilter, getsInstalled. rewrite Hf, Hget.
  assert (Hmark : Frame (eq filterId) w (markInstalled ref w) ∧
                  getFilter filterId (markInstalled ref w) =
                    Some (Filter.setInstalled (Some true) f) ∧
                  notifications (markInstalled ref w) =
                    notifications w ++
                    [FILTER_ADD_REMOVE (Filter.setInstalled (Some true) f)]).
  { destruct (markInstalled_spec _ _ _ _ Hf) as (HF & _). split; [done|].
    unfold markInstalled. rewrite Hlook. split.
    - unfold getFilter. rewrite getFilterRef_notifyListeners.
      by erewrite getFilterRef_putFilter_same.
    - by rewrite notifications_notifyListeners. }
  destruct Hmark as (HF & Hget' & Hnote).
  destruct (truthy (Filter.installed f)) eqn:Hi; cbn [negb andb orb].
  { exists w. split_and!; [done|apply Frame_refl|by exists f|done]. }
  destruct (truthy (Filter.loaded f)) eqn:Hl; cbn [orb].
  { exists (markInstalled ref w). split_and!; [done|done| |done].
    by exists (Filter.setInstalled (Some true) f). }
  unfold onFilterLoaded. destruct verdict.
  - exists (markInstalled ref w). split_and!; [done|done| |done].
    by exists (Filter.setInstalled (Some true) f).
  - exists w. split_and!; [done|apply Frame_refl|by exists f|done].
Qed.

Lemma addAntiBannerFilter_reports_installation_witness :
  ∃ w', addAntiBannerFilter (λ _ k w1, k false w1) 2 (λ _ w1, Ok w1) worldBatch = Ok w' ∧
        Frame (eq 2) worldBatch w' ∧
        (∃ f', getFilter 2 w' = Some f' ∧
               truthy (Filter.installed f') = getsInstalled (λ _, false) 2 worldBatch) ∧
        w' = worldBatch.
Proof.
  apply (addAntiBannerFilter_reports_installation
           2 1%nat (Filter.mk 2 1 [10] [] None None None None None []) false
           (λ _ w1, Ok w1) worldBatch).
  vm_compute. reflexivity.
Defined.

(** X27: [enableFilter] fails exactly when the catalog has no filter with
    the id: it then ends with the error of a property write on
    [undefined] and has changed nothing; for a filter of the catalog it
    returns normally. *)
Theorem enableFilter_throws_iff_absent (filterId : Z) (w : World) :
  (getFilter filterId w = None → enableFilter filterId w = Throw TypeError w) ∧
  (is_Some (getFilter filterId w) → ∃ w', enableFilter filterId w = Ok w').
Proof.
  split.
  - intros Hnone. unfold enableFilter, isFilterEnabled. rewrite Hnone.
    by rewrite (getFilter_None _ _ Hnone).
  - intros Hsome. destruct (enableFilter_spec _ _ Hsome) as (w' & Hw' & _). eauto.
Qed.
